(** * web_mail_go: IMAP session, LMTP delivery and MIME indexer

    A shallow embedding of the command handlers of [imap_core], of the
    LMTP [Session.Data] path and of the MIME parser and BODYSTRUCTURE
    builder of [indexer/parser.go], together with the properties the
    specification states about them.

    Go strings and byte slices are sequences of bytes: they are embedded
    as [string] (a list of [ascii], one per byte).  Go's [int] and [int64]
    are embedded as [Z]; none of the modelled code does arithmetic that
    could leave the 64-bit range other than counting bytes and lines. *)

From Stdlib Require Import ZArith List String Ascii Bool Lia Permutation.
From Stdlib Require Import DecimalString.
From stdpp Require Import base option list gmap strings sorting.

Local Open Scope string_scope.
Local Open Scope list_scope.
Local Open Scope Z_scope.

(* ===================================================================== *)
(** * Part I.  Definitions                                                *)
(* ===================================================================== *)

(** ** Byte-level functions of the Go standard library

    The functions below are those of package [strings], [strconv] and the
    regular expressions of the sources whose behaviour is fixed byte by
    byte (an ASCII separator never occurs inside a multi-byte UTF-8
    sequence), and the decoding of package [unicode/utf8] that a [range]
    over a string performs. *)

Module Go.

Definition byte := ascii.

Definition LF : ascii := "010"%char.
Definition CR : ascii := "013"%char.
Definition TAB : ascii := "009"%char.
Definition VT : ascii := "011"%char.
Definition FF : ascii := "012"%char.
Definition SP : ascii := " "%char.
Definition CRLF : string := String CR (String LF "").
Definition DQ : ascii := "034"%char.
Definition BACKSLASH : ascii := "092"%char.

(** A double quote, and a text between double quotes. *)
Definition dquote : string := String DQ "".
Definition quoted (s : string) : string := dquote +:+ s +:+ dquote.

(** [len(s)] *)
Definition len (s : string) : Z := Z.of_nat (String.length s).

(** [strings.HasPrefix(s, prefix)] *)
Definition HasPrefix (s prefix : string) : bool := String.prefix prefix s.

(** [strings.Contains(s, substr)] *)
Fixpoint Contains (s substr : string) : bool :=
  HasPrefix s substr ||
  match s with
  | EmptyString => false
  | String _ t => Contains t substr
  end.

Fixpoint rev_string (acc s : string) : string :=
  match s with
  | EmptyString => acc
  | String c t => rev_string (String c acc) t
  end.

Definition reverse (s : string) : string := rev_string "" s.

(** [strings.HasSuffix(s, suffix)] *)
Definition HasSuffix (s suffix : string) : bool :=
  HasPrefix (reverse s) (reverse suffix).

(** Cut [s] around the first occurrence of the byte [sep]. *)
Fixpoint cut (sep : ascii) (s : string) : option (string * string) :=
  match s with
  | EmptyString => None
  | String c t =>
      if Ascii.eqb c sep then Some (EmptyString, t)
      else match cut sep t with
           | Some (a, b) => Some (String c a, b)
           | None => None
           end
  end.

(** [strings.Split(s, sep)] for a one-byte separator. *)
Fixpoint Split (s : string) (sep : ascii) : list string :=
  match s with
  | EmptyString => [EmptyString]
  | String c t =>
      if Ascii.eqb c sep then EmptyString :: Split t sep
      else match Split t sep with
           | piece :: rest => String c piece :: rest
           | [] => [String c EmptyString]
           end
  end.

(** [strings.SplitN(s, sep, n)] for a one-byte separator and [n > 0]:
    at most [n] pieces, the last one holding the unsplit remainder. *)
Fixpoint SplitN (s : string) (sep : ascii) (n : nat) : list string :=
  match n with
  | O => []
  | S O => [s]
  | S n' =>
      match cut sep s with
      | Some (a, b) => a :: SplitN b sep n'
      | None => [s]
      end
  end.

(** [strings.Join(elems, sep)] *)
Definition Join (elems : list string) (sep : string) : string :=
  String.concat sep elems.

Definition mem (c : ascii) (cutset : string) : bool :=
  existsb (Ascii.eqb c) (list_ascii_of_string cutset).

Fixpoint TrimLeft (s cutset : string) : string :=
  match s with
  | EmptyString => EmptyString
  | String c t => if mem c cutset then TrimLeft t cutset else s
  end.

Definition TrimRight (s cutset : string) : string :=
  reverse (TrimLeft (reverse s) cutset).

(** [strings.Trim(s, cutset)] for a cutset of ASCII bytes. *)
Definition Trim (s cutset : string) : string :=
  TrimRight (TrimLeft s cutset) cutset.

(** [strings.ReplaceAll(s, old, new)] for a one-byte [old]. *)
Fixpoint ReplaceAll1 (s : string) (old : ascii) (new : string) : string :=
  match s with
  | EmptyString => EmptyString
  | String c t =>
      if Ascii.eqb c old then new +:+ ReplaceAll1 t old new
      else String c (ReplaceAll1 t old new)
  end.

(** [strconv.Itoa] and the [%d] verb of [fmt.Sprintf]. *)
Definition Itoa (n : Z) : string := NilEmpty.string_of_int (Z.to_int n).

Definition MaxInt64 : Z := 9223372036854775807.
Definition MinInt64 : Z := -9223372036854775808.

Definition digit (c : ascii) : option Z :=
  let n := Z.of_nat (nat_of_ascii c) in
  if (48 <=? n) && (n <=? 57) then Some (n - 48) else None.

Fixpoint digits (acc : Z) (s : string) : option Z :=
  match s with
  | EmptyString => Some acc
  | String c t =>
      match digit c with
      | Some d => digits (10 * acc + d) t
      | None => None
      end
  end.

(** [strconv.ParseInt(s, 10, 64)]: the value and whether [err] is nil.
    A syntax error comes with 0, a range error with the nearest bound. *)
Definition ParseInt (s : string) : Z * bool :=
  let number (sign : Z) (t : string) : Z * bool :=
    match t with
    | EmptyString => (0, false)
    | _ =>
        match digits 0 t with
        | Some v =>
            let v := sign * v in
            if (MinInt64 <=? v) && (v <=? MaxInt64) then (v, true)
            else (Z.max MinInt64 (Z.min MaxInt64 v), false)
        | None => (0, false)
        end
    end in
  match s with
  | EmptyString => (0, false)
  | String c t =>
      if Ascii.eqb c "+"%char then number 1 t
      else if Ascii.eqb c "-"%char then number (-1) t
      else number 1 s
  end.

(** [v, _ := strconv.Atoi(s)], as every caller in the sources writes
    it: the error is dropped. *)
Definition Atoi (s : string) : Z := fst (ParseInt s).

(** The class [\s] of Go's regular expressions: [[\t\n\f\r ]]. *)
Definition re_space (c : ascii) : bool :=
  Ascii.eqb c TAB || Ascii.eqb c LF || Ascii.eqb c FF ||
  Ascii.eqb c CR || Ascii.eqb c SP.

(** [unicode.IsSpace] on the ASCII range. *)
Definition ascii_space (c : ascii) : bool :=
  re_space c || Ascii.eqb c VT.

Definition ascii_lower (c : ascii) : ascii :=
  let n := nat_of_ascii c in
  if (Nat.leb 65 n && Nat.leb n 90)%bool then ascii_of_nat (n + 32) else c.

Definition ascii_upper (c : ascii) : ascii :=
  let n := nat_of_ascii c in
  if (Nat.leb 97 n && Nat.leb n 122)%bool then ascii_of_nat (n - 32) else c.

Fixpoint map_bytes (f : ascii -> ascii) (s : string) : string :=
  match s with
  | EmptyString => EmptyString
  | String c t => String (f c) (map_bytes f t)
  end.

Fixpoint drop_while (p : ascii -> bool) (s : string) : string :=
  match s with
  | EmptyString => EmptyString
  | String c t => if p c then drop_while p t else s
  end.

Fixpoint fields_from (cur : string) (s : string) : list string :=
  let flush (k : list string) :=
    match cur with EmptyString => k | _ => reverse cur :: k end in
  match s with
  | EmptyString => flush []
  | String c t =>
      if ascii_space c then flush (fields_from EmptyString t)
      else fields_from (String c cur) t
  end.

(** *** Runes

    A [rune] is held as the bytes [utf8.AppendRune] and
    [strings.Builder.WriteRune] write for it: its UTF-8 encoding, which
    names it.  A rune that is compared with an ASCII character is that
    character exactly when its encoding is the one byte. *)

Definition rune := string.

Definition byte_value (c : ascii) : Z := Z.of_N (N_of_ascii c).

Definition in_range (lo hi : Z) (c : ascii) : bool :=
  (lo <=? byte_value c) && (byte_value c <=? hi).

(** [utf8.RuneError], U+FFFD: the bytes EF BF BD. *)
Definition RuneError : rune :=
  String "239"%char (String "191"%char (String "189"%char "")).

(** The tables [first] and [acceptRanges] of package [utf8]: the size of
    the sequence that a leading byte of 0x80 or more announces, and the
    range its second byte must lie in.  The bytes 80..C1 and F5..FF lead
    no sequence. *)
Definition sequence (b0 : ascii) : option (nat * Z * Z) :=
  let b := byte_value b0 in
  if (0xC2 <=? b) && (b <=? 0xDF) then Some (2%nat, 0x80, 0xBF)
  else if b =? 0xE0 then Some (3%nat, 0xA0, 0xBF)
  else if (0xE1 <=? b) && (b <=? 0xEC) then Some (3%nat, 0x80, 0xBF)
  else if b =? 0xED then Some (3%nat, 0x80, 0x9F)
  else if (0xEE <=? b) && (b <=? 0xEF) then Some (3%nat, 0x80, 0xBF)
  else if b =? 0xF0 then Some (4%nat, 0x90, 0xBF)
  else if (0xF1 <=? b) && (b <=? 0xF3) then Some (4%nat, 0x80, 0xBF)
  else if b =? 0xF4 then Some (4%nat, 0x80, 0x8F)
  else None.

(** [utf8.DecodeRuneInString]: the first rune of [s] and its width in
    bytes.  An invalid or incomplete sequence gives [RuneError] and the
    width 1; the empty string gives [RuneError] and 0. *)
Definition DecodeRuneInString (s : string) : rune * nat :=
  match s with
  | EmptyString => (RuneError, 0%nat)
  | String b0 t =>
      if byte_value b0 <? 0x80 then (String b0 "", 1%nat)
      else
        match sequence b0, t with
        | Some (size, lo, hi), String b1 t1 =>
            if negb (in_range lo hi b1) then (RuneError, 1%nat)
            else if Nat.leb size 2 then (String b0 (String b1 ""), 2%nat)
            else
              match t1 with
              | String b2 t2 =>
                  if negb (in_range 0x80 0xBF b2) then (RuneError, 1%nat)
                  else if Nat.leb size 3 then
                    (String b0 (String b1 (String b2 "")), 3%nat)
                  else
                    match t2 with
                    | String b3 _ =>
                        if negb (in_range 0x80 0xBF b3)
                        then (RuneError, 1%nat)
                        else (String b0 (String b1 (String b2 (String b3 ""))),
                              4%nat)
                    | EmptyString => (RuneError, 1%nat)
                    end
              | EmptyString => (RuneError, 1%nat)
              end
        | _, _ => (RuneError, 1%nat)
        end
  end.

(** [for _, char := range s]: the runes of [s] in order.  [skip] counts
    the bytes of the rune just decoded that are still to be passed. *)
Fixpoint range_from (skip : nat) (s : string) : list rune :=
  match s with
  | EmptyString => []
  | String _ t =>
      match skip with
      | S k => range_from k t
      | O =>
          let '(char, size) := DecodeRuneInString s in
          char :: range_from (size - 1) t
      end
  end.

Definition runes (s : string) : list rune := range_from 0 s.

(** [utf8.ValidString]: no step of the decoding meets an invalid byte,
    which is what [RuneError] with the width 1 tells. *)
Fixpoint valid_from (skip : nat) (s : string) : bool :=
  match s with
  | EmptyString => true
  | String _ t =>
      match skip with
      | S k => valid_from k t
      | O =>
          let '(char, size) := DecodeRuneInString s in
          negb (String.eqb char RuneError && Nat.eqb size 1) &&
          valid_from (size - 1) t
      end
  end.

Definition ValidString (s : string) : bool := valid_from 0 s.

End Go.

(** ** Functions of the Go library that depend on Unicode tables

    [strings.ToLower], [strings.ToUpper], [strings.TrimSpace] and
    [strings.Fields] consult Unicode tables, [mail.ParseAddressList] is
    the RFC 5322 address parser of package [net/mail], and
    [time.Time.Format] (an instant is kept as its Unix seconds) prints
    calendar dates.  None of them is code of this repository: the
    embedding takes them as an interface, and every general theorem holds
    whatever they compute.

    [AsciiRuntime] is an instance used where a definition is evaluated on
    a concrete input.  Its string functions agree with the library on
    ASCII text; its address parser accepts one bare [local@domain]
    address; it prints an instant as its number of seconds. *)

Record Address := mkAddress {
  addr_Name : string;
  addr_Address : string
}.

Class GoRuntime := {
  ToLower : string -> string;
  ToUpper : string -> string;
  TrimSpace : string -> string;
  Fields : string -> list string;
  ParseAddressList : string -> option (list Address);
  TimeFormat : Z -> string -> string
}.

Definition AsciiRuntime : GoRuntime := {|
  ToLower := Go.map_bytes Go.ascii_lower;
  ToUpper := Go.map_bytes Go.ascii_upper;
  TrimSpace := fun s =>
    Go.reverse (Go.drop_while Go.ascii_space
                  (Go.reverse (Go.drop_while Go.ascii_space s)));
  Fields := Go.fields_from EmptyString;
  (* one bare [local@domain] address, no display name *)
  ParseAddressList := fun s =>
    match Go.Split s "@"%char with
    | [l; d] =>
        if (negb (String.eqb l "") && negb (String.eqb d "") &&
            negb (Go.Contains s " ") && negb (Go.Contains s ","))%bool
        then Some [mkAddress "" s] else None
    | _ => None
    end;
  (* the Unix seconds of the instant, whatever the layout *)
  TimeFormat := fun t _ => Go.Itoa t
|}.

(** ** Outcomes of Go code

    A Go function either returns, or panics at run time (nil dereference,
    failed type assertion, index out of range).  [OutOfFuel] belongs to the
    embedding only: it is the answer of a loop whose iteration bound was
    chosen too small, and the theorems show the bounds used are enough. *)

Inductive Result (A : Type) : Type :=
| Done (a : A)
| Panic
| OutOfFuel.

Arguments Done {A} a.
Arguments Panic {A}.
Arguments OutOfFuel {A}.

Global Instance Result_bind : MBind Result := fun A B k r =>
  match r with
  | Done a => k a
  | Panic => Panic
  | OutOfFuel => OutOfFuel
  end.

(** ** indexer/parser.go: the MIME parser *)

Module Indexer.

(** [ValueParams]: a header value with parameters.  [Params] is a Go
    [map[string]string]: lookups and stores by key, no order. *)
Record ValueParams := mkValueParams {
  Value : string;
  Type_ : string;
  Subtype : string;
  Params : gmap string string;
  HasParams : bool
}.

(** The dynamic types stored in [ParsedHeader map[string]interface{}]:
    [string], [[]string], [*ValueParams] and [[]*Address]. *)
Inductive HeaderValue :=
| HString (s : string)
| HList (l : list string)
| HValueParams (vp : ValueParams)
| HAddresses (l : list Address).

(** [MIMENode].  The parent pointer [parentNode] is kept by the parser
    (see [MIMEParser]); a nil and an empty [ChildNodes] are both []. *)
#[local] Unset Elimination Schemes.
Inductive MIMENode := mkMIMENode {
  RootNode : bool;
  ChildNodes : list MIMENode;
  Header : list string;
  ParsedHeader : gmap string HeaderValue;
  Body : string;
  Multipart : string;
  Boundary : string;
  ParentBoundary : string;
  LineCount : Z;
  Size : Z;
  Message : option MIMENode;
  state : string
}.
#[local] Set Elimination Schemes.

Definition set_ChildNodes (n : MIMENode) (v : list MIMENode) : MIMENode :=
  mkMIMENode (RootNode n) v (Header n) (ParsedHeader n) (Body n)
    (Multipart n) (Boundary n) (ParentBoundary n) (LineCount n) (Size n)
    (Message n) (state n).
Definition set_Header (n : MIMENode) (v : list string) : MIMENode :=
  mkMIMENode (RootNode n) (ChildNodes n) v (ParsedHeader n) (Body n)
    (Multipart n) (Boundary n) (ParentBoundary n) (LineCount n) (Size n)
    (Message n) (state n).
Definition set_ParsedHeader (n : MIMENode) (v : gmap string HeaderValue)
  : MIMENode :=
  mkMIMENode (RootNode n) (ChildNodes n) (Header n) v (Body n)
    (Multipart n) (Boundary n) (ParentBoundary n) (LineCount n) (Size n)
    (Message n) (state n).
Definition set_Body (n : MIMENode) (v : string) : MIMENode :=
  mkMIMENode (RootNode n) (ChildNodes n) (Header n) (ParsedHeader n) v
    (Multipart n) (Boundary n) (ParentBoundary n) (LineCount n) (Size n)
    (Message n) (state n).
Definition set_multipart (n : MIMENode) (sub bnd : string) : MIMENode :=
  mkMIMENode (RootNode n) (ChildNodes n) (Header n) (ParsedHeader n)
    (Body n) sub bnd (ParentBoundary n) (LineCount n) (Size n)
    (Message n) (state n).
Definition set_counts (n : MIMENode) (lines size : Z) : MIMENode :=
  mkMIMENode (RootNode n) (ChildNodes n) (Header n) (ParsedHeader n)
    (Body n) (Multipart n) (Boundary n) (ParentBoundary n) lines size
    (Message n) (state n).
Definition set_Message (n : MIMENode) (v : option MIMENode) : MIMENode :=
  mkMIMENode (RootNode n) (ChildNodes n) (Header n) (ParsedHeader n)
    (Body n) (Multipart n) (Boundary n) (ParentBoundary n) (LineCount n)
    (Size n) v (state n).
Definition set_state (n : MIMENode) (v : string) : MIMENode :=
  mkMIMENode (RootNode n) (ChildNodes n) (Header n) (ParsedHeader n)
    (Body n) (Multipart n) (Boundary n) (ParentBoundary n) (LineCount n)
    (Size n) (Message n) v.

(** [MIMEParser].  [rest] is the unread input [rfc822[pos:]].

    The Go parser mutates the tree in place through [p.node] and climbs
    with [parentNode].  The embedding keeps the open path explicitly:
    [node] is the node under construction and [parents] the chain of its
    [parentNode] pointers, nearest first and ending with [p.tree].  A
    parent in the chain lists the children that were closed so far; the
    node below it on the path is its last child and is put back by
    [attach] when the parser leaves it. *)
Record MIMEParser := mkMIMEParser {
  rest : string;
  br : string;
  rawBody : string;
  node : MIMENode;
  parents : list MIMENode
}.

Definition set_node (p : MIMEParser) (n : MIMENode) : MIMEParser :=
  mkMIMEParser (rest p) (br p) (rawBody p) n (parents p).
Definition set_rawBody (p : MIMEParser) (v : string) : MIMEParser :=
  mkMIMEParser (rest p) (br p) v (node p) (parents p).

Definition attach (child parent : MIMENode) : MIMENode :=
  set_ChildNodes parent (ChildNodes parent ++ [child]).

(** The node [createNode] allocates; appending it to
    [parentNode.ChildNodes] is [attach]. *)
Definition createNode (parentNode : MIMENode) : MIMENode :=
  {| RootNode := false; ChildNodes := []; Header := [];
     ParsedHeader := ∅; Body := ""; Multipart := ""; Boundary := "";
     ParentBoundary := Boundary parentNode; LineCount := 0; Size := 0;
     Message := None; state := "header" |}.

Definition NewMIMEParser (rfc822 : string) : MIMEParser :=
  let tree :=
    {| RootNode := true; ChildNodes := []; Header := [];
       ParsedHeader := ∅; Body := ""; Multipart := ""; Boundary := "";
       ParentBoundary := ""; LineCount := 0; Size := 0;
       Message := None; state := "" |} in
  {| rest := rfc822; br := ""; rawBody := "";
     node := createNode tree; parents := [tree] |}.

(** The leftmost match of [(.*?)(\r?\n|$)]: the line, its break and the
    input after the match. *)
Fixpoint match_line (s : string) : string * string * string :=
  match s with
  | EmptyString => ("", "", "")
  | String c t =>
      if Ascii.eqb c Go.LF then ("", String Go.LF "", t)
      else
        match (if Ascii.eqb c Go.CR then
                 match t with
                 | String c' t' =>
                     if Ascii.eqb c' Go.LF then Some t' else None
                 | EmptyString => None
                 end
               else None) with
        | Some t' => ("", Go.CRLF, t')
        | None =>
            let '(line, brk, r) := match_line t in (String c line, brk, r)
        end
  end.

Definition readLine (p : MIMEParser) : string * MIMEParser :=
  if String.eqb (rest p) "" then
    ("", mkMIMEParser (rest p) "" (rawBody p) (node p) (parents p))
  else
    let '(line, brk, r) := match_line (rest p) in
    let brk' :=
      if (String.eqb brk "" && negb (String.eqb r ""))%bool
      then String Go.LF "" else brk in
    (line, mkMIMEParser r brk' (rawBody p) (node p) (parents p)).

(** [^\s] *)
Definition starts_with_space (s : string) : bool :=
  match s with
  | String c _ => Go.re_space c
  | EmptyString => false
  end.

(** [^[a-zA-Z0-9\-\*]] together with [len(key) < 100] *)
Definition key_char (c : ascii) : bool :=
  let n := nat_of_ascii c in
  ((Nat.leb 97 n && Nat.leb n 122) || (Nat.leb 65 n && Nat.leb n 90) ||
   (Nat.leb 48 n && Nat.leb n 57) || Ascii.eqb c "-" || Ascii.eqb c "*")%bool.

Definition valid_key (key : string) : bool :=
  (match key with String c _ => key_char c | EmptyString => false end
   && (Go.len key <? 100))%bool.

(** [regexp.MustCompile(`\s*\r?\n\s*`).ReplaceAllString(value, " ")]:
    a match is a maximal run of [\s] bytes that holds a line feed. *)
Fixpoint clean_folds (run : string) (nl : bool) (s : string) : string :=
  let flush := if nl then " " else Go.reverse run in
  match s with
  | EmptyString => flush
  | String c t =>
      if Go.re_space c
      then clean_folds (String c run) (nl || Ascii.eqb c Go.LF) t
      else flush +:+ String c (clean_folds "" false t)
  end.

Definition clean_value (value : string) : string :=
  clean_folds "" false value.

Section WithRuntime.
Context {RT : GoRuntime}.

(** [parseValueParams] *)
Definition parseParam (data : ValueParams) (part : string) : ValueParams :=
  let part := TrimSpace part in
  match Go.SplitN part "=" 2 with
  | [k; v] =>
      let key := ToLower (TrimSpace k) in
      let value := Go.Trim (TrimSpace v) (String Go.DQ "'") in
      if valid_key key
      then mkValueParams (Value data) (Type_ data) (Subtype data)
             (<[key := value]> (Params data)) true
      else data
  | _ => data
  end.

Definition parseValueParams (headerValue : string) : ValueParams :=
  match Go.Split headerValue ";" with
  | [] => mkValueParams "" "" "" ∅ false
  | first :: others =>
      let part := TrimSpace first in
      let typeParts := Go.Split part "/" in
      let data :=
        match typeParts with
        | t0 :: (_ :: _) as subs =>
            mkValueParams part (ToLower t0) (Go.Join subs "/") ∅ false
        | _ => mkValueParams part (ToLower part) "" ∅ false
        end in
      fold_left parseParam others data
  end.

(** [parseAddresses] *)
Definition parseAddresses (value : string) : list Address :=
  match ParseAddressList value with
  | Some addrs =>
      map (fun a => mkAddress (addr_Name a) (addr_Address a)) addrs
  | None => []
  end.

(** One header line of the first loop of [processNodeHeader]: split on
    the first colon, validate the key, clean the value, and store it,
    putting the value before those already stored under the key. *)
Definition header_entry (line : string) : option (string * string) :=
  match Go.SplitN line ":" 2 with
  | [k; v] =>
      let key := ToLower (TrimSpace k) in
      let value := TrimSpace v in
      if valid_key key then Some (key, clean_value value) else None
  | _ => None
  end.

Definition store_header (ph : gmap string HeaderValue) (line : string)
  : Result (gmap string HeaderValue) :=
  match header_entry line with
  | Some (key, value) =>
      match ph !! key with
      | Some (HList arr) => Done (<[key := HList (value :: arr)]> ph)
      | Some (HString existing) =>
          Done (<[key := HList [value; existing]]> ph)
      | Some _ => Panic
      | None => Done (<[key := HString value]> ph)
      end
  | None => Done ph
  end.

(** The first loop, [for i := len(Header) - 1; i >= 0; i--], entered
    with [n = len(Header)]; [S i] is the number of indices left. *)
Fixpoint fold_headers (n : nat) (hdr : list string)
    (ph : gmap string HeaderValue)
  : Result (list string * gmap string HeaderValue) :=
  match n with
  | O => Done (hdr, ph)
  | S i =>
      match hdr !! i with
      | None => Panic
      | Some h =>
          if (Nat.ltb 0 i && starts_with_space h)%bool then
            match hdr !! (i - 1)%nat with
            | None => Panic
            | Some prev =>
                fold_headers i
                  (delete i (<[(i - 1)%nat := prev +:+ Go.CRLF +:+ h]> hdr))
                  ph
            end
          else
            ph' ← store_header ph h;
            fold_headers i hdr ph'
      end
  end.

Definition last_value (arr : list string) : Result string :=
  match last arr with
  | Some v => Done v
  | None => Panic
  end.

(** "Parse content-type and content-disposition" *)
Definition parse_structured (key : string) (ph : gmap string HeaderValue)
  : Result (gmap string HeaderValue) :=
  match ph !! key with
  | Some (HList arr) =>
      v ← last_value arr;
      Done (<[key := HValueParams (parseValueParams v)]> ph)
  | Some (HString v) =>
      Done (<[key := HValueParams (parseValueParams v)]> ph)
  | Some _ => Panic
  | None => Done ph
  end.

(** "Ensure single values for specific fields" *)
Definition singleValueFields : list string :=
  ["content-transfer-encoding"; "content-id"; "content-description";
   "content-language"; "content-md5"; "content-location"].

Definition single_value (key : string) (ph : gmap string HeaderValue)
  : Result (gmap string HeaderValue) :=
  match ph !! key with
  | Some (HList arr) =>
      v ← last_value arr; Done (<[key := HString v]> ph)
  | _ => Done ph
  end.

(** "Parse address fields" *)
Definition addressFields : list string :=
  ["from"; "sender"; "reply-to"; "to"; "cc"; "bcc"].

Definition address_values (values : list string) : list Address :=
  flat_map (fun value =>
              if String.eqb value "" then [] else parseAddresses value)
           values.

Definition parse_address_field (key : string)
    (ph : gmap string HeaderValue) : Result (gmap string HeaderValue) :=
  match ph !! key with
  | Some hv =>
      values ← match hv with
                | HList arr => Done arr
                | HString v => Done [v]
                | _ => Panic
                end;
      match address_values values with
      | [] => Done ph
      | addresses => Done (<[key := HAddresses addresses]> ph)
      end
  | None => Done ph
  end.

Fixpoint for_keys
    (f : string -> gmap string HeaderValue -> Result (gmap string HeaderValue))
    (keys : list string) (ph : gmap string HeaderValue)
  : Result (gmap string HeaderValue) :=
  match keys with
  | [] => Done ph
  | key :: keys' => ph' ← f key ph; for_keys f keys' ph'
  end.

(** [processNodeHeader] on the current node. *)
Definition processNodeHeader (n : MIMENode) : Result MIMENode :=
  '(hdr, ph) ← fold_headers (length (Header n)) (Header n) (ParsedHeader n);
  let ph :=
    match ph !! "content-type" with
    | Some _ => ph
    | None => <["content-type" := HString "text/plain"]> ph
    end in
  ph ← for_keys parse_structured ["content-type"; "content-disposition"] ph;
  ph ← for_keys single_value singleValueFields ph;
  ph ← for_keys parse_address_field addressFields ph;
  Done (set_ParsedHeader (set_Header n hdr) ph).

(** [processContentType] *)
Definition processContentType (n : MIMENode) : MIMENode :=
  match ParsedHeader n !! "content-type" with
  | Some (HValueParams ct) =>
      if String.eqb (Type_ ct) "multipart" then
        match Params ct !! "boundary" with
        | Some boundary => set_multipart n (Subtype ct) boundary
        | None => n
        end
      else n
  | _ => n
  end.

(** The tree rooted at [p.tree]: every open node put back under its
    parent. *)
Fixpoint plug (n : MIMENode) (up : list MIMENode) : MIMENode :=
  match up with
  | [] => n
  | parent :: up' => plug (attach n parent) up'
  end.

Definition tree (p : MIMEParser) : MIMENode := plug (node p) (parents p).

(** [GetResult]: [p.tree.ChildNodes[0]], or nil without children. *)
Definition GetResult (p : MIMEParser) : option MIMENode :=
  head (ChildNodes (tree p)).

Section Loop.
(** [NewMIMEParser(body)], [Parse()] and [GetResult()] on the body
    of an embedded message; the error of [Parse] is dropped there. *)
Variable subParse : string -> Result (option MIMENode).

Definition embedded_message (n : MIMENode) : Result MIMENode :=
  match ParsedHeader n !! "content-type" with
  | Some (HValueParams contentType) =>
      if String.eqb (Value contentType) "message/rfc822" then
        if 0 <? Go.len (Body n) then
          m ← subParse (Body n); Done (set_Message n m)
        else Done n
      else Done n
  | _ => Done n
  end.

(** The [switch p.node.state] of one iteration of [Parse], on the
    line just read.  The second component is the returned error. *)
Definition step (prevBr line : string) (p : MIMEParser)
  : Result (MIMEParser * option string) :=
  let n := node p in
  if String.eqb (state n) "header" then
    let p :=
      if negb (String.eqb (rawBody p) "")
      then set_rawBody p (rawBody p +:+ prevBr +:+ line) else p in
    if String.eqb line "" then
      n' ← processNodeHeader n;
      Done (set_node p (set_state (processContentType n') "body"), None)
    else Done (set_node p (set_Header n (Header n ++ [line])), None)
  else if String.eqb (state n) "body" then
    let p := set_rawBody p (rawBody p +:+ prevBr +:+ line) in
    let pb := ParentBoundary n in
    if (negb (String.eqb pb "") &&
        (String.eqb line ("--" +:+ pb) ||
         String.eqb line ("--" +:+ pb +:+ "--")))%bool then
      n' ← embedded_message n;
      match parents p with
      | [] => Panic
      | parent :: up =>
          let parent' := attach n' parent in
          if String.eqb line ("--" +:+ pb) then
            Done (mkMIMEParser (rest p) (br p) (rawBody p)
                    (createNode parent') (parent' :: up), None)
          else
            Done (mkMIMEParser (rest p) (br p) (rawBody p)
                    parent' up, None)
      end
    else if (negb (String.eqb (Boundary n) "") &&
             String.eqb line ("--" +:+ Boundary n))%bool then
      Done (mkMIMEParser (rest p) (br p) (rawBody p)
              (createNode n) (n :: parents p), None)
    else
      let body :=
        if 0 <? Go.len (Body n) then Body n +:+ prevBr +:+ line
        else line in
      Done (set_node p (set_Body n body), None)
  else Done (p, Some ("unexpected state: " +:+ state n)).

(** [for p.br != "" || p.pos < len(p.rfc822) { ... }] *)
Fixpoint parse_loop (fuel : nat) (prevBr : string) (p : MIMEParser)
  : Result (MIMEParser * option string) :=
  if (negb (String.eqb (br p) "") || negb (String.eqb (rest p) ""))%bool
  then
    match fuel with
    | O => OutOfFuel
    | S fuel' =>
        let '(line, p1) := readLine p in
        '(p2, err) ← step prevBr line p1;
        match err with
        | Some e => Done (p2, Some e)
        | None =>
            if String.eqb (br p2) "" then Done (p2, None)
            else parse_loop fuel' (br p2) p2
        end
    end
  else Done (p, None).
End Loop.

(** [Parse], with [depth] bounding the nesting of embedded messages.
    Every iteration but the last consumes a byte of the input, so the
    loop is entered at most [len(rfc822) + 1] times. *)
Fixpoint Parse_depth (depth : nat) (p : MIMEParser)
  : Result (MIMEParser * option string) :=
  match depth with
  | O => OutOfFuel
  | S d =>
      parse_loop
        (fun body =>
           '(q, _) ← Parse_depth d (NewMIMEParser body); Done (GetResult q))
        (S (String.length (rest p))) "" p
  end.

(** An embedded message is shorter than the message that holds it. *)
Definition Parse (p : MIMEParser) : Result (MIMEParser * option string) :=
  Parse_depth (S (String.length (rest p))) p.

(** [regexp.MustCompile(`\r?\n`).ReplaceAllString(bodyStr, "\r\n")] *)
Fixpoint crlf_endings (s : string) : string :=
  match s with
  | EmptyString => EmptyString
  | String c t =>
      if Ascii.eqb c Go.LF then Go.CRLF +:+ crlf_endings t
      else if (Ascii.eqb c Go.CR &&
               match t with
               | String c' _ => Ascii.eqb c' Go.LF
               | EmptyString => false
               end)%bool
      then crlf_endings t
      else String c (crlf_endings t)
  end.

(** [strings.Count(s, "\n")] *)
Fixpoint count_lf (s : string) : Z :=
  match s with
  | EmptyString => 0
  | String c t => (if Ascii.eqb c Go.LF then 1 else 0) + count_lf t
  end.

(** [finalizeNode] *)
Fixpoint finalizeNode (n : MIMENode) : MIMENode :=
  let n1 :=
    if 0 <? Go.len (Body n) then
      let body := crlf_endings (Body n) in
      set_counts (set_Body n body) (count_lf (Body n) + 1) (Go.len body)
    else n in
  set_ChildNodes n1 (map finalizeNode (ChildNodes n)).

(** [ParseMIME]: the tree and the error. *)
Definition ParseMIME (rfc822 : string)
  : Result (option MIMENode * option string) :=
  '(p, err) ← Parse (NewMIMEParser rfc822);
  match err with
  | Some e => Done (None, Some e)
  | None => Done (head (ChildNodes (finalizeNode (tree p))), None)
  end.

End WithRuntime.

End Indexer.

(** ** indexer/parser.go: the BODYSTRUCTURE builder *)

Module BodyStructure.

Record BodyStructureOptions := mkOptions {
  ContentLanguageString : bool;
  UpperCaseKeys : bool;
  SkipContentLocation : bool;
  Body : bool;
  AttachmentRFC822 : bool
}.

(** The dynamic values the builder puts in an [interface{}]: nil,
    [string], [int], [[]interface{}], and header values stored as they
    are ([[]string], [*ValueParams], [[]*Address]). *)
#[local] Unset Elimination Schemes.
Inductive Value :=
| VNil
| VString (s : string)
| VInt (n : Z)
| VList (l : list Value)
| VStrings (l : list string)
| VValueParams (vp : Indexer.ValueParams)
| VAddresses (l : list Address).
#[local] Set Elimination Schemes.

(** [v, exists := node.ParsedHeader[key]] stored in an [interface{}]. *)
Definition of_header (hv : option Indexer.HeaderValue) : Value :=
  match hv with
  | None => VNil
  | Some (Indexer.HString s) => VString s
  | Some (Indexer.HList l) => VStrings l
  | Some (Indexer.HValueParams vp) => VValueParams vp
  | Some (Indexer.HAddresses l) => VAddresses l
  end.

(** [strings.ReplaceAll(s, ",,", ",")] *)
Fixpoint squeeze_commas (s : string) : string :=
  match s with
  | EmptyString => EmptyString
  | String c t =>
      match t with
      | String c' t' =>
          if (Ascii.eqb c "," && Ascii.eqb c' ",")%bool
          then String "," (squeeze_commas t')
          else String c (squeeze_commas t)
      | EmptyString => s
      end
  end.

Section Builder.
Context {RT : GoRuntime}.

(** The order in which [for key, value := range m] visits the entries
    of a Go map.  The language leaves it unspecified and the runtime
    randomises it: a run is described by the enumeration it happens to
    use, and any enumeration of the entries is possible. *)
Variable range_order : gmap string string -> list (string * string).

Definition getContentType (node : Indexer.MIMENode) : Indexer.ValueParams :=
  match Indexer.ParsedHeader node !! "content-type" with
  | Some (Indexer.HValueParams ct) => ct
  | _ => Indexer.mkValueParams "text/plain" "text" "plain" ∅ false
  end.

Definition upper (options : BodyStructureOptions) (s : string) : string :=
  if UpperCaseKeys options then ToUpper s else s.

(** "Build parameter list": the loop over [Params] that
    [getBasicFields], [getExtensionFields] and [processMultipartNode]
    each contain. *)
Definition param_list (options : BodyStructureOptions)
    (vp : Indexer.ValueParams) : Value :=
  if (Indexer.HasParams vp && (0 <? Z.of_nat (size (Indexer.Params vp))))%bool
  then
    VList (flat_map (fun kv : string * string =>
                       [VString (upper options (fst kv)); VString (snd kv)])
                    (range_order (Indexer.Params vp)))
  else VNil.

(** [getBasicFields] *)
Definition getBasicFields (node : Indexer.MIMENode)
    (options : BodyStructureOptions) : list Value :=
  let contentType := getContentType node in
  let bodyType :=
    if String.eqb (Indexer.Type_ contentType) "" then "text"
    else Indexer.Type_ contentType in
  let bodySubtype :=
    if String.eqb (Indexer.Subtype contentType) "" then "plain"
    else Indexer.Subtype contentType in
  let contentTransfer :=
    match Indexer.ParsedHeader node !! "content-transfer-encoding" with
    | Some (Indexer.HString cteStr) => cteStr
    | _ => "7bit"
    end in
  [ VString (upper options bodyType);
    VString (upper options bodySubtype);
    param_list options contentType;
    of_header (Indexer.ParsedHeader node !! "content-id");
    of_header (Indexer.ParsedHeader node !! "content-description");
    VString (upper options contentTransfer);
    VInt (Indexer.Size node) ].

(** [getExtensionFields] *)
Definition getExtensionFields (node : Indexer.MIMENode)
    (options : BodyStructureOptions) : list Value :=
  let contentMD5 := of_header (Indexer.ParsedHeader node !! "content-md5") in
  let disposition :=
    match Indexer.ParsedHeader node !! "content-disposition" with
    | Some (Indexer.HValueParams dispParams) =>
        VList [VString (upper options (Indexer.Value dispParams));
               param_list options dispParams]
    | _ => VNil
    end in
  let language :=
    match Indexer.ParsedHeader node !! "content-language" with
    | Some (Indexer.HString langStr) =>
        let langStr := Go.ReplaceAll1 langStr " " "," in
        let langStr := squeeze_commas langStr in
        let langStr := Go.Trim langStr "," in
        if String.eqb langStr "" then VNil
        else
          match Go.Split langStr "," with
          | [one] =>
              if ContentLanguageString options then VString one
              else VStrings [one]
          | langList => VStrings langList
          end
    | _ => VNil
    end in
  [contentMD5; disposition; language] ++
  (if SkipContentLocation options then []
   else [of_header (Indexer.ParsedHeader node !! "content-location")]).

(** [formatAddresses] *)
Definition formatAddresses (addrs : option Indexer.HeaderValue) : Value :=
  match addrs with
  | Some (Indexer.HAddresses ((_ :: _) as addresses)) =>
      VList (map (fun addr =>
                    match Go.Split (addr_Address addr) "@" with
                    | [mailbox; host] =>
                        VList [VString (addr_Name addr); VNil;
                               VString mailbox; VString host]
                    | _ =>
                        VList [VString (addr_Name addr); VNil;
                               VString (addr_Address addr); VString ""]
                    end) addresses)
  | _ => VNil
  end.

(** [createEnvelope] *)
Definition createEnvelope (node : option Indexer.MIMENode) : Value :=
  match node with
  | None => VList (replicate 10 VNil)
  | Some node =>
      let h := Indexer.ParsedHeader node in
      VList [ of_header (h !! "date");
              of_header (h !! "subject");
              formatAddresses (h !! "from");
              formatAddresses (h !! "sender");
              formatAddresses (h !! "reply-to");
              formatAddresses (h !! "to");
              formatAddresses (h !! "cc");
              formatAddresses (h !! "bcc");
              of_header (h !! "in-reply-to");
              of_header (h !! "message-id") ]
  end.

(** [processMultipartNode], given the structures of the children. *)
Definition processMultipartNode (children : list Value)
    (node : Indexer.MIMENode) (options : BodyStructureOptions) : Value :=
  let result :=
    match children with
    | [] => [VList []]
    | _ => children
    end in
  let subtype :=
    if String.eqb (Indexer.Multipart node) "" then "mixed"
    else Indexer.Multipart node in
  let result := result ++ [VString (upper options subtype)] in
  let result := result ++ [param_list options (getContentType node)] in
  VList (if Body options then result
         else result ++ tail (getExtensionFields node options)).

(** [processTextNode] *)
Definition processTextNode (node : Indexer.MIMENode)
    (options : BodyStructureOptions) : Value :=
  let result := getBasicFields node options ++ [VInt (Indexer.LineCount node)] in
  VList (if Body options then result
         else result ++ getExtensionFields node options).

(** [processAttachmentNode] *)
Definition processAttachmentNode (node : Indexer.MIMENode)
    (options : BodyStructureOptions) : Value :=
  let result := getBasicFields node options in
  VList (if Body options then result
         else result ++ getExtensionFields node options).

(** [processRFC822Node], given the structure of the embedded message. *)
Definition processRFC822Node (embedded : option Value)
    (node : Indexer.MIMENode) (options : BodyStructureOptions) : Value :=
  let result := getBasicFields node options in
  let result := result ++ [createEnvelope (Indexer.Message node)] in
  let result :=
    result ++ [match embedded with
               | Some embeddedStructure => embeddedStructure
               | None => VList []
               end] in
  let result := result ++ [VInt (Indexer.LineCount node)] in
  VList (if Body options then result
         else result ++ getExtensionFields node options).

(** [createBodyStructure] on a node that is not nil. *)
Fixpoint createBodyStructure_node (options : BodyStructureOptions)
    (node : Indexer.MIMENode) : Value :=
  let contentType := getContentType node in
  if String.eqb (Indexer.Type_ contentType) "multipart" then
    processMultipartNode
      (map (createBodyStructure_node options) (Indexer.ChildNodes node))
      node options
  else if String.eqb (Indexer.Type_ contentType) "text" then
    processTextNode node options
  else if (String.eqb (Indexer.Type_ contentType) "message" &&
           String.eqb (Indexer.Subtype contentType) "rfc822" &&
           negb (AttachmentRFC822 options))%bool then
    processRFC822Node
      (option_map (createBodyStructure_node options) (Indexer.Message node))
      node options
  else processAttachmentNode node options.

Definition createBodyStructure (node : option Indexer.MIMENode)
    (options : BodyStructureOptions) : Value :=
  match node with
  | None => VList []
  | Some node => createBodyStructure_node options node
  end.

(** [CreateBodyStructure]; a nil [options] is the zero value. *)
Definition CreateBodyStructure (tree : option Indexer.MIMENode)
    (options : option BodyStructureOptions) : Value :=
  createBodyStructure tree
    (default (mkOptions false false false false false) options).

End Builder.

(** [serializeValue].  The [default] case prints with [%v]: a [[]string]
    as its elements between brackets; the print of the two pointer
    types holds memory addresses and has no value here. *)
Fixpoint serializeValue (value : Value) : option string :=
  match value with
  | VNil => Some "NIL"
  | VString v =>
      Some (Go.quoted (Go.ReplaceAll1 v Go.DQ (String Go.BACKSLASH Go.dquote)))
  | VInt v => Some (Go.Itoa v)
  | VList [] => Some "NIL"
  | VList v =>
      parts ← mapM serializeValue v;
      Some ("(" +:+ Go.Join parts " " +:+ ")")
  | VStrings v => Some (Go.quoted ("[" +:+ Go.Join v " " +:+ "]"))
  | VValueParams _ => None
  | VAddresses _ => None
  end.

Definition SerializeBodyStructure (structure : Value) : option string :=
  serializeValue structure.

End BodyStructure.

(** ** imap_core: the IMAP session and its command handlers *)

Module Imap.

(** [primitive.ObjectID] *)
Definition ObjectID := Z.

Inductive SessionState :=
| StateNotAuthenticated
| StateAuthenticated
| StateSelected
| StateLogout.

Definition SessionState_eqb (a b : SessionState) : bool :=
  match a, b with
  | StateNotAuthenticated, StateNotAuthenticated
  | StateAuthenticated, StateAuthenticated
  | StateSelected, StateSelected
  | StateLogout, StateLogout => true
  | _, _ => false
  end.

(** [types.go]; the fields no modelled handler reads are left out. *)
Record User := mkUser {
  User_ID : ObjectID;
  Username : string;
  Quota : Z;
  Used : Z
}.

Record Mailbox := mkMailbox {
  Mailbox_ID : ObjectID;
  Mailbox_User : ObjectID;
  Path : string;
  SpecialUse : string;
  UIDValidity : Z;
  UIDNext : Z;
  Mailbox_Flags : list string;
  UIDList : list Z
}.

Record Message := mkMessage {
  ID : ObjectID;
  Message_Mailbox : ObjectID;
  UID : Z;
  MessageID : string;
  From : string;
  To : list string;
  CC : list string;
  Subject : string;
  Date : Z;
  Size : Z;
  BodyText : string;
  BodyHTML : string;
  InReplyTo : string;
  Seen : bool;
  Answered : bool;
  Flagged : bool;
  Deleted : bool;
  Draft : bool;
  Recent : bool
}.

(** The fields of [Session] the handlers use; the connection is the
    list of the lines written to it (see [World]). *)
Record Session := mkSession {
  authenticated : bool;
  user : option User;
  selectedBox : option Mailbox;
  state : SessionState
}.

(** The two collections of the database the handlers touch. *)
Record Database := mkDatabase {
  messages : list Message;
  mailboxes : list Mailbox
}.

(** What a handler acts on besides its session: the database and the
    bytes written to the client, oldest line first.  A failing write
    ends the session in the source; writes succeed here. *)
Record World := mkWorld {
  db : Database;
  out : list string
}.

(** The database calls of the handlers.  Each may fail: [fails] tells,
    for one run of a handler, which calls return an error. *)
Inductive DbCall :=
| FindMessages
| DeleteManyMessages
| UpdateManyMessages
| UpdateOneMessage (id : ObjectID)
| InsertOneMessage
| FindOneMailbox
| UpdateOneMailbox (id : ObjectID).

(** The [bson.M] filters the handlers build on the messages collection:
    a mailbox, and optionally a condition on [uid] or on [deleted]. *)
Inductive UidCond :=
| UidAny
| UidEq (uid : Z)
| UidGte (start : Z)
| UidRange (start endNum : Z)
| UidIn (uids : list Z).

Record Filter := mkFilter {
  f_mailbox : ObjectID;
  f_uid : UidCond;
  f_deleted : bool       (* true: only documents with deleted = true *)
}.

Definition uid_matches (c : UidCond) (uid : Z) : bool :=
  match c with
  | UidAny => true
  | UidEq u => uid =? u
  | UidGte a => a <=? uid
  | UidRange a b => (a <=? uid) && (uid <=? b)
  | UidIn l => existsb (Z.eqb uid) l
  end.

Definition matches (f : Filter) (m : Message) : bool :=
  (Message_Mailbox m =? f_mailbox f) && uid_matches (f_uid f) (UID m) &&
  (if f_deleted f then Deleted m else true).

(** [Find(ctx, filter)]: the matching documents in the order of the
    collection; the cursor is the list of what matched when it was
    opened. *)
Definition find (f : Filter) (d : Database) : list Message :=
  filter (fun m => matches f m = true) (messages d).

Definition uid_le (a b : Message) : Prop := UID a <= UID b.

Global Instance uid_le_dec (a b : Message) : Decision (uid_le a b) :=
  Z_le_dec (UID a) (UID b).

(** [Find(ctx, filter, options.Find().SetSort(bson.M{"uid": 1}))] *)
Definition find_sorted (f : Filter) (d : Database) : list Message :=
  merge_sort uid_le (find f d).

(** [DeleteMany(ctx, filter)] *)
Definition deleteMany (f : Filter) (d : Database) : Database :=
  mkDatabase (filter (fun m => matches f m = false) (messages d)) (mailboxes d).

(** [FindOne(ctx, bson.M{"user": user, "path": path})] on mailboxes *)
Definition findMailbox (userID : ObjectID) (path : string) (d : Database)
  : option Mailbox :=
  head (filter (fun b => (Mailbox_User b =? userID) && String.eqb (Path b) path = true)
               (mailboxes d)).

Fixpoint update_first {A : Type} (p : A -> bool) (f : A -> A) (l : list A)
  : list A :=
  match l with
  | [] => []
  | x :: t => if p x then f x :: t else x :: update_first p f t
  end.

(** [UpdateOne(ctx, bson.M{"_id": id}, update)] on messages *)
Definition updateOneMessage (id : ObjectID) (f : Message -> Message)
    (d : Database) : Database :=
  mkDatabase (update_first (fun m => ID m =? id) f (messages d)) (mailboxes d).

(** [UpdateOne(ctx, bson.M{"_id": id}, bson.M{"$inc": {"uidNext": 1}})] *)
Definition incUidNext (id : ObjectID) (d : Database) : Database :=
  mkDatabase (messages d)
    (update_first (fun b => Mailbox_ID b =? id)
       (fun b => mkMailbox (Mailbox_ID b) (Mailbox_User b) (Path b)
                   (SpecialUse b) (UIDValidity b) (UIDNext b + 1)
                   (Mailbox_Flags b) (UIDList b))
       (mailboxes d)).

(** [UpdateMany(ctx, filter, bson.M{"$set": fields})] on messages *)
Definition updateMany (flt : Filter) (f : Message -> Message) (d : Database)
  : Database :=
  mkDatabase (map (fun m => if matches flt m then f m else m) (messages d))
             (mailboxes d).

(** The sequence set of [handleStore], [handleCopy] and [handleMove]: all
    the mailbox for [*], else the one number [Atoi] reads. *)
Definition seqset_filter (box : ObjectID) (seqSet : string) : Filter :=
  if String.eqb seqSet "*" then mkFilter box UidAny false
  else mkFilter box (UidEq (Go.Atoi seqSet)) false.

(** [$set] of a document of flag columns: each key present in [fields]
    overwrites the column, the others keep their value. *)
Definition set_flags (fields : gmap string bool) (m : Message) : Message :=
  mkMessage (ID m) (Message_Mailbox m) (UID m) (MessageID m) (From m) (To m)
    (CC m) (Subject m) (Date m) (Size m) (BodyText m) (BodyHTML m)
    (InReplyTo m)
    (default (Seen m) (fields !! "seen"))
    (default (Answered m) (fields !! "answered"))
    (default (Flagged m) (fields !! "flagged"))
    (default (Deleted m) (fields !! "deleted"))
    (default (Draft m) (fields !! "draft"))
    (Recent m).

(** [$set] of [mailbox] and [uid] *)
Definition set_placement (mailbox : ObjectID) (uid : Z) (m : Message)
  : Message :=
  mkMessage (ID m) mailbox uid (MessageID m) (From m) (To m)
    (CC m) (Subject m) (Date m) (Size m) (BodyText m) (BodyHTML m)
    (InReplyTo m) (Seen m) (Answered m) (Flagged m) (Deleted m) (Draft m)
    (Recent m).

Definition set_db (w : World) (d : Database) : World := mkWorld d (out w).

(** [writeResponse]: [tag status text CRLF] *)
Definition writeResponse (w : World) (tag status text : string) : World :=
  mkWorld (db w)
    (out w ++ [tag +:+ " " +:+ status +:+ " " +:+ text +:+ Go.CRLF]).

(** [writeUntaggedResponse]: [* text CRLF] *)
Definition writeUntaggedResponse (w : World) (text : string) : World :=
  mkWorld (db w) (out w ++ ["* " +:+ text +:+ Go.CRLF]).

(** [parseQuotedArguments]; [cur] is the builder [current] and [args]
    the runes the loop [for _, char := range args] still has to visit.
    [WriteRune] appends the encoding of the rune: for an invalid byte of
    the input that is the encoding of U+FFFD. *)
Fixpoint parseQuoted (cur : string) (inQuotes escaped : bool)
    (args : list Go.rune) : list string :=
  let flush (k : list string) :=
    match cur with EmptyString => k | _ => cur :: k end in
  match args with
  | [] => flush []
  | char :: t =>
      if escaped then parseQuoted (cur +:+ char) inQuotes false t
      else if String.eqb char (String Go.BACKSLASH "") then
        if inQuotes then parseQuoted cur inQuotes true t
        else parseQuoted (cur +:+ char) inQuotes false t
      else if String.eqb char (String Go.DQ "") then
        parseQuoted cur (negb inQuotes) false t
      else if String.eqb char " " then
        if inQuotes then parseQuoted (cur +:+ char) inQuotes false t
        else flush (parseQuoted EmptyString inQuotes false t)
      else parseQuoted (cur +:+ char) inQuotes false t
  end.

Definition parseQuotedArguments (args : string) : list string :=
  parseQuoted EmptyString false false (Go.runes args).

Definition SELECTED_NEEDED : string := "No mailbox selected".

Section Handlers.
Context {RT : GoRuntime}.
Variable fails : DbCall -> bool.

(** [Find] on a filter that was declared and never assigned (a nil
    [bson.M]).  What the driver makes of a nil map is not in the sources:
    [None] stands for an error, a list for the documents of the cursor. *)
Variable find_nil : Database -> option (list Message).

(** [parseMailboxPath]; between two quotes it returns
    [args[1 : len(args)-1]], which panics on the one-byte string. *)
Definition parseMailboxPath (args : string) : Result string :=
  let args := TrimSpace args in
  if (Go.HasPrefix args Go.dquote && Go.HasSuffix args Go.dquote)%bool then
    match args with
    | String _ (String c t) =>
        Done (Go.reverse (match Go.reverse (String c t) with
                          | String _ r => r
                          | EmptyString => EmptyString
                          end))
    | _ => Panic
    end
  else Done args.

(** [buildFlagsString] *)
Definition buildFlagsString (msg : Message) : string :=
  Go.Join
    ((if Seen msg then ["\Seen"] else []) ++
     (if Answered msg then ["\Answered"] else []) ++
     (if Flagged msg then ["\Flagged"] else []) ++
     (if Deleted msg then ["\Deleted"] else []) ++
     (if Draft msg then ["\Draft"] else []))
    " ".

(** [quoteString] *)
Definition quoteString (str : string) : string :=
  if String.eqb str "" then "NIL"
  else Go.quoted (Go.ReplaceAll1 str Go.DQ (String Go.BACKSLASH Go.dquote)).

(** [buildAddressList] *)
Definition buildAddressList (addresses : list string) : string :=
  match addresses with
  | [] => "NIL"
  | _ =>
      let addressStructs :=
        flat_map (fun addr =>
                    match Go.Split addr "@" with
                    | [local; domain] =>
                        ["(NIL NIL " +:+ Go.quoted local +:+ " " +:+
                         Go.quoted domain +:+ ")"]
                    | _ => []
                    end) addresses in
      match addressStructs with
      | [] => "NIL"
      | _ => "(" +:+ Go.Join addressStructs "" +:+ ")"
      end
  end.

(** [buildEnvelope] *)
Definition buildEnvelope (msg : Message) : string :=
  let date := Go.quoted (TimeFormat (Date msg) "Mon, 02 Jan 2006 15:04:05 -0700") in
  let subject := quoteString (Subject msg) in
  let from := buildAddressList [From msg] in
  let sender := from in
  let replyTo := from in
  let to := buildAddressList (To msg) in
  let cc := buildAddressList (CC msg) in
  let bcc := "NIL" in
  let inReplyTo := quoteString (InReplyTo msg) in
  let messageID := quoteString (MessageID msg) in
  "(" +:+ Go.Join [date; subject; from; sender; replyTo; to; cc; bcc;
                   inReplyTo; messageID] " " +:+ ")".

Definition text_part (subtype : string) (octets : Z) : string :=
  "(" +:+ Go.quoted "TEXT" +:+ " " +:+ Go.quoted subtype +:+ " (" +:+
  Go.quoted "CHARSET" +:+ " " +:+ Go.quoted "UTF-8" +:+ ") NIL NIL " +:+
  Go.quoted "7BIT" +:+ " " +:+ Go.Itoa octets +:+ " NIL NIL NIL)".

(** [buildBodyStructure] *)
Definition buildBodyStructure (msg : Message) : string :=
  if (negb (String.eqb (BodyHTML msg) "") && negb (String.eqb (BodyText msg) ""))%bool
  then
    "((" +:+ text_part "PLAIN" (Go.len (BodyText msg)) +:+ ")(" +:+
    text_part "HTML" (Go.len (BodyHTML msg)) +:+ ") " +:+
    Go.quoted "ALTERNATIVE" +:+ " (" +:+ Go.quoted "BOUNDARY" +:+ " " +:+
    Go.quoted "boundary123" +:+ ") NIL NIL NIL)"
  else if negb (String.eqb (BodyHTML msg) "")
  then text_part "HTML" (Go.len (BodyHTML msg))
  else text_part "PLAIN" (Go.len (BodyText msg)).

(** [buildHeaderString] *)
Definition buildHeaderString (msg : Message) : string :=
  let headers :=
    ["From: " +:+ From msg] ++
    (match To msg with [] => [] | _ => ["To: " +:+ Go.Join (To msg) ", "] end) ++
    (match CC msg with [] => [] | _ => ["Cc: " +:+ Go.Join (CC msg) ", "] end) ++
    ["Subject: " +:+ Subject msg] ++
    ["Date: " +:+ TimeFormat (Date msg) "Mon, 02 Jan 2006 15:04:05 -0700"] ++
    (if String.eqb (MessageID msg) "" then []
     else ["Message-ID: " +:+ MessageID msg]) in
  Go.Join headers Go.CRLF +:+ Go.CRLF.

(** [buildFullMessage] *)
Definition buildFullMessage (msg : Message) : string :=
  let header := buildHeaderString msg in
  let body := if String.eqb (BodyText msg) "" then BodyHTML msg
              else BodyText msg in
  header +:+ Go.CRLF +:+ body.

(** [markMessageSeen]: the result of [UpdateOne] is dropped. *)
Definition markMessageSeen (msgID : ObjectID) (w : World) : World :=
  if fails (UpdateOneMessage msgID) then w
  else set_db w (updateOneMessage msgID (set_flags {["seen" := true]}) (db w)).

Definition literal (name text : string) : string :=
  name +:+ " {" +:+ Go.Itoa (Go.len text) +:+ "}" +:+ Go.CRLF +:+ text.

(** [buildFetchResponse]: the response line, and the world after the
    calls of [markMessageSeen] it makes on the way. *)
Definition buildFetchResponse (msg : Message) (items : string) (w : World)
  : string * World :=
  let parts : list string := [] in
  let parts :=
    if Go.Contains items "UID"
    then parts ++ ["UID " +:+ Go.Itoa (UID msg)] else parts in
  let parts :=
    if Go.Contains items "FLAGS"
    then parts ++ ["FLAGS (" +:+ buildFlagsString msg +:+ ")"] else parts in
  let parts :=
    if Go.Contains items "INTERNALDATE"
    then parts ++ ["INTERNALDATE " +:+
                   Go.quoted (TimeFormat (Date msg) "02-Jan-2006 15:04:05 -0700")]
    else parts in
  let parts :=
    if Go.Contains items "RFC822.SIZE"
    then parts ++ ["RFC822.SIZE " +:+ Go.Itoa (Size msg)] else parts in
  let parts :=
    if Go.Contains items "ENVELOPE"
    then parts ++ ["ENVELOPE " +:+ buildEnvelope msg] else parts in
  let parts :=
    if Go.Contains items "BODYSTRUCTURE"
    then parts ++ ["BODYSTRUCTURE " +:+ buildBodyStructure msg] else parts in
  let '(parts, w) :=
    if (Go.Contains items "BODY.PEEK[HEADER]" || Go.Contains items "BODY[HEADER]")%bool
    then
      (parts ++ [literal "BODY[HEADER]" (buildHeaderString msg)],
       if (Go.Contains items "BODY[HEADER]" && negb (Seen msg))%bool
       then markMessageSeen (ID msg) w else w)
    else (parts, w) in
  let '(parts, w) :=
    if (Go.Contains items "BODY.PEEK[TEXT]" || Go.Contains items "BODY[TEXT]")%bool
    then
      let text := if String.eqb (BodyText msg) "" then BodyHTML msg
                  else BodyText msg in
      (parts ++ [literal "BODY[TEXT]" text],
       if (Go.Contains items "BODY[TEXT]" && negb (Seen msg))%bool
       then markMessageSeen (ID msg) w else w)
    else (parts, w) in
  let '(parts, w) :=
    if Go.Contains items "RFC822"
    then
      (parts ++ [literal "RFC822" (buildFullMessage msg)],
       if negb (Seen msg) then markMessageSeen (ID msg) w else w)
    else (parts, w) in
  (Go.Itoa (UID msg) +:+ " FETCH (" +:+ Go.Join parts " " +:+ ")", w).

(** The selected mailbox, dereferenced: [s.selectedBox.ID]. *)
Definition selected_ID (s : Session) : Result ObjectID :=
  match selectedBox s with
  | Some box => Done (Mailbox_ID box)
  | None => Panic
  end.

(** [s.user.ID] *)
Definition session_user_ID (s : Session) : Result ObjectID :=
  match user s with
  | Some u => Done (User_ID u)
  | None => Panic
  end.

(** The sequence set of [handleFetch]; [None] is the filter left nil. *)
Definition fetch_filter (s : Session) (seqSet : string)
  : Result (option Filter) :=
  if Go.Contains seqSet ":" then
    match Go.Split seqSet ":" with
    | [first; last_] =>
        let start := Go.Atoi first in
        box ← selected_ID s;
        if String.eqb last_ "*"
        then Done (Some (mkFilter box (UidGte start) false))
        else Done (Some (mkFilter box (UidRange start (Go.Atoi last_)) false))
    | _ => Done None
    end
  else if String.eqb seqSet "*" then
    box ← selected_ID s; Done (Some (mkFilter box UidAny false))
  else
    box ← selected_ID s;
    Done (Some (mkFilter box (UidEq (Go.Atoi seqSet)) false)).

(** The comma-separated UIDs: an element [ParseInt] rejects is
    skipped. *)
Definition parse_uids (uidList : list string) : list Z :=
  flat_map (fun uidStr =>
              match Go.ParseInt (TrimSpace uidStr) with
              | (uid, true) => [uid]
              | (_, false) => []
              end) uidList.

(** One run of the loop [for cursor.Next(ctx)] of the FETCH handlers. *)
Fixpoint fetch_each (prefix_uid : bool) (fetchItems : string)
    (msgs : list Message) (w : World) : World :=
  match msgs with
  | [] => w
  | msg :: rest =>
      let items :=
        if (prefix_uid && negb (Go.Contains fetchItems "UID"))%bool
        then "UID " +:+ fetchItems else fetchItems in
      let '(response, w) := buildFetchResponse msg items w in
      fetch_each prefix_uid fetchItems rest (writeUntaggedResponse w response)
  end.

(** [handleFetch] *)
Definition handleFetch (tag args : string) (s : Session) (w : World)
  : Result (Session * World) :=
  if negb (SessionState_eqb (state s) StateSelected) then
    Done (s, writeResponse w tag "BAD" SELECTED_NEEDED)
  else
    match Go.SplitN args " " 2 with
    | [seqSet; items] =>
        let fetchItems := ToUpper items in
        flt ← fetch_filter s seqSet;
        let cursor :=
          if fails FindMessages then None
          else match flt with
               | Some flt => Some (find_sorted flt (db w))
               | None => find_nil (db w)
               end in
        match cursor with
        | Some found =>
            let w := fetch_each false fetchItems found w in
            Done (s, writeResponse w tag "OK" "FETCH completed")
        | None => Done (s, writeResponse w tag "NO" "Database error")
        end
    | _ => Done (s, writeResponse w tag "BAD"
                      "FETCH expects sequence set and items")
    end.

(** The UID set of [handleUIDFetch] *)
Definition uid_fetch_filter (s : Session) (uidSet : string)
  : Result (option Filter) :=
  if Go.Contains uidSet ":" then
    match Go.Split uidSet ":" with
    | [first; last_] =>
        let start := Go.Atoi first in
        box ← selected_ID s;
        if String.eqb last_ "*"
        then Done (Some (mkFilter box (UidGte start) false))
        else Done (Some (mkFilter box (UidRange start (Go.Atoi last_)) false))
    | _ => Done None
    end
  else if String.eqb uidSet "*" then
    box ← selected_ID s; Done (Some (mkFilter box UidAny false))
  else if Go.Contains uidSet "," then
    let uids := parse_uids (Go.Split uidSet ",") in
    box ← selected_ID s; Done (Some (mkFilter box (UidIn uids) false))
  else
    box ← selected_ID s;
    Done (Some (mkFilter box (UidEq (Go.Atoi uidSet)) false)).

(** [handleUIDFetch] *)
Definition handleUIDFetch (tag args : string) (s : Session) (w : World)
  : Result (Session * World) :=
  if negb (SessionState_eqb (state s) StateSelected) then
    Done (s, writeResponse w tag "BAD" SELECTED_NEEDED)
  else
    match Go.SplitN args " " 2 with
    | [uidSet; items] =>
        let fetchItems := ToUpper items in
        flt ← uid_fetch_filter s uidSet;
        let cursor :=
          if fails FindMessages then None
          else match flt with
               | Some flt => Some (find_sorted flt (db w))
               | None => find_nil (db w)
               end in
        match cursor with
        | Some found =>
            let w := fetch_each true fetchItems found w in
            Done (s, writeResponse w tag "OK" "UID FETCH completed")
        | None => Done (s, writeResponse w tag "NO" "Database error")
        end
    | _ => Done (s, writeResponse w tag "BAD"
                      "UID FETCH expects UID set and items")
    end.

(** [parseFlags]: a [bson.M] with the five flag columns as keys. *)
Definition flag_column (flag : string) : option string :=
  let f := ToUpper flag in
  if String.eqb f "\SEEN" then Some "seen"
  else if String.eqb f "\ANSWERED" then Some "answered"
  else if String.eqb f "\FLAGGED" then Some "flagged"
  else if String.eqb f "\DELETED" then Some "deleted"
  else if String.eqb f "\DRAFT" then Some "draft"
  else None.

Definition parseFlags (flagsStr : string) : gmap string bool :=
  let flags : gmap string bool :=
    <["seen" := false]> (<["answered" := false]> (<["flagged" := false]>
      (<["deleted" := false]> (<["draft" := false]> ∅)))) in
  let flagsStr := Go.Trim flagsStr "()" in
  let flagList := Fields flagsStr in
  fold_left (fun flags flag =>
               match flag_column flag with
               | Some column => <[column := true]> flags
               | None => flags
               end) flagList flags.

(** The [update] document of the STORE handlers; [None] is the
    "Invalid STORE action" exit. *)
Definition store_update (action : string) (flags : gmap string bool)
  : option (gmap string bool) :=
  if Go.HasPrefix action "+FLAGS" then Some flags
  else if Go.HasPrefix action "-FLAGS" then
    (* for flag := range flags { unsetFlags[flag] = false } *)
    Some ((fun _ : bool => false) <$> flags)
  else if String.eqb action "FLAGS" then Some flags
  else None.

Fixpoint store_fetch_each (with_uid : bool) (msgs : list Message) (w : World)
  : World :=
  match msgs with
  | [] => w
  | msg :: rest =>
      let response :=
        if with_uid then
          Go.Itoa (UID msg) +:+ " FETCH (UID " +:+ Go.Itoa (UID msg) +:+
          " FLAGS (" +:+ buildFlagsString msg +:+ "))"
        else
          Go.Itoa (UID msg) +:+ " FETCH (FLAGS (" +:+
          buildFlagsString msg +:+ "))" in
      store_fetch_each with_uid rest (writeUntaggedResponse w response)
  end.

(** What [handleStore] and [handleUIDStore] do once the filter is
    built. *)
Definition store_with (with_uid : bool) (completed : string)
    (tag action flagsStr : string) (flt : Filter) (s : Session) (w : World)
  : Session * World :=
  let flags := parseFlags flagsStr in
  match store_update action flags with
  | None => (s, writeResponse w tag "BAD" "Invalid STORE action")
  | Some update =>
      if fails UpdateManyMessages then
        (s, writeResponse w tag "NO" "Failed to update flags")
      else
        let w := set_db w (updateMany flt (set_flags update) (db w)) in
        let w :=
          if negb (Go.Contains action "SILENT") then
            if fails FindMessages then w
            else store_fetch_each with_uid (find flt (db w)) w
          else w in
        (s, writeResponse w tag "OK" completed)
  end.

(** [handleStore] *)
Definition handleStore (tag args : string) (s : Session) (w : World)
  : Result (Session * World) :=
  if negb (SessionState_eqb (state s) StateSelected) then
    Done (s, writeResponse w tag "BAD" SELECTED_NEEDED)
  else
    match Go.SplitN args " " 3 with
    | [seqSet; action; flagsStr] =>
        let action := ToUpper action in
        box ← selected_ID s;
        let flt := seqset_filter box seqSet in
        Done (store_with false "STORE completed" tag action flagsStr flt s w)
    | _ => Done (s, writeResponse w tag "BAD"
                      "STORE expects sequence, action, and flags")
    end.

(** [handleUIDStore] *)
Definition handleUIDStore (tag args : string) (s : Session) (w : World)
  : Result (Session * World) :=
  if negb (SessionState_eqb (state s) StateSelected) then
    Done (s, writeResponse w tag "BAD" SELECTED_NEEDED)
  else
    match Go.SplitN args " " 3 with
    | [uidSet; action; flagsStr] =>
        let action := ToUpper action in
        box ← selected_ID s;
        let flt :=
          if String.eqb uidSet "*" then mkFilter box UidAny false
          else if Go.Contains uidSet "," then
            mkFilter box (UidIn (parse_uids (Go.Split uidSet ","))) false
          else mkFilter box (UidEq (Go.Atoi uidSet)) false in
        Done (store_with true "UID STORE completed" tag action flagsStr flt s w)
    | _ => Done (s, writeResponse w tag "BAD"
                      "UID STORE expects UID set, action, and flags")
    end.

(** The loop [for cursor.Next(ctx)] of [handleMove]: the database,
    the local [destBox.UIDNext] and [movedUIDs]. *)
Fixpoint move_each (destID : ObjectID) (msgs : list Message)
    (d : Database) (uidNext : Z) (movedUIDs : list Z)
  : Database * Z * list Z :=
  match msgs with
  | [] => (d, uidNext, movedUIDs)
  | msg :: rest =>
      let newUID := uidNext in
      if fails (UpdateOneMessage (ID msg)) then
        move_each destID rest d uidNext movedUIDs
      else
        let d := updateOneMessage (ID msg) (set_placement destID newUID) d in
        let d := if fails (UpdateOneMailbox destID) then d
                 else incUidNext destID d in
        move_each destID rest d (uidNext + 1) (movedUIDs ++ [UID msg])
  end.

Definition expunge_lines (uids : list Z) (w : World) : World :=
  fold_left (fun w uid => writeUntaggedResponse w (Go.Itoa uid +:+ " EXPUNGE"))
            uids w.

(** [handleMove] *)
Definition handleMove (tag args : string) (s : Session) (w : World)
  : Result (Session * World) :=
  if negb (SessionState_eqb (state s) StateSelected) then
    Done (s, writeResponse w tag "BAD" SELECTED_NEEDED)
  else
    match Go.SplitN args " " 2 with
    | [seqSet; dest] =>
        destMailbox ← parseMailboxPath dest;
        uid ← session_user_ID s;
        match (if fails FindOneMailbox then None
               else findMailbox uid destMailbox (db w)) with
        | None =>
            Done (s, writeResponse w tag "NO"
                       "[TRYCREATE] Destination mailbox does not exist")
        | Some destBox =>
            box ← selected_ID s;
            let flt := seqset_filter box seqSet in
            if fails FindMessages then
              Done (s, writeResponse w tag "NO" "Database error")
            else
              let '(d, _, movedUIDs) :=
                move_each (Mailbox_ID destBox) (find flt (db w)) (db w)
                          (UIDNext destBox) [] in
              let w := expunge_lines movedUIDs (set_db w d) in
              Done (s, writeResponse w tag "OK" "MOVE completed")
        end
    | _ => Done (s, writeResponse w tag "BAD"
                      "MOVE expects sequence set and mailbox")
    end.

(** [handleAppend] *)
Definition handleAppend (tag args : string) (s : Session) (w : World)
  : Result (Session * World) :=
  if negb (authenticated s) then
    Done (s, writeResponse w tag "NO" "Not authenticated")
  else
    match parseQuotedArguments args with
    | mailboxPath :: _ :: _ =>
        uid ← session_user_ID s;
        match (if fails FindOneMailbox then None
               else findMailbox uid mailboxPath (db w)) with
        | None =>
            Done (s, writeResponse w tag "NO"
                       "[TRYCREATE] Mailbox does not exist")
        | Some _ =>
            Done (s, writeResponse w tag "NO" "APPEND not fully implemented")
        end
    | _ => Done (s, writeResponse w tag "BAD"
                      "APPEND expects mailbox and message")
    end.

Definition deleted_in (box : ObjectID) : Filter := mkFilter box UidAny true.

(** [handleClose] *)
Definition handleClose (tag : string) (s : Session) (w : World)
  : Result (Session * World) :=
  if negb (SessionState_eqb (state s) StateSelected) then
    Done (s, writeResponse w tag "BAD" SELECTED_NEEDED)
  else
    let w :=
      match selectedBox s with
      | Some box =>
          if fails DeleteManyMessages then w   (* the error is logged *)
          else set_db w (deleteMany (deleted_in (Mailbox_ID box)) (db w))
      | None => w
      end in
    Done (mkSession (authenticated s) (user s) None StateAuthenticated,
          writeResponse w tag "OK" "CLOSE completed").

(** [handleExpunge] *)
Definition handleExpunge (tag : string) (s : Session) (w : World)
  : Result (Session * World) :=
  if negb (SessionState_eqb (state s) StateSelected) then
    Done (s, writeResponse w tag "BAD" SELECTED_NEEDED)
  else
    box ← selected_ID s;
    if fails FindMessages then
      Done (s, writeResponse w tag "NO" "Database error")
    else
      let deletedUIDs := map UID (find_sorted (deleted_in box) (db w)) in
      if fails DeleteManyMessages then
        Done (s, writeResponse w tag "NO" "Failed to delete messages")
      else
        let w := set_db w (deleteMany (deleted_in box) (db w)) in
        let w := expunge_lines deletedUIDs w in
        Done (s, writeResponse w tag "OK" "EXPUNGE completed").

End Handlers.

End Imap.

(** ** lmtp: delivery of one message to the accepted recipients *)

Module Lmtp.

Definition ObjectID := Z.

(** [api/models]; the fields the delivery path reads or writes. *)
Record User := mkUser {
  User_ID : ObjectID;
  Disabled : bool;
  StorageUsed : Z
}.

Record Mailbox := mkMailbox {
  Mailbox_ID : ObjectID;
  Mailbox_User : ObjectID;
  Path : string;
  SpecialUse : string;
  ModifyIndex : Z;
  UIDNext : Z;
  UIDValidity : Z
}.

Record Message := mkMessage {
  Message_User : ObjectID;
  Message_Mailbox : ObjectID;
  UID : Z;
  ModSeq : Z;
  Size : Z;
  Flags : list string;
  Subject : string;
  Unseen : bool;
  Undeleted : bool;
  Flagged : bool;
  Draft : bool
}.

Record Database := mkDatabase {
  users : list User;
  mailboxes : list Mailbox;
  messages : list Message
}.

(** [UserRecipient]; of [Address] only the recipient string is used. *)
Record UserRecipient := mkUserRecipient {
  Recipient : string;
  Recipient_User : User
}.

(** [smtp.SMTPError] *)
Record SMTPError := mkSMTPError {
  Code : Z;
  Error_Message : string
}.

(** [FilterQuery] and [Filter]; [Action] holds the keys the delivery
    path looks up, an absent key being false or empty. *)
Record FilterQuery := mkFilterQuery {
  Headers : gmap string string;
  HasAttachments : option Z;
  Query_Size : option Z;
  Text : string
}.

Record Action := mkAction {
  spam : bool;
  seen : bool;
  flag : bool;
  delete : bool;
  mailbox : string
}.

Record Filter := mkFilter {
  Filter_ID : string;
  Query : FilterQuery;
  Filter_Action : Action
}.

(** What [indexer.ProcessMessage] hands back, as far as the delivery
    path reads it: the subject of the envelope and the number of
    attachments of the body structure. *)
Record Indexed := mkIndexed {
  Envelope_Subject : string;
  Attachments : Z
}.

Inductive DbCall :=
| FindOneMailbox (user : ObjectID)
| UpdateOneMailbox (id : ObjectID)
| InsertOneMessage (user : ObjectID)
| UpdateOneUser (id : ObjectID).

Definition contains (slice : list string) (item : string) : bool :=
  existsb (String.eqb item) slice.

Fixpoint update_first {A : Type} (p : A -> bool) (f : A -> A) (l : list A)
  : list A :=
  match l with
  | [] => []
  | x :: t => if p x then f x :: t else x :: update_first p f t
  end.

Section Delivery.
Context {RT : GoRuntime}.

(** [lmtp.spam_header] *)
Variable SpamHeader : string.

(** [Indexer.ProcessMessage] is not among the sources: [None] is its
    error. *)
Variable ProcessMessage : string -> option Indexed.

(** [regexp.MatchString(pattern, s)], false on a malformed pattern. *)
Variable MatchString : string -> string -> bool.

Variable fails : DbCall -> bool.

(** [matchesFilter] *)
Definition matchesFilter (filter : Filter) (idx : Indexed)
    (rawMessage : string) : bool :=
  let q := Query filter in
  let headers_ok :=
    let messageStr := ToLower rawMessage in
    forallb (fun hv : string * string =>
               MatchString (ToLower (fst hv) +:+ ":\s*" +:+ ToLower (snd hv))
                           messageStr)
            (map_to_list (Headers q)) in
  let attachments_ok :=
    match HasAttachments q with
    | Some ha =>
        let hasAttachments := 0 <? Attachments idx in
        negb ((0 <? ha) && negb hasAttachments) &&
        negb ((ha <? 0) && hasAttachments)
    | None => true
    end in
  let size_ok :=
    match Query_Size q with
    | Some filterSize =>
        let messageSize := Go.len rawMessage in
        negb ((filterSize <? 0) && (- filterSize <? messageSize)) &&
        negb ((0 <? filterSize) && (messageSize <? filterSize))
    | None => true
    end in
  let text_ok :=
    if String.eqb (Text q) "" then true
    else Go.Contains (ToLower rawMessage) (ToLower (Text q)) in
  headers_ok && attachments_ok && size_ok && text_ok.

(** The loop over the filters: the target path, the flags, and
    whether a filter asked to drop the message. *)
Fixpoint apply_filters (filters : list Filter) (idx : Indexed)
    (message : string) (mailboxPath : string) (flags : list string)
  : string * list string * bool :=
  match filters with
  | [] => (mailboxPath, flags, false)
  | filter :: rest =>
      if matchesFilter filter idx message then
        let a := Filter_Action filter in
        let mailboxPath := if spam a then "Junk" else mailboxPath in
        let flags := if seen a then flags ++ ["\Seen"] else flags in
        let flags := if flag a then flags ++ ["\Flagged"] else flags in
        if delete a then (mailboxPath, flags, true)
        else
          let mailboxPath :=
            if String.eqb (mailbox a) "" then mailboxPath else mailbox a in
          apply_filters rest idx message mailboxPath flags
      else apply_filters rest idx message mailboxPath flags
  end.

Definition find_mailbox (p : Mailbox -> bool) (d : Database)
  : option Mailbox :=
  head (filter (fun b => p b = true) (mailboxes d)).

(** [processMessage]: the database afterwards and the error. *)
Definition processMessage (rawMessage : string)
    (userRecipient : UserRecipient) (d : Database)
  : Database * option string :=
  let uid := User_ID (Recipient_User userRecipient) in
  let deliveredToHeader :=
    "Delivered-To: " +:+ Recipient userRecipient +:+ Go.CRLF in
  let messageWithHeaders := deliveredToHeader +:+ rawMessage in
  match ProcessMessage messageWithHeaders with
  | None => (d, Some "failed to process message")
  | Some idx =>
      (* getUserFilters returns no filter *)
      let filters : list Filter := [] in
      let filters :=
        if String.eqb SpamHeader "" then filters
        else filters ++
             [mkFilter "SPAM"
                (mkFilterQuery {[ToLower SpamHeader := "yes"]} None None "")
                (mkAction true false false false "")] in
      let '(mailboxPath, flags, deleteMessage) :=
        apply_filters filters idx messageWithHeaders "INBOX" [] in
      if deleteMessage then (d, None)
      else
        let wanted (b : Mailbox) : bool :=
          (Mailbox_User b =? uid) &&
          (if String.eqb mailboxPath "Junk"
           then String.eqb (SpecialUse b) "\Junk"
           else String.eqb (Path b) mailboxPath) in
        let inbox (b : Mailbox) : bool :=
          (Mailbox_User b =? uid) && String.eqb (Path b) "INBOX" in
        let target : Mailbox + string :=
          if fails (FindOneMailbox uid) then inr "failed to find mailbox"
          else
            match find_mailbox wanted d with
            | Some b => inl b
            | None =>
                (* mongo.ErrNoDocuments: fall back to INBOX *)
                match find_mailbox inbox d with
                | Some b => inl b
                | None => inr "failed to find INBOX"
                end
            end in
        match target with
        | inr e => (d, Some e)
        | inl mailbox =>
            if fails (UpdateOneMailbox (Mailbox_ID mailbox)) then
              (d, Some "failed to update mailbox UID")
            else
              let d :=
                mkDatabase (users d)
                  (update_first (fun b => Mailbox_ID b =? Mailbox_ID mailbox)
                     (fun b => mkMailbox (Mailbox_ID b) (Mailbox_User b)
                                 (Path b) (SpecialUse b) (ModifyIndex b + 1)
                                 (UIDNext b + 1) (UIDValidity b))
                     (mailboxes d))
                  (messages d) in
              let messageDoc :=
                mkMessage uid (Mailbox_ID mailbox) (UIDNext mailbox)
                  (ModifyIndex mailbox + 1) (Go.len messageWithHeaders)
                  flags (Envelope_Subject idx)
                  (negb (contains flags "\Seen")) true
                  (contains flags "\Flagged") (contains flags "\Draft") in
              if fails (InsertOneMessage uid) then
                (d, Some "failed to store message")
              else
                let d := mkDatabase (users d) (mailboxes d)
                           (messages d ++ [messageDoc]) in
                let d :=
                  if fails (UpdateOneUser uid) then d
                  else mkDatabase
                         (update_first (fun u => User_ID u =? uid)
                            (fun u => mkUser (User_ID u) (Disabled u)
                                        (StorageUsed u + Size messageDoc))
                            (users d))
                         (mailboxes d) (messages d) in
                (d, None)
        end
  end.

(** The first loop of [Data]: [responses[i]] for each recipient. *)
Fixpoint process_each (rawMessage : string) (recipients : list UserRecipient)
    (d : Database) : Database * list (option SMTPError) :=
  match recipients with
  | [] => (d, [])
  | userRecipient :: rest =>
      let '(d, err) := processMessage rawMessage userRecipient d in
      let response :=
        match err with
        | Some e => Some (mkSMTPError 450 ("Error processing message: " +:+ e))
        | None => None
        end in
      let '(d, responses) := process_each rawMessage rest d in
      (d, response :: responses)
  end.

(** [Session.Data]: [read] is the outcome of [io.ReadAll], [None] on
    an error; the result is the [error] returned, [None] for nil. *)
Definition Data (read : option string) (recipients : list UserRecipient)
    (d : Database) : Database * option SMTPError :=
  match read with
  | None => (d, Some (mkSMTPError 450 "Error reading message data"))
  | Some rawMessage =>
      let '(d, responses) := process_each rawMessage recipients d in
      if existsb (fun r : option SMTPError =>
                    match r with None => true | Some _ => false end)
                 responses
      then (d, None)
      else (d, Some (mkSMTPError 450 "Failed to deliver to all recipients"))
  end.

(** The status codes of the reply lines that follow the end of data.
    The session implements [Data] alone, and for such a session the
    go-smtp server answers every accepted recipient, in order, with
    the one status [Data] returned: 250 for nil. *)
Definition reply_codes (read : option string)
    (recipients : list UserRecipient) (d : Database) : list Z :=
  let status :=
    match snd (Data read recipients d) with
    | None => 250
    | Some e => Code e
    end in
  map (fun _ => status) recipients.

End Delivery.

End Lmtp.

(** ** The statements of the specification

    Definitions that follow the words of the specification; the theorems
    compare them with what the handlers compute. *)

Module Spec.
Import Imap.

(** The sequence number of the message with UID [uid] in the mailbox
    [box]: its position, from 1, when the messages of the mailbox are
    listed by ascending UID. *)
Definition seqnum (d : Database) (box : ObjectID) (uid : Z) : Z :=
  1 + Z.of_nat (length (filter (fun m => Message_Mailbox m = box /\ UID m < uid)
                               (messages d))).

(** The numbers the specification puts on the EXPUNGE lines: the
    sequence numbers before the command, in ascending order; with
    [renumber], each one as it stands after the lines before it. *)
Definition expunge_seqnums (renumber : bool) (d : Database) (box : ObjectID)
  : list Z :=
  imap (fun i m =>
          seqnum d box (UID m) - (if renumber then Z.of_nat i else 0))
       (find_sorted (deleted_in box) d).

Definition expunge_reply (tag : string) (numbers : list Z) : list string :=
  map (fun n => "* " +:+ (Go.Itoa n +:+ " EXPUNGE") +:+ Go.CRLF) numbers ++
  [tag +:+ " OK EXPUNGE completed" +:+ Go.CRLF].







End Spec.

(** ** Concrete sessions, databases and messages

    The inputs on which the definitions are evaluated below. *)

Module Fixtures.
Import Imap.

Definition no_faults : DbCall -> bool := fun _ => false.
Definition delete_fails (c : DbCall) : bool :=
  match c with DeleteManyMessages => true | _ => false end.

(** A driver that refuses a nil filter. *)
Definition nil_refused : Database -> option (list Message) := fun _ => None.

Definition alice : User := mkUser 1 "alice" 0 0.

Definition inbox : Mailbox := mkMailbox 10 1 "INBOX" "\Inbox" 7 6 [] [].
Definition archive : Mailbox := mkMailbox 11 1 "Archive" "" 8 1 [] [].

(** A message of [inbox] with the given [_id], UID and flags. *)
Definition message (id uid : Z) (seen flagged deleted : bool) : Message :=
  mkMessage id 10 uid "<m@x>" "a@x" ["b@x"] [] "hi" 0 64 "body" "" ""
            seen false flagged deleted false false.

Definition selected : Session :=
  mkSession true (Some alice) (Some inbox) StateSelected.

(** INBOX holds UIDs 3 and 5; the second is flagged [\Deleted]. *)
Definition two_messages : Database :=
  mkDatabase [message 100 3 false true false; message 101 5 false false true]
             [inbox; archive].

(** INBOX holds the single UID 5, flagged [\Deleted]. *)
Definition one_deleted : Database :=
  mkDatabase [message 101 5 false false true] [inbox; archive].

Definition world (d : Database) : World := mkWorld d [].

(** The UID and the flags [\Seen \Answered \Flagged \Deleted \Draft] of
    every message of the collection. *)
Definition flags_of (w : World) : list (Z * list bool) :=
  map (fun m => (UID m, [Seen m; Answered m; Flagged m; Deleted m; Draft m]))
      (messages (db w)).

End Fixtures.

(** The parsed header as the specification describes it. *)

Module IndexerSpec.
Import Indexer.

(** Header unfolding, reading forward: a line that starts with whitespace
    is appended, after a CRLF, to the line it continues. *)
Fixpoint unfold_from (cur : string) (lines : list string) : list string :=
  match lines with
  | [] => [cur]
  | h :: t =>
      if starts_with_space h then unfold_from (cur +:+ Go.CRLF +:+ h) t
      else cur :: unfold_from h t
  end.

Definition unfold_header (lines : list string) : list string :=
  match lines with
  | [] => []
  | h :: t => unfold_from h t
  end.

(** The value a header line gives to [key], if it is a line of that key. *)
Definition key_value {RT : GoRuntime} (key line : string) : option string :=
  match header_entry line with
  | Some (k, v) => if String.eqb k key then Some v else None
  | None => None
  end.

(** The values the header block gives to [key], in input order. *)
Definition header_values {RT : GoRuntime} (key : string) (lines : list string)
  : list string :=
  omap (key_value key) (unfold_header lines).

(** "Repeated keys accumulate as an ordered list": a key met once maps to
    its value, a key met several times to the list of its values. *)
Definition accumulated (values : list string) : option HeaderValue :=
  match values with
  | [] => None
  | [v] => Some (HString v)
  | _ => Some (HList values)
  end.

(** "Where the last occurrence wins". *)
Definition last_wins (values : list string) : option HeaderValue :=
  HString <$> last values.

(** The sentence of the specification, read alone: the last value for
    the six single-valued fields, the accumulated values for every other
    key. *)
Definition claimed_value (key : string) (values : list string)
  : option HeaderValue :=
  if bool_decide (key ∈ singleValueFields) then last_wins values
  else accumulated values.

(** The three passes that follow the first loop, on the value under one
    of their keys. *)
Definition structured_of {RT : GoRuntime} (o : option HeaderValue)
  : option HeaderValue :=
  match o with
  | Some (HString v) => Some (HValueParams (parseValueParams v))
  | Some (HList arr) => (fun v => HValueParams (parseValueParams v)) <$> last arr
  | _ => o
  end.

Definition single_of (o : option HeaderValue) : option HeaderValue :=
  match o with
  | Some (HList arr) => HString <$> last arr
  | _ => o
  end.

Definition addresses_of {RT : GoRuntime} (o : option HeaderValue)
  : option HeaderValue :=
  match o with
  | Some (HString v) =>
      match address_values [v] with
      | [] => o
      | addresses => Some (HAddresses addresses)
      end
  | Some (HList arr) =>
      match address_values arr with
      | [] => o
      | addresses => Some (HAddresses addresses)
      end
  | _ => o
  end.

(** What the finished header maps [key] to, by the kind of the key. *)
Definition parsed_value {RT : GoRuntime} (key : string) (values : list string)
  : option HeaderValue :=
  if String.eqb key "content-type" then
    Some (HValueParams
            (parseValueParams (default "text/plain" (last values))))
  else if String.eqb key "content-disposition" then
    (fun v => HValueParams (parseValueParams v)) <$> last values
  else if bool_decide (key ∈ singleValueFields) then last_wins values
  else if bool_decide (key ∈ addressFields) then
    match address_values values with
    | [] => accumulated values
    | addresses => Some (HAddresses addresses)
    end
  else accumulated values.

(** The header lines stored one after the other, first line first. *)
Fixpoint store_all {RT : GoRuntime} (lines : list string)
    (ph : gmap string HeaderValue) : Result (gmap string HeaderValue) :=
  match lines with
  | [] => Done ph
  | line :: rest => ph' ← store_header ph line; store_all rest ph'
  end.

(** The open path of the parser: every node of it carries the boundary
    of its parent as [ParentBoundary]; the last node of the path is
    [p.tree], which has no boundary, and every other parent is a multipart
    node in its body. *)
Fixpoint chain (n : MIMENode) (up : list MIMENode) : Prop :=
  match up with
  | [] => False
  | parent :: up' =>
      ParentBoundary n = Boundary parent /\
      match up' with
      | [] => Boundary parent = ""
      | _ => state parent = "body" /\ chain parent up'
      end
  end.

(** A node still in its header has no parsed header yet, and holds the
    non-empty lines read for it. *)
Definition header_ready (n : MIMENode) : Prop :=
  state n = "header" ->
  ParsedHeader n = ∅ /\ Forall (fun l => l <> "") (Header n).

(** The invariant of the loop of [Parse]: the state of the current node
    is one of the two the [switch] knows, and the path is well linked. *)
Definition shape (p : MIMEParser) : Prop :=
  (state (node p) = "header" \/ state (node p) = "body") /\
  header_ready (node p) /\
  chain (node p) (parents p).

(** Every node of a tree, embedded messages included, is in the state
    [header] or [body]. *)
Fixpoint states_ok (n : MIMENode) : Prop :=
  (state n = "header" \/ state n = "body") /\
  (fix all (l : list MIMENode) : Prop :=
     match l with
     | [] => True
     | child :: l' => states_ok child /\ all l'
     end) (ChildNodes n) /\
  match Message n with
  | Some m => states_ok m
  | None => True
  end.

(** The same of what hangs under a node: its children and its embedded
    message. *)
Definition kids_ok (n : MIMENode) : Prop :=
  Forall states_ok (ChildNodes n) /\
  forall m, Message n = Some m -> states_ok m.

(** The nodes the parser has built so far are in a known state: the
    current node with all that hangs under it, and all that hangs under
    the nodes of the path. *)
Definition tidy (p : MIMEParser) : Prop :=
  states_ok (node p) /\ Forall kids_ok (parents p).

(** Every body on the path, with [extra] bytes more, the pending line
    break and the unread input, fits in [total] bytes. *)
Definition sized (total extra : nat) (p : MIMEParser) : Prop :=
  Forall (fun a => (String.length (Body a) + extra +
                    String.length (br p) + String.length (rest p) <= total)%nat)
         (node p :: parents p).

(** A header block with a repeated subject, a repeated content-id, a
    repeated recipient field and a repeated content type. *)
Definition repeated_header : list string :=
  ["Subject: one"; "To: a@x"; "Content-ID: <1>"; "Content-Type: text/html";
   "Subject: two"; "To: b@x"; "Content-ID: <2>";
   "Content-Type: text/plain; charset=utf-8"].

Definition fresh_node (lines : list string) : MIMENode :=
  set_Header (createNode (createNode (node (NewMIMEParser "")))) lines.

End IndexerSpec.

(** The tree that reflects a text: the state machine of the
    specification, with its stack of open nodes, run over the lines of
    the text. *)
Module TreeSpec.
Import Indexer.

(** The lines of a text, each with the break that ends it.  A line ends
    at a line feed, which takes the carriage return before it into the
    break; the last line has no break, and is empty when the text ends
    with a break. *)
Definition push (c : ascii) (ls : list (string * string))
  : list (string * string) :=
  match ls with
  | (l, b) :: more => (String c l, b) :: more
  | [] => [(String c "", "")]
  end.

Fixpoint split_lines (s : string) : list (string * string) :=
  match s with
  | EmptyString => [("", "")]
  | String c t =>
      if Ascii.eqb c Go.LF then ("", String Go.LF "") :: split_lines t
      else
        match t with
        | String c' t' =>
            if (Ascii.eqb c Go.CR && Ascii.eqb c' Go.LF)%bool
            then ("", Go.CRLF) :: split_lines t'
            else push c (split_lines t)
        | EmptyString => push c (split_lines t)
        end
  end.

(** What is left to see of a text when the break [br] was read last:
    behind a break, the end of the text is still an empty line. *)
Definition pending (br text : string) : list (string * string) :=
  if String.eqb text "" then
    if String.eqb br "" then [] else [("", "")]
  else split_lines text.

(** What is seen of a message: its lines, and nothing of the empty
    message. *)
Definition seen (rfc822 : string) : list (string * string) :=
  pending "" rfc822.

(** The node under construction and the open nodes above it, nearest
    first; the last one is the root. *)
Definition Path : Type := MIMENode * list MIMENode.

Definition root : MIMENode :=
  {| RootNode := true; ChildNodes := []; Header := [];
     ParsedHeader := ∅; Body := ""; Multipart := ""; Boundary := "";
     ParentBoundary := ""; LineCount := 0; Size := 0;
     Message := None; state := "" |}.

(** A node opened under [parent]: empty, reading its header. *)
Definition opened (parent : MIMENode) : MIMENode :=
  {| RootNode := false; ChildNodes := []; Header := [];
     ParsedHeader := ∅; Body := ""; Multipart := ""; Boundary := "";
     ParentBoundary := Boundary parent; LineCount := 0; Size := 0;
     Message := None; state := "header" |}.

(** [child] put under [parent], behind the children it has. *)
Definition adopt (child parent : MIMENode) : MIMENode :=
  set_ChildNodes parent (ChildNodes parent ++ [child]).

(** Whether [line] is the delimiter of [boundary], and then whether it
    is the terminator. *)
Definition delimiter (boundary line : string) : option bool :=
  if String.eqb boundary "" then None
  else if String.eqb line ("--" +:+ boundary) then Some false
  else if String.eqb line ("--" +:+ boundary +:+ "--") then Some true
  else None.

(** [line] is the delimiter of [boundary] that opens a part. *)
Definition opens (boundary line : string) : bool :=
  match delimiter boundary line with
  | Some false => true
  | _ => false
  end.

Section Machine.
Context {RT : GoRuntime}.

(** The tree of the message embedded in a body. *)
Variable embedded : string -> option MIMENode.

(** The blank line ends the header: the header is parsed, a multipart
    content type gives the node its subtype and its boundary, and the
    node reads its body. *)
Definition to_body (n : MIMENode) : MIMENode :=
  match processNodeHeader n with
  | Done parsed =>
      let n' :=
        match ParsedHeader parsed !! "content-type" with
        | Some (HValueParams ct) =>
            if String.eqb (Type_ ct) "multipart" then
              match Params ct !! "boundary" with
              | Some boundary => set_multipart parsed (Subtype ct) boundary
              | None => parsed
              end
            else parsed
        | _ => parsed
        end in
      set_state n' "body"
  | _ => n
  end.

(** A node is closed: a [message/rfc822] node with a body gets the tree
    of the message in it. *)
Definition close (n : MIMENode) : MIMENode :=
  match ParsedHeader n !! "content-type" with
  | Some (HValueParams ct) =>
      if (String.eqb (Value ct) "message/rfc822" &&
          negb (String.eqb (Body n) ""))%bool
      then set_Message n (embedded (Body n))
      else n
  | _ => n
  end.

(** One line, read behind the break [prevBr].  In the header, a line is
    kept and the blank line ends the header.  In the body, the delimiter
    of the parent's boundary closes the node and opens a sibling, its
    terminator closes the node and goes back to the parent, the delimiter
    of the node's own boundary opens a child, and any other line goes to
    the body, behind the break before it when the body has begun. *)
Definition feed (prevBr line : string) (path : Path) : Path :=
  let '(n, up) := path in
  if String.eqb (state n) "header" then
    if String.eqb line "" then (to_body n, up)
    else (set_Header n (Header n ++ [line]), up)
  else
    match delimiter (ParentBoundary n) line, up with
    | Some terminator, parent :: up' =>
        let parent := adopt (close n) parent in
        if terminator then (parent, up') else (opened parent, parent :: up')
    | _, _ =>
        if opens (Boundary n) line then (opened n, n :: up)
        else
          let body :=
            if String.eqb (Body n) "" then line
            else Body n +:+ prevBr +:+ line in
          (set_Body n body, up)
    end.

Fixpoint run (prevBr : string) (ls : list (string * string)) (path : Path)
  : Path :=
  match ls with
  | [] => path
  | (line, br) :: more => run br more (feed prevBr line path)
  end.

(** The end of the text closes nothing: every open node goes under its
    parent as it is.  The message is the first node under the root. *)
Definition finish (path : Path) : option MIMENode :=
  head (ChildNodes (fold_left (fun child parent => adopt child parent)
                              (snd path) (fst path))).

End Machine.

(** The tree that reflects [rfc822]; [depth] bounds the nesting of
    embedded messages.  An embedded message is shorter than the message
    that holds it. *)
Fixpoint reflect_depth {RT : GoRuntime} (depth : nat) (rfc822 : string)
  : option MIMENode :=
  match depth with
  | O => None
  | S d => finish (run (reflect_depth d) "" (seen rfc822) (opened root, [root]))
  end.

Definition reflect {RT : GoRuntime} (rfc822 : string) : option MIMENode :=
  reflect_depth (S (String.length rfc822)) rfc822.

(** A message of two parts whose boundary is never terminated. *)
Definition unclosed : string :=
  Go.Join ["Content-Type: multipart/mixed; boundary=b"; "";
           "--b"; "Subject: one"; ""; "first";
           "--b"; "Subject: two"; ""; "second"] Go.CRLF.

End TreeSpec.

(** The BODYSTRUCTURE of a message, from its bytes to the wire. *)

Module BodyStructureSpec.
Import Indexer BodyStructure.

(** An enumeration [range] may use: the entries of the map, each once, in
    some order. *)
Definition admissible
    (range_order : gmap string string -> list (string * string)) : Prop :=
  forall m, range_order m ≡ₚ map_to_list m.

Definition ascending (m : gmap string string) : list (string * string) :=
  map_to_list m.

Definition descending (m : gmap string string) : list (string * string) :=
  rev (map_to_list m).

(** The options of the wire form: upper-case keywords. *)
Definition wire : BodyStructureOptions := mkOptions false true false false false.

(** [build(parse(M))]: the structure of the parsed message. *)
Definition build {RT : GoRuntime}
    (range_order : gmap string string -> list (string * string))
    (M : string) : Result Value :=
  '(tree, _) ← ParseMIME M;
  Done (CreateBodyStructure range_order tree (Some wire)).

(** The body parameter list: the third field of a single part. *)
Definition body_params (v : Result Value) : option Value :=
  match v with
  | Done (VList (_ :: _ :: params :: _)) => Some params
  | _ => None
  end.

Definition serialised (v : Result Value) : option string :=
  match v with
  | Done structure => SerializeBodyStructure structure
  | _ => None
  end.

(** A text part whose content type has two parameters. *)
Definition flowed : string :=
  "Content-Type: text/plain; charset=utf-8; format=flowed" +:+ Go.CRLF +:+
  Go.CRLF +:+ "body" +:+ Go.CRLF.

End BodyStructureSpec.

(** The LMTP replies as the specification has them, and a delivery to
    two recipients of whom the second has no mailbox. *)

Module LmtpSpec.
Import Lmtp.

(** One status per accepted recipient, in order: 250 when the delivery
    to that recipient succeeded, the code of its own failure otherwise. *)
Definition per_recipient_codes {RT : GoRuntime} (SpamHeader : string)
    (ProcessMessage : string -> option Indexed)
    (MatchString : string -> string -> bool) (fails : DbCall -> bool)
    (rawMessage : string) (recipients : list UserRecipient) (d : Database)
  : list Z :=
  map (fun r : option SMTPError =>
         match r with None => 250 | Some e => Code e end)
      (snd (process_each SpamHeader ProcessMessage MatchString fails
                         rawMessage recipients d)).

Definition no_faults : DbCall -> bool := fun _ => false.

Definition known : User := mkUser 1 false 0.
Definition homeless : User := mkUser 2 false 0.

(** [known] owns an INBOX, [homeless] owns no mailbox at all. *)
Definition store : Database :=
  mkDatabase [known; homeless] [mkMailbox 10 1 "INBOX" "\Inbox" 0 1 7] [].

Definition recipients : list UserRecipient :=
  [mkUserRecipient "known@localhost" known;
   mkUserRecipient "homeless@localhost" homeless].

Definition letter : string :=
  "From: s@x" +:+ Go.CRLF +:+ "Subject: hi" +:+ Go.CRLF +:+ Go.CRLF +:+
  "body" +:+ Go.CRLF.

(** An indexer that accepts every message, and a message on which the
    spam pattern does not match. *)
Definition index_any (_ : string) : option Indexed := Some (mkIndexed "hi" 0).
Definition no_match (_ _ : string) : bool := false.

End LmtpSpec.

(** ** imap_core: COPY and UID COPY *)

Module ImapCopy.
Import Imap.

(** The database calls of the COPY handlers.  The inserts and the
    counter updates of the loop are told apart by the iteration that
    makes them, counted from 0. *)
Inductive CopyCall :=
| FindOneMailbox
| FindMessages
| InsertOneMessage (iteration : nat)
| UpdateOneMailbox (iteration : nat).

Definition set_ID (id : ObjectID) (m : Message) : Message :=
  mkMessage id (Message_Mailbox m) (UID m) (MessageID m) (From m) (To m)
    (CC m) (Subject m) (Date m) (Size m) (BodyText m) (BodyHTML m)
    (InReplyTo m) (Seen m) (Answered m) (Flagged m) (Deleted m) (Draft m)
    (Recent m).

(** [InsertOne(ctx, newMsg)] on messages *)
Definition insertOneMessage (m : Message) (d : Database) : Database :=
  mkDatabase (messages d ++ [m]) (mailboxes d).

Section Copy.
Context {RT : GoRuntime}.
Variable fails : CopyCall -> bool.

(** [primitive.NewObjectID()]: the identifier the call made by the
    iteration [i] of the loop returns. *)
Variable NewObjectID : nat -> ObjectID.

(** The loop [for cursor.Next(ctx)] of [handleCopy] and [handleUIDCopy]:
    the database and the local [destBox.UIDNext]; [i] counts the
    iterations. *)
Fixpoint copy_each (destID : ObjectID) (msgs : list Message)
    (d : Database) (uidNext : Z) (i : nat) : Database :=
  match msgs with
  | [] => d
  | msg :: rest =>
      let newMsg :=
        set_placement destID uidNext (set_ID (NewObjectID i) msg) in
      if fails (InsertOneMessage i) then
        copy_each destID rest d uidNext (S i)
      else
        let d := insertOneMessage newMsg d in
        let d := if fails (UpdateOneMailbox i) then d
                 else incUidNext destID d in
        copy_each destID rest d (uidNext + 1) (S i)
  end.

(** [handleCopy] and [handleUIDCopy] differ by the texts of their
    replies. *)
Definition copy_with (expects completed : string) (tag args : string)
    (s : Session) (w : World) : Result (Session * World) :=
  if negb (SessionState_eqb (state s) StateSelected) then
    Done (s, writeResponse w tag "BAD" SELECTED_NEEDED)
  else
    match Go.SplitN args " " 2 with
    | [seqSet; dest] =>
        destMailbox ← parseMailboxPath dest;
        uid ← session_user_ID s;
        match (if fails FindOneMailbox then None
               else findMailbox uid destMailbox (db w)) with
        | None =>
            Done (s, writeResponse w tag "NO"
                       "[TRYCREATE] Destination mailbox does not exist")
        | Some destBox =>
            box ← selected_ID s;
            let flt := seqset_filter box seqSet in
            if fails FindMessages then
              Done (s, writeResponse w tag "NO" "Database error")
            else
              let d :=
                copy_each (Mailbox_ID destBox) (find flt (db w)) (db w)
                          (UIDNext destBox) 0 in
              Done (s, writeResponse (set_db w d) tag "OK" completed)
        end
    | _ => Done (s, writeResponse w tag "BAD" expects)
    end.

(** [handleCopy] *)
Definition handleCopy : string -> string -> Session -> World
                        -> Result (Session * World) :=
  copy_with "COPY expects sequence set and mailbox" "COPY completed".

(** [handleUIDCopy]; [strconv.ParseInt(uidSet, 10, 64)] reads the number
    as [strconv.Atoi] does. *)
Definition handleUIDCopy : string -> string -> Session -> World
                           -> Result (Session * World) :=
  copy_with "UID COPY expects UID set and mailbox" "UID COPY completed".

End Copy.

End ImapCopy.

(** ** imap_core: SELECT, EXAMINE and the commands on mailboxes *)

Module Mailboxes.

Definition ObjectID := Imap.ObjectID.

(** [Mailbox] as the mailboxes collection stores it ([UIDList] is not
    stored; the two time stamps are left out, no handler reads them). *)
Record Box := mkBox {
  Box_ID : ObjectID;
  Box_User : ObjectID;
  Box_Path : string;
  Subscribed : bool;
  Box_SpecialUse : string;
  Box_UIDValidity : Z;
  Box_UIDNext : Z;
  Box_Flags : list string
}.

Record Store := mkStore {
  messages : list Imap.Message;
  mailboxes : list Box
}.

Record World := mkWorld {
  db : Store;
  out : list string
}.

(** The database calls of these handlers; [fails] tells which return an
    error. *)
Inductive Call :=
| FindOneMailbox
| CountMailboxes
| InsertOneMailbox
| UpdateOneMailbox
| DeleteOneMailbox
| DeleteManyMessages
| FindMessages
| CursorAll.

Definition set_db (w : World) (d : Store) : World := mkWorld d (out w).

(** [writeResponse] and [writeUntaggedResponse] *)
Definition writeResponse (w : World) (tag status text : string) : World :=
  mkWorld (db w)
    (out w ++ [tag +:+ " " +:+ status +:+ " " +:+ text +:+ Go.CRLF]).

Definition writeUntaggedResponse (w : World) (text : string) : World :=
  mkWorld (db w) (out w ++ ["* " +:+ text +:+ Go.CRLF]).

(** The filter [bson.M{"user": user, "path": path}] *)
Definition owned (userID : ObjectID) (path : string) (b : Box) : bool :=
  (Box_User b =? userID) && String.eqb (Box_Path b) path.

Definition findMailbox (userID : ObjectID) (path : string) (d : Store)
  : option Box :=
  head (filter (fun b => owned userID path b = true) (mailboxes d)).

Definition countMailboxes (userID : ObjectID) (path : string) (d : Store)
  : Z :=
  Z.of_nat (length (filter (fun b => owned userID path b = true)
                           (mailboxes d))).

(** The messages [Find(ctx, bson.M{"mailbox": id})] returns. *)
Definition messages_of (id : ObjectID) (d : Store) : list Imap.Message :=
  filter (fun m => Imap.Message_Mailbox m = id) (messages d).

(** The decoded [Mailbox] with its run-time [UIDList]. *)
Definition to_mailbox (b : Box) (uids : list Z) : Imap.Mailbox :=
  Imap.mkMailbox (Box_ID b) (Box_User b) (Box_Path b) (Box_SpecialUse b)
    (Box_UIDValidity b) (Box_UIDNext b) (Box_Flags b) uids.

Definition set_Path (path : string) (b : Box) : Box :=
  mkBox (Box_ID b) (Box_User b) path (Subscribed b) (Box_SpecialUse b)
    (Box_UIDValidity b) (Box_UIDNext b) (Box_Flags b).

Definition set_Subscribed (v : bool) (b : Box) : Box :=
  mkBox (Box_ID b) (Box_User b) (Box_Path b) v (Box_SpecialUse b)
    (Box_UIDValidity b) (Box_UIDNext b) (Box_Flags b).

(** [DeleteOne]: the first document the filter matches goes. *)
Fixpoint delete_first {A : Type} (p : A -> bool) (l : list A) : list A :=
  match l with
  | [] => []
  | x :: t => if p x then t else x :: delete_first p t
  end.

Section Handlers.
Context {RT : GoRuntime}.
Variable fails : Call -> bool.

(** [primitive.NewObjectID()] and [time.Now().Unix()] of [handleCreate],
    which calls each once. *)
Variable NewObjectID : ObjectID.
Variable now : Z.

(** [handleSelect] *)
Definition handleSelect (tag args : string) (s : Imap.Session) (w : World)
  : Result (Imap.Session * World) :=
  if negb (Imap.authenticated s) then
    Done (s, writeResponse w tag "NO" "Not authenticated")
  else
    mailboxPath ← Imap.parseMailboxPath args;
    if String.eqb mailboxPath "" then
      Done (s, writeResponse w tag "BAD" "Invalid mailbox name")
    else
      uid ← Imap.session_user_ID s;
      match (if fails FindOneMailbox then None
             else findMailbox uid mailboxPath (db w)) with
      | None => Done (s, writeResponse w tag "NO" "Mailbox does not exist")
      | Some mailbox =>
          if fails FindMessages then
            Done (s, writeResponse w tag "NO" "Failed to access messages")
          else if fails CursorAll then
            Done (s, writeResponse w tag "NO" "Failed to retrieve messages")
          else
            let messages := messages_of (Box_ID mailbox) (db w) in
            let selected := to_mailbox mailbox (map Imap.UID messages) in
            let s := Imap.mkSession (Imap.authenticated s) (Imap.user s)
                       (Some selected) Imap.StateSelected in
            let w := writeUntaggedResponse w
                       (Go.Itoa (Z.of_nat (length messages)) +:+ " EXISTS") in
            let w := writeUntaggedResponse w "0 RECENT" in
            let flags :=
              Go.Join (["\Answered"; "\Flagged"; "\Deleted"; "\Seen"; "\Draft"]
                       ++ Box_Flags mailbox) " " in
            let w := writeUntaggedResponse w ("FLAGS (" +:+ flags +:+ ")") in
            let w := writeUntaggedResponse w
                       ("OK [PERMANENTFLAGS (" +:+ flags +:+ " \*)] Limited") in
            let w := writeUntaggedResponse w
                       ("OK [UIDNEXT " +:+ Go.Itoa (Box_UIDNext mailbox) +:+
                        "] Predicted next UID") in
            let w := writeUntaggedResponse w
                       ("OK [UIDVALIDITY " +:+
                        Go.Itoa (Box_UIDValidity mailbox) +:+ "] UIDs valid") in
            Done (s, writeResponse w tag "OK"
                       "[READ-WRITE] SELECT completed, now in selected state")
      end.

(** [handleExamine]: [handleSelect] returns the error of its last
    write, which is nil whatever it answered. *)
Definition handleExamine (tag args : string) (s : Imap.Session) (w : World)
  : Result (Imap.Session * World) :=
  '(s, w) ← handleSelect tag args s w;
  Done (s, writeResponse w tag "OK"
             "[READ-ONLY] EXAMINE completed, now in selected state").

(** [handleCreate] *)
Definition handleCreate (tag args : string) (s : Imap.Session) (w : World)
  : Result (Imap.Session * World) :=
  if negb (Imap.authenticated s) then
    Done (s, writeResponse w tag "NO" "Not authenticated")
  else
    mailboxPath ← Imap.parseMailboxPath args;
    if String.eqb mailboxPath "" then
      Done (s, writeResponse w tag "BAD" "Invalid mailbox name")
    else
      uid ← Imap.session_user_ID s;
      if fails CountMailboxes then
        Done (s, writeResponse w tag "NO" "Database error")
      else if 0 <? countMailboxes uid mailboxPath (db w) then
        Done (s, writeResponse w tag "NO"
                   "[ALREADYEXISTS] Mailbox already exists")
      else
        let mailbox := mkBox NewObjectID uid mailboxPath true "" now 1 [] in
        if fails InsertOneMailbox then
          Done (s, writeResponse w tag "NO" "Failed to create mailbox")
        else
          let d := mkStore (messages (db w)) (mailboxes (db w) ++ [mailbox]) in
          Done (s, writeResponse (set_db w d) tag "OK" "CREATE completed").

(** [handleDelete] *)
Definition handleDelete (tag args : string) (s : Imap.Session) (w : World)
  : Result (Imap.Session * World) :=
  if negb (Imap.authenticated s) then
    Done (s, writeResponse w tag "NO" "Not authenticated")
  else
    mailboxPath ← Imap.parseMailboxPath args;
    if String.eqb mailboxPath "" then
      Done (s, writeResponse w tag "BAD" "Invalid mailbox name")
    else
      uid ← Imap.session_user_ID s;
      match (if fails FindOneMailbox then None
             else findMailbox uid mailboxPath (db w)) with
      | None =>
          Done (s, writeResponse w tag "NO"
                     "[NONEXISTENT] Mailbox does not exist")
      | Some mailbox =>
          if negb (String.eqb (Box_SpecialUse mailbox) "") then
            Done (s, writeResponse w tag "NO"
                       "[CANNOT] Cannot delete special mailbox")
          else if fails DeleteManyMessages then
            Done (s, writeResponse w tag "NO" "Failed to delete messages")
          else
            let d :=
              mkStore (filter (fun m => Imap.Message_Mailbox m <> Box_ID mailbox)
                              (messages (db w)))
                      (mailboxes (db w)) in
            let w := set_db w d in
            if fails DeleteOneMailbox then
              Done (s, writeResponse w tag "NO" "Failed to delete mailbox")
            else
              let d :=
                mkStore (messages d)
                  (delete_first (fun b => Box_ID b =? Box_ID mailbox)
                                (mailboxes d)) in
              Done (s, writeResponse (set_db w d) tag "OK" "DELETE completed")
      end.

(** [handleRename] *)
Definition handleRename (tag args : string) (s : Imap.Session) (w : World)
  : Result (Imap.Session * World) :=
  if negb (Imap.authenticated s) then
    Done (s, writeResponse w tag "NO" "Not authenticated")
  else
    match Imap.parseQuotedArguments args with
    | [oldPath; newPath] =>
        uid ← Imap.session_user_ID s;
        if fails CountMailboxes then
          Done (s, writeResponse w tag "NO" "Database error")
        else if 0 <? countMailboxes uid newPath (db w) then
          Done (s, writeResponse w tag "NO"
                     "[ALREADYEXISTS] Destination mailbox already exists")
        else if fails UpdateOneMailbox then
          Done (s, writeResponse w tag "NO" "Database error")
        else
          match findMailbox uid oldPath (db w) with
          | None =>
              (* result.MatchedCount == 0 *)
              Done (s, writeResponse w tag "NO"
                         "[NONEXISTENT] Source mailbox does not exist")
          | Some _ =>
              let d :=
                mkStore (messages (db w))
                  (Imap.update_first (owned uid oldPath) (set_Path newPath)
                                     (mailboxes (db w))) in
              Done (s, writeResponse (set_db w d) tag "OK" "RENAME completed")
          end
    | _ => Done (s, writeResponse w tag "BAD"
                      "RENAME expects old and new mailbox names")
    end.

(** [handleSubscribe] and [handleUnsubscribe] differ by the value they
    set and by the text of the last reply. *)
Definition subscribe_with (v : bool) (completed : string)
    (tag args : string) (s : Imap.Session) (w : World)
  : Result (Imap.Session * World) :=
  if negb (Imap.authenticated s) then
    Done (s, writeResponse w tag "NO" "Not authenticated")
  else
    mailboxPath ← Imap.parseMailboxPath args;
    if String.eqb mailboxPath "" then
      Done (s, writeResponse w tag "BAD" "Invalid mailbox name")
    else
      uid ← Imap.session_user_ID s;
      if fails UpdateOneMailbox then
        Done (s, writeResponse w tag "NO" "Database error")
      else
        match findMailbox uid mailboxPath (db w) with
        | None =>
            Done (s, writeResponse w tag "NO"
                       "[NONEXISTENT] Mailbox does not exist")
        | Some _ =>
            let d :=
              mkStore (messages (db w))
                (Imap.update_first (owned uid mailboxPath) (set_Subscribed v)
                                   (mailboxes (db w))) in
            Done (s, writeResponse (set_db w d) tag "OK" completed)
        end.

Definition handleSubscribe : string -> string -> Imap.Session -> World
                             -> Result (Imap.Session * World) :=
  subscribe_with true "SUBSCRIBE completed".

Definition handleUnsubscribe : string -> string -> Imap.Session -> World
                               -> Result (Imap.Session * World) :=
  subscribe_with false "UNSUBSCRIBE completed".

End Handlers.

End Mailboxes.

(** ** lmtp: the RCPT command *)

Module LmtpRcpt.
Import Lmtp.

(** [models.Address]: the fields [Rcpt] reads. *)
Record AddressDoc := mkAddressDoc {
  Address_User : ObjectID;
  Address_address : string
}.

(** The two lookups of [Rcpt]; [fails] tells which return an error other
    than [mongo.ErrNoDocuments]. *)
Inductive Lookup :=
| FindOneAddress
| FindOneUser.

(** [regexp.MustCompile(`\+[^@]*@`).ReplaceAllString(addr, "@")].  A match
    starts at a [+] that has an [@] somewhere after it and ends at the
    first such [@]; matches are taken from the left and do not overlap.
    [skipping] is true inside a match. *)
Fixpoint removeTag (skipping : bool) (s : string) : string :=
  match s with
  | EmptyString => EmptyString
  | String c t =>
      if skipping then
        if Ascii.eqb c "@" then String "@" (removeTag false t)
        else removeTag true t
      else if (Ascii.eqb c "+" && Go.mem "@" t)%bool then removeTag true t
      else String c (removeTag false t)
  end.

(** [removeAddressTag] *)
Definition removeAddressTag (addr : string) : string := removeTag false addr.

Section Rcpt.
Context {RT : GoRuntime}.
Variable fails : Lookup -> bool.

(** [normalizeAddress] *)
Definition normalizeAddress (addr : string) : string :=
  ToLower (TrimSpace addr).

(** [Session.Rcpt] on the addresses and the users of the database:
    [s.users] afterwards and the error returned. *)
Definition Rcpt (to : string) (addresses : list AddressDoc)
    (users : list User) (session_users : list UserRecipient)
  : list UserRecipient * option SMTPError :=
  let originalRecipient := normalizeAddress to in
  let recipient := removeAddressTag originalRecipient in
  if fails FindOneAddress then
    (session_users, Some (mkSMTPError 450 "Database error"))
  else
    match head (filter (fun a => Address_address a = recipient) addresses) with
    | None => (session_users, Some (mkSMTPError 550 "Unknown recipient"))
    | Some address =>
        if fails FindOneUser then
          (session_users, Some (mkSMTPError 450 "Database error"))
        else
          match head (filter (fun u => User_ID u = Address_User address)
                             users) with
          | None =>
              (session_users, Some (mkSMTPError 550 "Unknown recipient"))
          | Some user =>
              if Disabled user then
                (session_users, Some (mkSMTPError 550 "User disabled"))
              else
                (session_users ++ [mkUserRecipient originalRecipient user],
                 None)
          end
    end.

End Rcpt.

End LmtpRcpt.

(** ** Vocabulary of the further properties (Part III) *)

Module StoreSpec.
Import Imap.

Section Named.
Context {RT : GoRuntime}.


End Named.





(** The five flags of a message, in the order of the columns. *)
Definition flags_of (m : Message) : list bool :=
  [Seen m; Answered m; Flagged m; Deleted m; Draft m].

End StoreSpec.

(** The discipline of the UIDs. *)
Module UidSpec.
Import Imap.

(** Every message of a mailbox of the database has a UID below the
    mailbox's [uidNext]. *)
Definition below_next (d : Database) : Prop :=
  forall m b, m ∈ messages d -> b ∈ mailboxes d ->
              Message_Mailbox m = Mailbox_ID b -> UID m < UIDNext b.

Definition placement (m : Message) : ObjectID * Z :=
  (Message_Mailbox m, UID m).

(** No two messages share a mailbox and a UID. *)
Definition uids_unique (d : Database) : Prop :=
  NoDup (map placement (messages d)).

Definition well_kept (d : Database) : Prop :=
  NoDup (map Mailbox_ID (mailboxes d)) /\
  NoDup (map ID (messages d)) /\
  below_next d /\ uids_unique d.

(** The [k]-th copy a COPY makes. *)
Definition copy_of (NewObjectID : nat -> ObjectID) (dest : ObjectID)
    (uidNext : Z) (k : nat) (m : Message) : Message :=
  set_placement dest (uidNext + Z.of_nat k)
    (ImapCopy.set_ID (NewObjectID k) m).

(** A mailbox with its counter advanced by [n]. *)
Definition advanced (n : Z) (b : Mailbox) : Mailbox :=
  mkMailbox (Mailbox_ID b) (Mailbox_User b) (Path b) (SpecialUse b)
    (UIDValidity b) (UIDNext b + n) (Mailbox_Flags b) (UIDList b).

Definition no_copy_faults : ImapCopy.CopyCall -> bool := fun _ => false.

(** Identifiers for the copies, away from those of [Fixtures]. *)
Definition fresh_ids (k : nat) : ObjectID := 1000 + Z.of_nat k.

End UidSpec.

(** The mailboxes of a user. *)
Module MailboxSpec.
Import Mailboxes.

Definition box_key (b : Box) : ObjectID * string := (Box_User b, Box_Path b).

(** No user has two mailboxes of the same path. *)
Definition paths_unique (d : Store) : Prop :=
  NoDup (map box_key (mailboxes d)).

Definition ids_unique (d : Store) : Prop :=
  NoDup (map Box_ID (mailboxes d)).

(** The lines SELECT writes for the mailbox [b] holding [n] messages. *)
Definition select_lines (tag : string) (b : Box) (n : nat) : list string :=
  let flags :=
    Go.Join (["\Answered"; "\Flagged"; "\Deleted"; "\Seen"; "\Draft"]
             ++ Box_Flags b) " " in
  ["* " +:+ (Go.Itoa (Z.of_nat n) +:+ " EXISTS") +:+ Go.CRLF;
   "* " +:+ "0 RECENT" +:+ Go.CRLF;
   "* " +:+ ("FLAGS (" +:+ flags +:+ ")") +:+ Go.CRLF;
   "* " +:+ ("OK [PERMANENTFLAGS (" +:+ flags +:+ " \*)] Limited") +:+ Go.CRLF;
   "* " +:+ ("OK [UIDNEXT " +:+ Go.Itoa (Box_UIDNext b) +:+
             "] Predicted next UID") +:+ Go.CRLF;
   "* " +:+ ("OK [UIDVALIDITY " +:+ Go.Itoa (Box_UIDValidity b) +:+
             "] UIDs valid") +:+ Go.CRLF;
   tag +:+ " " +:+ "OK" +:+ " " +:+
   "[READ-WRITE] SELECT completed, now in selected state" +:+ Go.CRLF].

Definition examine_line (tag : string) : string :=
  tag +:+ " " +:+ "OK" +:+ " " +:+
  "[READ-ONLY] EXAMINE completed, now in selected state" +:+ Go.CRLF.

Definition no_faults : Call -> bool := fun _ => false.
Definition mailbox_delete_fails (c : Call) : bool :=
  match c with DeleteOneMailbox => true | _ => false end.

Definition alice : Imap.User := Imap.mkUser 1 "alice" 0 0.
Definition logged_in : Imap.Session :=
  Imap.mkSession true (Some alice) None Imap.StateAuthenticated.

Definition inbox : Box := mkBox 10 1 "INBOX" true "\Inbox" 7 6 [].
Definition work : Box := mkBox 11 1 "Work" true "" 8 3 [].
Definition other : Box := mkBox 12 2 "Work" true "" 9 1 [].

(** Two mailboxes of alice and one of another user; a message in each of
    the first two. *)
Definition store : Store :=
  mkStore [Fixtures.message 100 3 false false false;
           Imap.set_placement 11 2 (Fixtures.message 101 0 true false false)]
          [inbox; work; other].

Definition world : World := mkWorld store [].

End MailboxSpec.

(** Recipients and deliveries. *)
Module DeliverySpec.
Import Lmtp.

(** Every message of a mailbox of the database has a UID below the
    mailbox's [uidNext]. *)
Definition below_next (d : Database) : Prop :=
  forall m b, m ∈ messages d -> b ∈ mailboxes d ->
              Message_Mailbox m = Mailbox_ID b -> UID m < UIDNext b.

Definition placement (m : Message) : ObjectID * Z :=
  (Message_Mailbox m, UID m).

Definition well_kept (d : Database) : Prop :=
  NoDup (map Mailbox_ID (mailboxes d)) /\
  below_next d /\
  NoDup (map placement (messages d)).

Definition no_lookup_faults : LmtpRcpt.Lookup -> bool := fun _ => false.

Definition addresses : list LmtpRcpt.AddressDoc :=
  [LmtpRcpt.mkAddressDoc 1 "known@localhost"].

End DeliverySpec.

(** Lines and line ends of a message. *)
Module ParseSpec.
Import Indexer.

(** Every line feed of [s] comes after a carriage return; [after_cr]
    tells whether the byte before [s] was one. *)
Fixpoint line_ends_ok (after_cr : bool) (s : string) : bool :=
  match s with
  | EmptyString => true
  | String c t =>
      (if Ascii.eqb c Go.LF then after_cr else true) &&
      line_ends_ok (Ascii.eqb c Go.CR) t
  end.

(** A text without line feed: one line. *)
Definition one_line (s : string) : Prop := Go.mem Go.LF s = false.

(** The lines of a body without the empty lines it starts with. *)
Fixpoint skip_blank (lines : list string) : list string :=
  match lines with
  | [] => []
  | l :: t => if String.eqb l "" then skip_blank t else lines
  end.

(** The message made of the given lines, a CRLF between two of them. *)
Definition of_lines (lines : list string) : string :=
  Go.Join lines Go.CRLF.

(** The node of a message without parts: the parsed header, the state
    [body] and the body. *)
Definition single_part (n1 : MIMENode) (body : string) : MIMENode :=
  set_Body (set_state (processContentType n1) "body") body.

(** A message of two header lines and four body lines, the first
    empty. *)
Definition note_header : list string :=
  ["Subject: hi"; "Content-Type: text/plain; charset=utf-8"].
Definition note_body : list string := [""; "one"; ""; "two"].

End ParseSpec.

(* ===================================================================== *)
(** The session of a connection between two commands. *)
Module SessionSpec.
Import Imap.

(** What LOGIN and SELECT leave behind them: an authenticated session
    has its user, and a session in the selected state has its mailbox
    and its user. *)
Definition session_ok (s : Session) : Prop :=
  (authenticated s = true -> user s <> None) /\
  (state s = StateSelected -> selectedBox s <> None /\ user s <> None).

(** The handler returns, and the session it leaves is in order. *)
Definition returns_ok {W : Type} (r : Result (Session * W)) : Prop :=
  exists s' w', r = Done (s', w') /\ session_ok s'.

(** The handler panics exactly when [crash] holds, and returns as above
    when it does not. *)
Definition panics_iff {W : Type} (crash : Prop) (r : Result (Session * W))
  : Prop :=
  (r = Panic <-> crash) /\ (~ crash -> returns_ok r).

Section Quote.
Context {RT : GoRuntime}.

(** The argument is a double quote and nothing else but blanks. *)
Definition lone_quote (arg : string) : Prop := TrimSpace arg = Go.dquote.

(** The second of the two arguments of MOVE and COPY is one. *)
Definition lone_quote_second (args : string) : Prop :=
  exists seqSet dest,
    Go.SplitN args " " 2 = [seqSet; dest] /\ lone_quote dest.
End Quote.

End SessionSpec.

(** Trees whose structure does not depend on the order of a map. *)
Module StructureSpec.
Import Indexer.

(** A header value with at most one parameter. *)
Definition few_params (hv : option HeaderValue) : bool :=
  match hv with
  | Some (HValueParams vp) => Nat.leb (size (Params vp)) 1
  | _ => true
  end.

(** The content type and the content disposition of every node of the
    tree, embedded messages included, have at most one parameter. *)
Fixpoint one_param_each (n : MIMENode) : bool :=
  few_params (ParsedHeader n !! "content-type") &&
  few_params (ParsedHeader n !! "content-disposition") &&
  forallb one_param_each (ChildNodes n) &&
  match Message n with
  | Some m => one_param_each m
  | None => true
  end.

End StructureSpec.

(** Well-formed UTF-8. *)
Module RuneSpec.

(** A byte of 0x80 or more: it belongs to a sequence of several. *)
Definition high (c : ascii) : bool := negb (Go.byte_value c <? 0x80).

(** The bytes [r] are the encoding of a rune: at the head of any text
    they decode to themselves, in their full width. *)
Definition encoded (r : string) : Prop :=
  r <> "" /\
  forall rest, Go.DecodeRuneInString (r +:+ rest) = (r, String.length r).

(** An encoding is one ASCII byte or a sequence of high bytes. *)
Definition plain (r : string) : Prop :=
  (exists c, r = String c "" /\ high c = false) \/
  (r <> "" /\ forallb high (list_ascii_of_string r) = true).

(** The text that a list of encodings spells. *)
Definition glue (rs : list string) : string :=
  fold_right String.append "" rs.

(** The name of a mailbox with a letter of two bytes in it. *)
Definition drafts : string :=
  "Entw" +:+ String "195"%char (String "188"%char "rfe").

End RuneSpec.

(** * Part II.  Properties                                                *)
(* ===================================================================== *)

(** ** Queries on the messages collection *)

Section Queries.
Import Imap.

Lemma matches_deleted_in (box : ObjectID) (m : Message) :
  matches (deleted_in box) m = true <->
  Message_Mailbox m = box /\ Deleted m = true.
Proof.
  unfold matches, deleted_in. simpl. rewrite andb_true_r.
  rewrite andb_true_iff, Z.eqb_eq. reflexivity.
Qed.


End Queries.

(** ** CLOSE *)

Section Close.
Import Imap.
Variable fails : DbCall -> bool.

(** C10.  In the selected state [CLOSE] writes the tagged OK and nothing
    else, clears the selection and puts the session back in the
    authenticated state, whether or not the deletion succeeded; when it
    succeeded, the messages of the selected mailbox flagged [\Deleted]
    are gone from the collection and every other message is kept. *)
Theorem close_expunges_silently (tag : string) (s : Session) (w : World) :
  state s = StateSelected ->
  exists s' w',
    handleClose fails tag s w = Done (s', w') /\
    selectedBox s' = None /\
    state s' = StateAuthenticated /\
    authenticated s' = authenticated s /\
    user s' = user s /\
    out w' = out w ++ [tag +:+ " OK CLOSE completed" +:+ Go.CRLF] /\
    mailboxes (db w') = mailboxes (db w) /\
    match selectedBox s with
    | Some box =>
        if fails DeleteManyMessages
        then messages (db w') = messages (db w)
        else messages (db w') =
             filter (fun m => ~ (Message_Mailbox m = Mailbox_ID box /\
                                 Deleted m = true))
                    (messages (db w))
    | None => messages (db w') = messages (db w)
    end.
Proof.
  intros Hsel. unfold handleClose. rewrite Hsel. simpl.
  eexists _, _. split; [reflexivity|]. simpl.
  repeat split.
  - destruct (selectedBox s), (fails DeleteManyMessages); reflexivity.
  - destruct (selectedBox s), (fails DeleteManyMessages); reflexivity.
  - destruct (selectedBox s) as [box|]; [|reflexivity].
    destruct (fails DeleteManyMessages); [reflexivity|]. simpl.
    apply list_filter_iff. intros m.
    rewrite <- matches_deleted_in. symmetry. apply not_true_iff_false.
Qed.

End Close.

Lemma close_expunges_silently_witness :
  Imap.state Fixtures.selected = Imap.StateSelected /\
  exists s' w',
    Imap.handleClose Fixtures.no_faults "A1" Fixtures.selected
      (Fixtures.world Fixtures.two_messages) = Done (s', w') /\
    Imap.out w' = ["A1 OK CLOSE completed" +:+ Go.CRLF].
Proof.
  split; [reflexivity|].
  destruct (close_expunges_silently Fixtures.no_faults "A1"
              Fixtures.selected (Fixtures.world Fixtures.two_messages)
              eq_refl)
    as (s' & w' & H & _ & _ & _ & _ & Hout & _).
  exists s', w'. split; [|exact Hout].
  exact H.
Defined.

(** ** EXPUNGE *)

Section Expunge.
Import Imap.
Variable fails : DbCall -> bool.

Lemma expunge_lines_out (uids : list Z) (w : World) :
  out (expunge_lines uids w) =
  out w ++
  map (fun uid => "* " +:+ (Go.Itoa uid +:+ " EXPUNGE") +:+ Go.CRLF) uids.
Proof.
  revert w. induction uids as [|uid uids IH]; intros w; simpl.
  - by rewrite app_nil_r.
  - unfold expunge_lines in *. simpl. rewrite IH. simpl.
    by rewrite <- app_assoc.
Qed.

Lemma expunge_lines_db (uids : list Z) (w : World) :
  db (expunge_lines uids w) = db w.
Proof.
  revert w. induction uids as [|uid uids IH]; intros w; simpl; [done|].
  unfold expunge_lines in *. simpl. by rewrite IH.
Qed.

Global Instance uid_le_total : Total uid_le.
Proof. intros a b. unfold uid_le. lia. Qed.

(** C5, as the handler has it.  [EXPUNGE] in the selected state, when the
    database answers, removes exactly the messages of the selected mailbox
    flagged [\Deleted], and writes one untagged line per removed message,
    in ascending order of UID, that carries the UID of the message, then
    the tagged OK. *)
Theorem expunge_removes_deleted (tag : string) (s : Session) (w : World)
    (box : Mailbox) :
  state s = StateSelected ->
  selectedBox s = Some box ->
  fails FindMessages = false ->
  fails DeleteManyMessages = false ->
  exists w' uids,
    handleExpunge fails tag s w = Done (s, w') /\
    messages (db w') =
      filter (fun m => ~ (Message_Mailbox m = Mailbox_ID box /\ Deleted m = true))
             (messages (db w)) /\
    mailboxes (db w') = mailboxes (db w) /\
    uids ≡ₚ map UID (filter (fun m => Message_Mailbox m = Mailbox_ID box /\
                                      Deleted m = true) (messages (db w))) /\
    Sorted Z.le uids /\
    out w' = out w ++ Spec.expunge_reply tag uids.
Proof.
  intros Hsel Hbox Hfind Hdel.
  unfold handleExpunge, selected_ID. rewrite Hsel, Hbox. simpl.
  rewrite Hfind, Hdel.
  eexists _, (map UID (find_sorted (deleted_in (Mailbox_ID box)) (db w))).
  split; [reflexivity|]. simpl.
  rewrite expunge_lines_out, expunge_lines_db. simpl.
  repeat split.
  - apply list_filter_iff. intros m.
    rewrite <- matches_deleted_in. symmetry. apply not_true_iff_false.
  - unfold find_sorted. apply fmap_Permutation.
    rewrite merge_sort_Permutation. unfold find.
    erewrite list_filter_iff; [reflexivity|].
    intros m. apply matches_deleted_in.
  - unfold find_sorted.
    apply (Sorted_fmap UID uid_le Z.le); [auto|].
    apply Sorted_merge_sort. apply _.
  - unfold Spec.expunge_reply. by rewrite <- app_assoc.
Qed.

End Expunge.

Lemma expunge_removes_deleted_witness :
  exists w' uids,
    Imap.handleExpunge Fixtures.no_faults "A1" Fixtures.selected
      (Fixtures.world Fixtures.two_messages) = Done (Fixtures.selected, w') /\
    Imap.out w' = Spec.expunge_reply "A1" uids.
Proof.
  destruct (expunge_removes_deleted Fixtures.no_faults "A1" Fixtures.selected
              (Fixtures.world Fixtures.two_messages) Fixtures.inbox
              eq_refl eq_refl eq_refl eq_refl)
    as (w' & uids & H & _ & _ & _ & _ & Hout).
  exists w', uids. split; [exact H | exact Hout].
Defined.

(** C5, as the specification has it, fails: with UID 5 the only message of
    the selected mailbox, flagged [\Deleted], its sequence number is 1 but
    the line written is [* 5 EXPUNGE]. *)
Lemma expunge_sends_uid_not_seqnum :
  exists w',
    Imap.handleExpunge Fixtures.no_faults "A1" Fixtures.selected
      (Fixtures.world Fixtures.one_deleted) = Done (Fixtures.selected, w') /\
    Imap.out w' = ["* 5 EXPUNGE" +:+ Go.CRLF;
                   "A1 OK EXPUNGE completed" +:+ Go.CRLF] /\
    Spec.seqnum Fixtures.one_deleted 10 5 = 1 /\
    forall renumber,
      Imap.out w' <>
      Spec.expunge_reply "A1"
        (Spec.expunge_seqnums renumber Fixtures.one_deleted 10).
Proof.
  eexists. split; [vm_compute; reflexivity|].
  split; [vm_compute; reflexivity|].
  split; [vm_compute; reflexivity|].
  intros [|]; vm_compute; discriminate.
Qed.

(** ** APPEND *)

Section Append.
Import Imap.
Variable fails : DbCall -> bool.

(** [handleAppend] writes nothing to the database and leaves the session
    as it was. *)
Lemma append_stores_nothing (tag args : string) (s s' : Session) (w w' : World) :
  handleAppend fails tag args s w = Done (s', w') -> s' = s /\ db w' = db w.
Proof.
  unfold handleAppend, session_user_ID.
  destruct (authenticated s); simpl; [|by inversion 1].
  destruct (parseQuotedArguments args) as [|mailboxPath [|? ?]];
    try (by inversion 1).
  destruct (user s) as [u|]; simpl; [|discriminate].
  destruct (if fails FindOneMailbox then None
            else findMailbox (User_ID u) mailboxPath (db w));
    by inversion 1.
Qed.


End Append.



(** ** MOVE *)

Section Move.
Import Imap Spec.
Context {RT : GoRuntime}.
Variable fails : DbCall -> bool.










End Move.



(** ** STORE *)

(** C4 at a concrete input.  UID 3 of the selected INBOX is flagged
    [\Flagged] alone and UID 5 [\Deleted] alone.  [STORE 3 +FLAGS (\Seen)]
    sets [\Seen] on UID 3 and clears its [\Flagged], which the command does
    not name; [STORE 5 -FLAGS.SILENT (\Seen)] clears the [\Deleted] of
    UID 5.  The silent form writes the tagged OK alone. *)
Theorem store_add_and_remove_overwrite_all_flags :
  (exists w',
     @Imap.handleStore AsciiRuntime Fixtures.no_faults "A5" "3 +FLAGS (\Seen)"
       Fixtures.selected (Fixtures.world Fixtures.two_messages)
     = Done (Fixtures.selected, w') /\
     Fixtures.flags_of (Fixtures.world Fixtures.two_messages) =
       [(3, [false; false; true; false; false]);
        (5, [false; false; false; true; false])] /\
     Fixtures.flags_of w' =
       [(3, [true; false; false; false; false]);
        (5, [false; false; false; true; false])] /\
     Imap.out w' = ["* 3 FETCH (FLAGS (\Seen))" +:+ Go.CRLF;
                    "A5 OK STORE completed" +:+ Go.CRLF]) /\
  (exists w',
     @Imap.handleStore AsciiRuntime Fixtures.no_faults "A6"
       "5 -FLAGS.SILENT (\Seen)"
       Fixtures.selected (Fixtures.world Fixtures.two_messages)
     = Done (Fixtures.selected, w') /\
     Fixtures.flags_of w' =
       [(3, [false; false; true; false; false]);
        (5, [false; false; false; false; false])] /\
     Imap.out w' = ["A6 OK STORE completed" +:+ Go.CRLF]) /\
  (exists w',
     @Imap.handleUIDStore AsciiRuntime Fixtures.no_faults "A7"
       "3 +FLAGS.SILENT (\Seen)"
       Fixtures.selected (Fixtures.world Fixtures.two_messages)
     = Done (Fixtures.selected, w') /\
     Fixtures.flags_of w' =
       [(3, [true; false; false; false; false]);
        (5, [false; false; false; true; false])] /\
     Imap.out w' = ["A7 OK UID STORE completed" +:+ Go.CRLF]).
Proof.
  repeat split; eexists; repeat split; vm_compute; reflexivity.
Qed.

(** ** FETCH *)

(** C3 at a concrete input.  UID 3 of the selected INBOX is unseen.
    [FETCH 3 RFC822.SIZE], a fetch of a metadata item alone, sets its
    [\Seen]: the item name holds [RFC822], so the handler also takes the
    branch of the full message.  [FETCH 3 (FLAGS BODY.PEEK[HEADER])] leaves
    the flags as they were. *)
Theorem fetch_size_marks_seen :
  (exists w',
     @Imap.handleFetch AsciiRuntime Fixtures.no_faults Fixtures.nil_refused
       "A4" "3 RFC822.SIZE"
       Fixtures.selected (Fixtures.world Fixtures.two_messages)
     = Done (Fixtures.selected, w') /\
     Fixtures.flags_of (Fixtures.world Fixtures.two_messages) =
       [(3, [false; false; true; false; false]);
        (5, [false; false; false; true; false])] /\
     Fixtures.flags_of w' =
       [(3, [true; false; true; false; false]);
        (5, [false; false; false; true; false])]) /\
  (exists w',
     @Imap.handleUIDFetch AsciiRuntime Fixtures.no_faults Fixtures.nil_refused
       "A4" "3 (UID RFC822.SIZE ENVELOPE)"
       Fixtures.selected (Fixtures.world Fixtures.two_messages)
     = Done (Fixtures.selected, w') /\
     Fixtures.flags_of w' =
       [(3, [true; false; true; false; false]);
        (5, [false; false; false; true; false])]) /\
  (exists w',
     @Imap.handleFetch AsciiRuntime Fixtures.no_faults Fixtures.nil_refused
       "A4" "3 (FLAGS BODY.PEEK[HEADER])"
       Fixtures.selected (Fixtures.world Fixtures.two_messages)
     = Done (Fixtures.selected, w') /\
     Fixtures.flags_of w' =
       Fixtures.flags_of (Fixtures.world Fixtures.two_messages)).
Proof.
  repeat split; eexists; repeat split; vm_compute; reflexivity.
Qed.

(** ** LMTP DATA *)

Section LmtpData.
Import Lmtp.
Context {RT : GoRuntime}.
Variable SpamHeader : string.
Variable ProcessMessage : string -> option Indexed.
Variable MatchString : string -> string -> bool.
Variable fails : DbCall -> bool.

Lemma process_each_length (rawMessage : string)
    (recipients : list UserRecipient) (d : Database) :
  length (snd (process_each SpamHeader ProcessMessage MatchString fails
                 rawMessage recipients d)) = length recipients.
Proof.
  revert d. induction recipients as [|r rs IH]; intros d; simpl; [done|].
  destruct (processMessage _ _ _ _ _ r d) as [d1 err].
  specialize (IH d1).
  destruct (process_each _ _ _ _ rawMessage rs d1) as [d2 responses].
  simpl in *. by rewrite IH.
Qed.

(** After the end of data there is one reply line per accepted recipient,
    and all the lines carry the same status: 250 as soon as the delivery
    to one recipient succeeded, 450 when every delivery failed. *)
Lemma data_replies_one_status (rawMessage : string)
    (recipients : list UserRecipient) (d : Database) :
  length (reply_codes SpamHeader ProcessMessage MatchString fails
            (Some rawMessage) recipients d) = length recipients /\
  exists status,
    (status = 250 \/ status = 450) /\
    reply_codes SpamHeader ProcessMessage MatchString fails
      (Some rawMessage) recipients d = map (fun _ => status) recipients.
Proof.
  unfold reply_codes. split; [by rewrite length_map|].
  unfold Data.
  destruct (process_each _ _ _ _ rawMessage recipients d) as [d' responses].
  destruct (existsb _ responses); simpl; eauto.
Qed.

End LmtpData.

(** C1 at a concrete input.  Two recipients were accepted; the first owns
    an INBOX, the second owns no mailbox, so that the delivery to the first
    succeeds and the delivery to the second fails.  [Data] returns nil:
    both reply lines are 250, where the reply due to the second recipient
    is 450. *)
Theorem data_hides_failed_recipient :
  snd (@Lmtp.process_each AsciiRuntime "X-Spam-Flag" LmtpSpec.index_any
         LmtpSpec.no_match LmtpSpec.no_faults LmtpSpec.letter
         LmtpSpec.recipients LmtpSpec.store)
    = [None;
       Some (Lmtp.mkSMTPError 450
               "Error processing message: failed to find INBOX")] /\
  snd (@Lmtp.Data AsciiRuntime "X-Spam-Flag" LmtpSpec.index_any
         LmtpSpec.no_match LmtpSpec.no_faults (Some LmtpSpec.letter)
         LmtpSpec.recipients LmtpSpec.store) = None /\
  @Lmtp.reply_codes AsciiRuntime "X-Spam-Flag" LmtpSpec.index_any
    LmtpSpec.no_match LmtpSpec.no_faults (Some LmtpSpec.letter)
    LmtpSpec.recipients LmtpSpec.store = [250; 250] /\
  @LmtpSpec.per_recipient_codes AsciiRuntime "X-Spam-Flag" LmtpSpec.index_any
    LmtpSpec.no_match LmtpSpec.no_faults LmtpSpec.letter
    LmtpSpec.recipients LmtpSpec.store = [250; 450] /\
  map Lmtp.Message_User
      (Lmtp.messages
         (fst (@Lmtp.Data AsciiRuntime "X-Spam-Flag" LmtpSpec.index_any
                 LmtpSpec.no_match LmtpSpec.no_faults (Some LmtpSpec.letter)
                 LmtpSpec.recipients LmtpSpec.store))) = [1].
Proof.
  repeat split; vm_compute; reflexivity.
Qed.

(** ** The header block of a MIME node *)

Section HeaderFacts.
Import Indexer IndexerSpec.
Context {RT : GoRuntime}.

Lemma append_cons (c : ascii) (a b : string) :
  String c a +:+ b = String c (a +:+ b).
Proof. reflexivity. Qed.

Lemma append_assoc (a b c : string) : (a +:+ b) +:+ c = a +:+ (b +:+ c).
Proof.
  induction a as [|x a IH]; [reflexivity|].
  by rewrite !append_cons, IH.
Qed.

Lemma starts_with_space_app (a b : string) :
  a <> "" -> starts_with_space (a +:+ b) = starts_with_space a.
Proof. by destruct a. Qed.

Lemma append_nonempty (a b : string) : a <> "" -> a +:+ b <> "".
Proof. by destruct a. Qed.

Lemma unfold_from_snoc_plain (cur : string) (mid : list string) (h : string) :
  starts_with_space h = false ->
  unfold_from cur (mid ++ [h]) = unfold_from cur mid ++ [h].
Proof.
  intros Hh. revert cur. induction mid as [|x mid IH]; intros cur; simpl.
  - by rewrite Hh.
  - destruct (starts_with_space x); [apply IH|]. by rewrite IH.
Qed.

Lemma unfold_from_snoc_cont (cur : string) (mid : list string)
    (prev h : string) :
  prev <> "" ->
  starts_with_space h = true ->
  unfold_from cur (mid ++ [prev; h]) =
  unfold_from cur (mid ++ [prev +:+ Go.CRLF +:+ h]).
Proof.
  intros Hprev Hh. revert cur. induction mid as [|x mid IH]; intros cur; simpl.
  - rewrite Hh, (starts_with_space_app prev) by done.
    destruct (starts_with_space prev); [|done].
    by rewrite !append_assoc.
  - destruct (starts_with_space x); [apply IH|]. by rewrite IH.
Qed.

Lemma unfold_header_snoc_plain (pre : list string) (h : string) :
  pre = [] \/ starts_with_space h = false ->
  unfold_header (pre ++ [h]) = unfold_header pre ++ [h].
Proof.
  destruct pre as [|x pre]; [done|]. intros [?|Hh]; [done|]. simpl.
  by apply unfold_from_snoc_plain.
Qed.

Lemma unfold_header_snoc_cont (pre : list string) (prev h : string) :
  prev <> "" ->
  starts_with_space h = true ->
  unfold_header (pre ++ [prev; h]) =
  unfold_header (pre ++ [prev +:+ Go.CRLF +:+ h]).
Proof.
  intros Hprev Hh. destruct pre as [|x pre]; simpl.
  - by rewrite Hh.
  - by apply unfold_from_snoc_cont.
Qed.

Lemma snoc_case {A : Type} (l : list A) :
  l = [] \/ exists x l', l = l' ++ [x].
Proof. induction l using rev_ind; eauto. Qed.

Lemma store_all_app (l1 l2 : list string) (ph : gmap string HeaderValue) :
  store_all (l1 ++ l2) ph = (ph' ← store_all l1 ph; store_all l2 ph').
Proof.
  revert ph. induction l1 as [|x l1 IH]; intros ph; simpl; [done|].
  destruct (store_header ph x) as [ph1| |]; simpl; [apply IH|done..].
Qed.

(** The first loop of [processNodeHeader] on the lines [pre] (followed by
    lines [suf] it is already done with): it leaves the unfolded lines,
    and has stored them from the last to the first. *)
Lemma fold_headers_spec (n : nat) :
  forall (pre suf : list string) (ph : gmap string HeaderValue),
    length pre = n ->
    Forall (fun l => l <> "") pre ->
    fold_headers n (pre ++ suf) ph =
    (ph' ← store_all (rev (unfold_header pre)) ph;
     Done (unfold_header pre ++ suf, ph')).
Proof.
  induction n as [|i IH]; intros pre suf ph Hlen Hne.
  - destruct pre; [done | discriminate].
  - destruct (snoc_case pre) as [->|(h & pre' & ->)]; [discriminate|].
    rewrite length_app in Hlen. simpl in Hlen.
    assert (Hi : i = length pre') by lia.
    apply Forall_app in Hne as [Hne' Hh]. apply Forall_inv in Hh.
    cbn [fold_headers].
    rewrite <- app_assoc. cbn [app].
    rewrite (list_lookup_middle pre' suf h i Hi).
    destruct (Nat.ltb 0 i && starts_with_space h)%bool eqn:Hc.
    + apply andb_true_iff in Hc as [Hpos Hsp].
      apply Nat.ltb_lt in Hpos.
      destruct (snoc_case pre') as [->|(prev & pre'' & ->)];
        [simpl in Hi; lia|].
      rewrite length_app in Hi. simpl in Hi.
      apply Forall_app in Hne' as [Hne'' Hprev]. apply Forall_inv in Hprev.
      assert (Hi' : (i - 1)%nat = length pre'') by lia.
      rewrite <- app_assoc. cbn [app].
      rewrite (list_lookup_middle pre'' (h :: suf) prev _ Hi').
      set (merged := prev +:+ Go.CRLF +:+ h).
      assert (Hins : <[(i - 1)%nat := merged]> (pre'' ++ prev :: h :: suf) =
                     pre'' ++ merged :: h :: suf).
      { rewrite Hi', (insert_app_r_alt pre'') by lia.
        by rewrite Nat.sub_diag. }
      assert (Hdel : delete i (pre'' ++ merged :: h :: suf) =
                     (pre'' ++ [merged]) ++ suf).
      { replace (pre'' ++ merged :: h :: suf)
          with ((pre'' ++ [merged]) ++ h :: suf) by (by rewrite <- app_assoc).
        replace i with (length (pre'' ++ [merged]))
          by (rewrite length_app; simpl; lia).
        apply delete_middle. }
      rewrite Hins, Hdel.
      rewrite IH.
      * replace ((pre'' ++ [prev]) ++ [h]) with (pre'' ++ [prev; h])
          by (by rewrite <- app_assoc).
        by rewrite (unfold_header_snoc_cont pre'' prev h).
      * rewrite length_app. simpl. lia.
      * apply Forall_app. split; [done|]. apply Forall_singleton.
        by apply append_nonempty.
    + assert (Hplain : pre' = [] \/ starts_with_space h = false).
      { apply andb_false_iff in Hc as [Hc|Hc]; [|by right].
        left. apply Nat.ltb_ge in Hc. destruct pre'; [done|simpl in Hi; lia]. }
      rewrite (unfold_header_snoc_plain pre' h Hplain).
      rewrite rev_unit. cbn [store_all].
      destruct (store_header ph h) as [ph1| |]; simpl; [|done..].
      rewrite (IH pre' (h :: suf) ph1 (eq_sym Hi) Hne').
      destruct (store_all (rev (unfold_header pre')) ph1); simpl; [|done..].
      by rewrite <- app_assoc.
Qed.

Lemma accumulated_cons (v : string) (vs : list string) :
  accumulated (v :: vs) =
  match accumulated vs with
  | None => Some (HString v)
  | Some (HString e) => Some (HList [v; e])
  | Some (HList arr) => Some (HList (v :: arr))
  | Some other => Some other
  end.
Proof. by destruct vs as [|e [|e' vs]]. Qed.

(** Storing the logical lines from the last to the first leaves, under
    every key, its values in input order. *)
Lemma store_all_rev_lookup (lines : list string) :
  exists ph,
    store_all (rev lines) ∅ = Done ph /\
    forall k, ph !! k = accumulated (omap (key_value k) lines).
Proof.
  induction lines as [|a lines IH].
  - exists ∅. split; [done|]. intros k. by rewrite lookup_empty.
  - destruct IH as (ph1 & Hrun & Hlook).
    simpl rev. rewrite store_all_app, Hrun. simpl.
    unfold store_header.
    destruct (header_entry a) as [[ka va]|] eqn:Ha.
    + pose proof (Hlook ka) as Hka.
      assert (Hother : forall k, k <> ka -> key_value k a = None).
      { intros k Hk. unfold key_value. rewrite Ha.
        destruct (String.eqb_spec ka k); [congruence|done]. }
      assert (Hself : key_value ka a = Some va).
      { unfold key_value. by rewrite Ha, String.eqb_refl. }
      assert (Hfin : forall hv,
                accumulated (va :: omap (key_value ka) lines) = Some hv ->
                forall k, <[ka := hv]> ph1 !! k =
                          accumulated (omap (key_value k) (a :: lines))).
      { intros hv Hhv k. simpl. destruct (decide (k = ka)) as [->|Hk].
        - by rewrite lookup_insert_eq, Hself.
        - rewrite lookup_insert_ne by done. by rewrite (Hother k Hk). }
      rewrite accumulated_cons, <- Hka in Hfin.
      destruct (ph1 !! ka) as [[e|arr|vp|l]|] eqn:E.
      * eexists. split; [done|]. by apply Hfin.
      * eexists. split; [done|]. by apply Hfin.
      * exfalso. destruct (omap (key_value ka) lines) as [|? [|? ?]];
          discriminate Hka.
      * exfalso. destruct (omap (key_value ka) lines) as [|? [|? ?]];
          discriminate Hka.
      * eexists. split; [done|]. by apply Hfin.
    + exists ph1. split; [done|]. intros k. simpl.
      unfold key_value at 1. by rewrite Ha.
Qed.

(** What a pass over some keys does to the header: [G] on each of the
    keys, nothing elsewhere, provided the values under those keys are
    still the accumulated ones. *)
Lemma for_keys_lookup
    (f : string -> gmap string HeaderValue -> Result (gmap string HeaderValue))
    (G : option HeaderValue -> option HeaderValue) (keys : list string) :
  (forall key ph0,
     (exists vs, ph0 !! key = accumulated vs) ->
     exists ph1, f key ph0 = Done ph1 /\
                 ph1 !! key = G (ph0 !! key) /\
                 forall k, k <> key -> ph1 !! k = ph0 !! k) ->
  NoDup keys ->
  forall ph,
    (forall key, key ∈ keys -> exists vs, ph !! key = accumulated vs) ->
    exists ph',
      for_keys f keys ph = Done ph' /\
      forall k, ph' !! k = if bool_decide (k ∈ keys) then G (ph !! k)
                           else ph !! k.
Proof.
  intros Hstep. induction keys as [|key keys IH]; intros Hnd ph Hacc.
  - exists ph. split; [done|]. intros k.
    rewrite bool_decide_eq_false_2; [done | apply not_elem_of_nil].
  - apply NoDup_cons in Hnd as [Hkey Hnd].
    destruct (Hstep key ph) as (ph1 & Hrun & Hself & Hother).
    { apply Hacc. left. }
    destruct (IH Hnd ph1) as (ph' & Hrun' & Hlook).
    { intros key' Hin. rewrite Hother by (intros ->; done).
      apply Hacc. by right. }
    exists ph'. split; [simpl; by rewrite Hrun|].
    intros k. rewrite Hlook.
    destruct (decide (k = key)) as [->|Hk].
    + rewrite bool_decide_eq_false_2 by done.
      rewrite bool_decide_eq_true_2 by left. done.
    + rewrite Hother by done.
      destruct (bool_decide (k ∈ keys)) eqn:E.
      * apply bool_decide_eq_true in E.
        rewrite bool_decide_eq_true_2; [done | by right].
      * apply bool_decide_eq_false in E.
        rewrite bool_decide_eq_false_2; [done|].
        intros [?|?]%elem_of_cons; done.
Qed.

Lemma last_value_Done (v1 v2 : string) (vs : list string) :
  exists v, last (v1 :: v2 :: vs) = Some v /\
            last_value (v1 :: v2 :: vs) = Done v.
Proof.
  unfold last_value.
  destruct (last (v1 :: v2 :: vs)) as [v|] eqn:E; [eauto|].
  by apply last_None in E.
Qed.

Lemma parse_structured_step (key : string) (ph0 : gmap string HeaderValue) :
  (exists vs, ph0 !! key = accumulated vs) ->
  exists ph1, parse_structured key ph0 = Done ph1 /\
              ph1 !! key = structured_of (ph0 !! key) /\
              forall k, k <> key -> ph1 !! k = ph0 !! k.
Proof.
  intros [vs Hvs]. unfold parse_structured. rewrite Hvs.
  destruct vs as [|v1 [|v2 vs]]; cbn [accumulated].
  - exists ph0. by rewrite Hvs.
  - eexists. split; [done|]. rewrite lookup_insert_eq. split; [done|].
    intros k Hk. by rewrite lookup_insert_ne.
  - destruct (last_value_Done v1 v2 vs) as (v & Hlast & Hlv).
    rewrite Hlv. cbn [mbind Result_bind structured_of].
    eexists. split; [done|]. rewrite lookup_insert_eq.
    split; [by rewrite Hlast|].
    intros k Hk. by rewrite lookup_insert_ne.
Qed.

Lemma single_value_step (key : string) (ph0 : gmap string HeaderValue) :
  (exists vs, ph0 !! key = accumulated vs) ->
  exists ph1, single_value key ph0 = Done ph1 /\
              ph1 !! key = single_of (ph0 !! key) /\
              forall k, k <> key -> ph1 !! k = ph0 !! k.
Proof.
  intros [vs Hvs]. unfold single_value. rewrite Hvs.
  destruct vs as [|v1 [|v2 vs]]; cbn [accumulated].
  - exists ph0. by rewrite Hvs.
  - exists ph0. by rewrite Hvs.
  - destruct (last_value_Done v1 v2 vs) as (v & Hlast & Hlv).
    rewrite Hlv. cbn [mbind Result_bind single_of].
    eexists. split; [done|]. rewrite lookup_insert_eq.
    split; [by rewrite Hlast|].
    intros k Hk. by rewrite lookup_insert_ne.
Qed.

Lemma parse_address_field_step (key : string)
    (ph0 : gmap string HeaderValue) :
  (exists vs, ph0 !! key = accumulated vs) ->
  exists ph1, parse_address_field key ph0 = Done ph1 /\
              ph1 !! key = addresses_of (ph0 !! key) /\
              forall k, k <> key -> ph1 !! k = ph0 !! k.
Proof.
  intros [vs Hvs]. unfold parse_address_field. rewrite Hvs.
  destruct vs as [|v1 [|v2 vs]]; cbn [accumulated addresses_of mbind Result_bind].
  - exists ph0. by rewrite Hvs.
  - destruct (address_values [v1]) as [|a l] eqn:E.
    + exists ph0. by rewrite Hvs.
    + eexists. split; [done|]. rewrite lookup_insert_eq. split; [done|].
      intros k Hk. by rewrite lookup_insert_ne.
  - destruct (address_values (v1 :: v2 :: vs)) as [|a l] eqn:E.
    + exists ph0. by rewrite Hvs.
    + eexists. split; [done|]. rewrite lookup_insert_eq. split; [done|].
      intros k Hk. by rewrite lookup_insert_ne.
Qed.

Lemma structured_of_accumulated (vs : list string) :
  structured_of (accumulated vs) =
  (fun v => HValueParams (parseValueParams v)) <$> last vs.
Proof. by destruct vs as [|v1 [|v2 vs]]. Qed.

Lemma single_of_accumulated (vs : list string) :
  single_of (accumulated vs) = last_wins vs.
Proof. by destruct vs as [|v1 [|v2 vs]]. Qed.

Lemma addresses_of_accumulated (vs : list string) :
  addresses_of (accumulated vs) =
  match address_values vs with
  | [] => accumulated vs
  | addresses => Some (HAddresses addresses)
  end.
Proof. by destruct vs as [|v1 [|v2 vs]]. Qed.

Lemma in_single_not_structured (k : string) :
  k ∈ singleValueFields -> k ∉ ["content-type"; "content-disposition"].
Proof.
  unfold singleValueFields. intros Hk Hk'.
  repeat (apply elem_of_cons in Hk as [->|Hk];
          [repeat (apply elem_of_cons in Hk' as [Hk'|Hk']; [discriminate Hk'|]);
           by apply elem_of_nil in Hk'|]).
  by apply elem_of_nil in Hk.
Qed.

Lemma in_address_not_structured (k : string) :
  k ∈ addressFields -> k ∉ ["content-type"; "content-disposition"].
Proof.
  unfold addressFields. intros Hk Hk'.
  repeat (apply elem_of_cons in Hk as [->|Hk];
          [repeat (apply elem_of_cons in Hk' as [Hk'|Hk']; [discriminate Hk'|]);
           by apply elem_of_nil in Hk'|]).
  by apply elem_of_nil in Hk.
Qed.

Lemma in_address_not_single (k : string) :
  k ∈ addressFields -> k ∉ singleValueFields.
Proof.
  unfold addressFields, singleValueFields. intros Hk Hk'.
  repeat (apply elem_of_cons in Hk as [->|Hk];
          [repeat (apply elem_of_cons in Hk' as [Hk'|Hk']; [discriminate Hk'|]);
           by apply elem_of_nil in Hk'|]).
  by apply elem_of_nil in Hk.
Qed.

(** [processNodeHeader] on a fresh node: it returns, and what it leaves
    is the unfolded lines and the value of every key by its kind. *)
Lemma processNodeHeader_by_kind (n : MIMENode) :
  ParsedHeader n = ∅ ->
  Forall (fun l => l <> "") (Header n) ->
  exists n',
    processNodeHeader n = Done n' /\
    Header n' = unfold_header (Header n) /\
    forall key,
      ParsedHeader n' !! key = parsed_value key (header_values key (Header n)).
Proof.
  intros Hempty Hne. unfold processNodeHeader. rewrite Hempty.
  pose proof (fold_headers_spec (length (Header n)) (Header n) [] ∅
                eq_refl Hne) as Hfold.
  rewrite app_nil_r in Hfold. rewrite Hfold. clear Hfold.
  destruct (store_all_rev_lookup (unfold_header (Header n)))
    as (ph0 & Hrun & Hlook).
  rewrite Hrun. cbn [mbind Result_bind]. rewrite app_nil_r.
  set (V := fun k => header_values k (Header n)).
  assert (HV : forall k, ph0 !! k = accumulated (V k)) by apply Hlook.
  clear Hlook Hrun.
  set (ph0' := match ph0 !! "content-type" with
               | Some _ => ph0
               | None => <["content-type" := HString "text/plain"]> ph0
               end).
  assert (Hs0 : forall k, k <> "content-type" -> ph0' !! k = accumulated (V k)).
  { intros k Hk. unfold ph0'. destruct (ph0 !! "content-type"); [apply HV|].
    rewrite lookup_insert_ne by done. apply HV. }
  assert (Hct0 : structured_of (ph0' !! "content-type") =
                 Some (HValueParams (parseValueParams
                         (default "text/plain" (last (V "content-type")))))).
  { unfold ph0'. destruct (ph0 !! "content-type") as [hv|] eqn:E.
    - rewrite E. rewrite <- E, (HV "content-type"), structured_of_accumulated.
      rewrite (HV "content-type") in E.
      destruct (V "content-type") as [|v1 vs] eqn:EV; [discriminate E|].
      destruct (last (v1 :: vs)) eqn:El; [done|]. by apply last_None in El.
    - rewrite lookup_insert_eq. rewrite (HV "content-type") in E.
      destruct (V "content-type") as [|v1 [|v2 vs]]; [done|discriminate E..]. }
  assert (Hacc0 : forall k, exists vs, ph0' !! k = accumulated vs).
  { intros k. destruct (decide (k = "content-type")) as [->|Hk].
    - unfold ph0'. destruct (ph0 !! "content-type") eqn:E.
      + exists (V "content-type"). apply HV.
      + exists ["text/plain"]. by rewrite lookup_insert_eq.
    - exists (V k). by apply Hs0. }
  destruct (for_keys_lookup parse_structured structured_of
              ["content-type"; "content-disposition"]
              parse_structured_step) with (ph := ph0')
    as (ph1 & Hrun1 & Hlook1).
  { repeat constructor; intros H;
      repeat (apply elem_of_cons in H as [H|H]; [discriminate H|]);
      by apply elem_of_nil in H. }
  { intros key _. apply Hacc0. }
  rewrite Hrun1. cbn [mbind Result_bind].
  destruct (for_keys_lookup single_value single_of singleValueFields
              single_value_step) with (ph := ph1)
    as (ph2 & Hrun2 & Hlook2).
  { repeat constructor; intros H;
      repeat (apply elem_of_cons in H as [H|H]; [discriminate H|]);
      by apply elem_of_nil in H. }
  { intros key Hkey. rewrite Hlook1.
    rewrite bool_decide_eq_false_2 by (by apply in_single_not_structured).
    apply Hacc0. }
  rewrite Hrun2. cbn [mbind Result_bind].
  destruct (for_keys_lookup parse_address_field addresses_of addressFields
              parse_address_field_step) with (ph := ph2)
    as (ph3 & Hrun3 & Hlook3).
  { repeat constructor; intros H;
      repeat (apply elem_of_cons in H as [H|H]; [discriminate H|]);
      by apply elem_of_nil in H. }
  { intros key Hkey. rewrite Hlook2, Hlook1.
    rewrite bool_decide_eq_false_2 by (by apply in_address_not_single).
    rewrite bool_decide_eq_false_2 by (by apply in_address_not_structured).
    apply Hacc0. }
  rewrite Hrun3. cbn [mbind Result_bind].
  eexists. split; [done|]. split; [done|].
  intros key. cbn [ParsedHeader set_ParsedHeader].
  rewrite Hlook3, Hlook2, Hlook1. unfold parsed_value. fold (V key).
  destruct (String.eqb_spec key "content-type") as [->|Hct].
  { rewrite Hct0. reflexivity. }
  destruct (String.eqb_spec key "content-disposition") as [->|Hcd].
  { rewrite (Hs0 _ Hct), structured_of_accumulated. reflexivity. }
  rewrite (bool_decide_eq_false_2
             (key ∈ ["content-type"; "content-disposition"])).
  2:{ intros H. repeat (apply elem_of_cons in H as [H|H]; [done|]).
      by apply elem_of_nil in H. }
  rewrite (Hs0 _ Hct).
  destruct (bool_decide (key ∈ singleValueFields)) eqn:Es.
  { apply bool_decide_eq_true in Es.
    rewrite bool_decide_eq_false_2.
    - apply single_of_accumulated.
    - intros Ha. by apply in_address_not_single in Ha. }
  destruct (bool_decide (key ∈ addressFields)) eqn:Ea; [|done].
  apply addresses_of_accumulated.
Qed.

(** C8, as the parser has it.  On a fresh node whose header lines are not
    empty, [processNodeHeader] returns, leaves the unfolded lines, and maps
    every key by its kind: the content type and the content disposition to
    the last occurrence parsed into a value with parameters (the content
    type being [text/plain] when absent); each of the six single-valued
    fields to the value of its last occurrence; each address field to the
    addresses decoded from all its occurrences in input order, when there
    is one; and every other key, or an address field none of whose values
    decodes, to its value when it occurs once and to the list of its
    values in input order when it is repeated. *)
Theorem parsed_header_by_kind (n : MIMENode) :
  ParsedHeader n = ∅ ->
  Forall (fun l => l <> "") (Header n) ->
  exists n',
    processNodeHeader n = Done n' /\
    Header n' = unfold_header (Header n) /\
    forall key,
      ParsedHeader n' !! key = parsed_value key (header_values key (Header n)).
Proof. apply processNodeHeader_by_kind. Qed.

End HeaderFacts.

Lemma parsed_header_by_kind_witness :
  exists n',
    @Indexer.processNodeHeader AsciiRuntime
      (IndexerSpec.fresh_node IndexerSpec.repeated_header) = Done n' /\
    Indexer.ParsedHeader n' !! "subject" = Some (Indexer.HList ["one"; "two"]) /\
    Indexer.ParsedHeader n' !! "content-id" = Some (Indexer.HString "<2>").
Proof.
  destruct (@parsed_header_by_kind AsciiRuntime
              (IndexerSpec.fresh_node IndexerSpec.repeated_header) eq_refl)
    as (n' & Hrun & _ & Hkey).
  - repeat constructor; discriminate.
  - exists n'. split; [exact Hrun|].
    split; rewrite Hkey; vm_compute; reflexivity.
Defined.

(** C8, as the specification has it, fails on the keys the parser decodes
    further: with [To] given twice the header maps [to] to two decoded
    addresses, and with [Content-Type] given twice it maps [content-type]
    to the second occurrence parsed into a value with parameters; neither
    is the list of the values. *)
Lemma repeated_recipient_is_decoded :
  exists n',
    @Indexer.processNodeHeader AsciiRuntime
      (IndexerSpec.fresh_node IndexerSpec.repeated_header) = Done n' /\
    @IndexerSpec.header_values AsciiRuntime "to" IndexerSpec.repeated_header
      = ["a@x"; "b@x"] /\
    Indexer.ParsedHeader n' !! "to" =
      Some (Indexer.HAddresses [mkAddress "" "a@x"; mkAddress "" "b@x"]) /\
    Indexer.ParsedHeader n' !! "to" <>
      IndexerSpec.claimed_value "to"
        (@IndexerSpec.header_values AsciiRuntime "to"
           IndexerSpec.repeated_header) /\
    Indexer.ParsedHeader n' !! "content-type" <>
      IndexerSpec.claimed_value "content-type"
        (@IndexerSpec.header_values AsciiRuntime "content-type"
           IndexerSpec.repeated_header).
Proof.
  eexists. split; [vm_compute; reflexivity|].
  split; [vm_compute; reflexivity|].
  split; [vm_compute; reflexivity|].
  split; vm_compute; discriminate.
Qed.

(** ** The loop of [Parse] *)

Section ParseFacts.
Import Indexer IndexerSpec.
Context {RT : GoRuntime}.

Lemma length_append (a b : string) :
  String.length (a +:+ b) = (String.length a + String.length b)%nat.
Proof.
  induction a as [|c a IH]; [done|].
  rewrite append_cons. simpl. by rewrite IH.
Qed.

Lemma eqb_empty_length (s : string) :
  String.eqb s "" = true <-> String.length s = 0%nat.
Proof. destruct s; simpl; split; (done || discriminate). Qed.

(** The match of [readLine] splits the input: nothing is lost, and an
    empty break means the input is used up. *)
Lemma match_line_split (s : string) :
  forall line brk r,
    match_line s = (line, brk, r) ->
    String.length s = (String.length line + String.length brk +
                       String.length r)%nat /\
    (brk = "" -> r = "").
Proof.
  induction s as [|c t IH]; intros line brk r; simpl.
  - intros [= <- <- <-]. done.
  - destruct (Ascii.eqb c Go.LF).
    { intros [= <- <- <-]. simpl. split; [lia | discriminate]. }
    destruct (if Ascii.eqb c Go.CR
              then match t with
                   | "" => None
                   | String c' t' => if Ascii.eqb c' Go.LF then Some t' else None
                   end
              else None) as [t'|] eqn:E.
    + intros [= <- <- <-]. split; [|discriminate].
      destruct (Ascii.eqb c Go.CR); [|discriminate].
      destruct t as [|c' t'']; [discriminate|].
      destruct (Ascii.eqb c' Go.LF); [|discriminate].
      injection E as ->. simpl. lia.
    + destruct (match_line t) as [[line' brk'] r'].
      intros [= <- <- <-].
      destruct (IH _ _ _ eq_refl) as [Hlen Hbr].
      split; [simpl; lia | done].
Qed.

(** [readLine] leaves the tree alone and consumes what it returns. *)
Lemma readLine_spec (p : MIMEParser) (line : string) (p1 : MIMEParser) :
  readLine p = (line, p1) ->
  node p1 = node p /\ parents p1 = parents p /\ rawBody p1 = rawBody p /\
  (String.length line + String.length (br p1) + String.length (rest p1)
   <= String.length (rest p))%nat /\
  (br p1 <> "" -> (String.length (rest p1) < String.length (rest p))%nat).
Proof.
  unfold readLine. destruct (String.eqb (rest p) "") eqn:E.
  - intros [= <- <-]. simpl. repeat split; [lia | done].
  - destruct (match_line (rest p)) as [[l brk] r] eqn:Hm.
    intros [= <- <-]. simpl.
    destruct (match_line_split _ _ _ _ Hm) as [Hlen Hbr].
    assert (Hadj : (String.eqb brk "" && negb (String.eqb r ""))%bool = false).
    { destruct (String.eqb_spec brk "") as [Eb|]; [|done].
      by rewrite (Hbr Eb). }
    rewrite Hadj. repeat split; [lia|].
    intros Hne. destruct brk; [done|]. simpl in Hlen. lia.
Qed.

Lemma processNodeHeader_shape (n n' : MIMENode) :
  processNodeHeader n = Done n' ->
  exists hdr ph, n' = set_ParsedHeader (set_Header n hdr) ph.
Proof.
  unfold processNodeHeader.
  destruct (fold_headers _ _ _) as [[hdr ph]| |]; simpl; [|discriminate..].
  repeat match goal with
         | |- context [mbind _ ?x] =>
             destruct x as [?| |]; simpl; [|discriminate..]
         end.
  intros [= <-]. eauto.
Qed.

Lemma processContentType_fields (n : MIMENode) :
  state (processContentType n) = state n /\
  ParentBoundary (processContentType n) = ParentBoundary n /\
  Body (processContentType n) = Body n.
Proof.
  unfold processContentType.
  destruct (ParsedHeader n !! "content-type") as [[| |ct|]|]; try done.
  destruct (String.eqb (Type_ ct) "multipart"); [|done].
  by destruct (Params ct !! "boundary").
Qed.

Lemma chain_ext (a b : MIMENode) (up : list MIMENode) :
  ParentBoundary a = ParentBoundary b -> chain a up -> chain b up.
Proof. destruct up; simpl; [done|]. by intros ->. Qed.

Lemma sized_weaken (total e e' : nat) (p : MIMEParser) :
  (e' <= e)%nat -> sized total e p -> sized total e' p.
Proof.
  intros He Hs. unfold sized in *.
  eapply Forall_impl; [exact Hs|]. intros a Ha. simpl in *. lia.
Qed.

Lemma embedded_message_Done
    (sub : string -> Result (option MIMENode)) (total : nat) (n : MIMENode) :
  (forall body, (String.length body < total)%nat -> exists m, sub body = Done m) ->
  (String.length (Body n) < total)%nat ->
  exists n', embedded_message sub n = Done n' /\
             ParentBoundary n' = ParentBoundary n /\ Body n' = Body n /\
             state n' = state n.
Proof.
  intros Hsub Hlen. unfold embedded_message.
  destruct (ParsedHeader n !! "content-type") as [[| |ct|]|]; eauto.
  destruct (String.eqb (Value ct) "message/rfc822"); eauto.
  destruct (0 <? Go.len (Body n)); eauto.
  destruct (Hsub _ Hlen) as [m ->]. simpl. eauto.
Qed.

Lemma boundary_line_length (line pb tail_ : string) :
  String.eqb line ("--" +:+ pb +:+ tail_) = true ->
  (2 <= String.length line)%nat.
Proof. intros E%String.eqb_eq. subst. simpl. lia. Qed.

(** One iteration of [Parse] on a well-formed parser: no error, no
    panic, and the parser it leaves is well formed. *)
Lemma step_preserves (sub : string -> Result (option MIMENode))
    (total : nat) (prevBr line : string) (p : MIMEParser) :
  shape p ->
  sized total (String.length prevBr + String.length line) p ->
  (forall body, (String.length body < total)%nat -> exists m, sub body = Done m) ->
  exists p2,
    step sub prevBr line p = Done (p2, None) /\
    rest p2 = rest p /\ br p2 = br p /\
    shape p2 /\ sized total 0 p2.
Proof.
  intros ([Hst|Hst] & Hready & Hchain) Hsized Hsub; unfold step; rewrite Hst;
    cbn [String.eqb Ascii.eqb Bool.eqb].
  - (* header *)
    set (p' := if negb (String.eqb (rawBody p) "")
               then set_rawBody p (rawBody p +:+ prevBr +:+ line) else p).
    assert (Hp' : rest p' = rest p /\ br p' = br p /\ parents p' = parents p).
    { unfold p'. by destruct (negb (String.eqb (rawBody p) "")). }
    destruct Hp' as (Hrest & Hbr & Hpar).
    destruct (Hready Hst) as [Hempty Hlines].
    destruct (String.eqb_spec line "") as [->|Hline].
    + destruct (processNodeHeader_by_kind (node p) Hempty Hlines)
        as (n' & Hrun & _ & _).
      rewrite Hrun. cbn [mbind Result_bind].
      apply processNodeHeader_shape in Hrun as (hdr & ph & ->).
      eexists. split; [reflexivity|]. simpl.
      destruct (processContentType_fields
                  (set_ParsedHeader (set_Header (node p) hdr) ph))
        as (_ & Hpb & Hbody).
      split; [done|]. split; [done|]. split.
      * split; [by right|]. split; [intros [=]|].
        simpl. rewrite Hpar. eapply chain_ext; [|exact Hchain].
        simpl. by rewrite Hpb.
      * unfold sized in *. simpl. rewrite Hrest, Hbr, Hpar.
        apply Forall_cons in Hsized as [Hn Hup].
        apply Forall_cons. split.
        -- simpl in *. rewrite Hbody. simpl. lia.
        -- eapply Forall_impl; [exact Hup|]. intros a Ha. simpl in *. lia.
    + eexists. split; [reflexivity|]. simpl.
      split; [done|]. split; [done|]. split.
      * split; [by left|]. split.
        -- intros _. simpl. split; [done|].
           apply Forall_app. split; [done|]. by apply Forall_singleton.
        -- simpl. rewrite Hpar. by eapply chain_ext; [|exact Hchain].
      * unfold sized in *. simpl. rewrite Hrest, Hbr, Hpar.
        apply Forall_cons in Hsized as [Hn Hup].
        apply Forall_cons. split; [simpl; lia|].
        eapply Forall_impl; [exact Hup|]. intros a Ha. simpl in *. lia.
  - (* body *)
    apply Forall_cons in Hsized as [Hn Hup].
    destruct ((negb (String.eqb (ParentBoundary (node p)) "") &&
               (String.eqb line ("--" +:+ ParentBoundary (node p)) ||
                String.eqb line ("--" +:+ ParentBoundary (node p) +:+ "--")))%bool)
      eqn:Hclose.
    + apply andb_true_iff in Hclose as [Hpb Hline].
      assert (Hlong : (2 <= String.length line)%nat).
      { apply orb_true_iff in Hline as [E|E].
        - apply (boundary_line_length line (ParentBoundary (node p)) "").
          apply String.eqb_eq in E. rewrite E. apply String.eqb_eq.
          f_equal. clear. induction (ParentBoundary (node p)) as [|c t IH];
            [done|]. by rewrite append_cons, <- IH.
        - by apply (boundary_line_length line (ParentBoundary (node p)) "--"). }
      destruct (embedded_message_Done sub total (node p) Hsub)
        as (n' & Hrun & Hpb' & Hbody' & Hst'); [simpl in Hn; lia|].
      rewrite Hrun. cbn [mbind Result_bind set_rawBody parents].
      destruct (parents p) as [|parent up] eqn:Hparents; [done|].
      simpl in Hchain. destruct Hchain as [Hlink Hup'].
      apply Forall_cons in Hup as [Hparent Hrest'].
      destruct (String.eqb line ("--" +:+ ParentBoundary (node p))).
      * eexists. split; [reflexivity|]. simpl.
        split; [done|]. split; [done|]. split.
        -- split; [by left|]. split; [done|].
           split; [done|]. destruct up; [done|].
           destruct Hup' as [? ?]. split; [done|].
           by eapply chain_ext; [|eassumption].
        -- unfold sized. simpl.
           apply Forall_cons. split; [simpl in *; lia|].
           apply Forall_cons. split; [simpl in *; lia|].
           eapply Forall_impl; [exact Hrest'|]. intros a Ha. simpl in *. lia.
      * eexists. split; [reflexivity|]. simpl.
        split; [done|]. split; [done|].
        destruct up as [|u up''].
        { exfalso. rewrite Hlink, Hup' in Hpb. discriminate Hpb. }
        destruct Hup' as [Hpst Hpchain]. split.
        -- split; [by right|].
           split; [unfold header_ready; simpl; rewrite Hpst; intros [=]|].
           by eapply chain_ext; [|exact Hpchain].
        -- unfold sized. simpl.
           apply Forall_cons. split; [simpl in *; lia|].
           eapply Forall_impl; [exact Hrest'|]. intros a Ha. simpl in *. lia.
    + destruct ((negb (String.eqb (Boundary (node p)) "") &&
                 String.eqb line ("--" +:+ Boundary (node p)))%bool).
      * eexists. split; [reflexivity|]. simpl.
        split; [done|]. split; [done|]. split.
        -- split; [by left|]. split; [done|].
           split; [done|]. destruct (parents p) eqn:E; [done|].
           split; [done|]. done.
        -- unfold sized. simpl.
           apply Forall_cons. split; [simpl in *; lia|].
           apply Forall_cons. split; [simpl in *; lia|].
           eapply Forall_impl; [exact Hup|]. intros a Ha. simpl in *. lia.
      * eexists. split; [reflexivity|]. simpl.
        split; [done|]. split; [done|]. split.
        -- split; [by right|].
           split; [unfold header_ready; simpl; rewrite Hst; intros [=]|].
           by eapply chain_ext; [|exact Hchain].
        -- unfold sized. simpl.
           apply Forall_cons. split.
           ++ simpl in *. destruct (0 <? Go.len (Body (node p)));
                rewrite ?length_append; lia.
           ++ eapply Forall_impl; [exact Hup|]. intros a Ha. simpl in *. lia.
Qed.

Lemma closing_line_length (line pb : string) :
  (String.eqb line ("--" +:+ pb) || String.eqb line ("--" +:+ pb +:+ "--"))%bool
  = true ->
  (2 <= String.length line)%nat.
Proof.
  intros [E|E]%orb_true_iff; apply String.eqb_eq in E; subst; simpl; lia.
Qed.

Lemma states_ok_unfold (n : MIMENode) :
  states_ok n <-> (state n = "header" \/ state n = "body") /\ kids_ok n.
Proof.
  unfold kids_ok. destruct n as [r children hdr ph body mp bd pb lc sz msg st].
  cbn [states_ok state ChildNodes Message].
  assert (Hall : (fix all (l : list MIMENode) : Prop :=
                    match l with
                    | [] => True
                    | child :: l' => states_ok child /\ all l'
                    end) children <-> Forall states_ok children).
  { induction children as [|c cs IH]; [by split|].
    rewrite Forall_cons, <- IH. reflexivity. }
  rewrite Hall. split.
  - intros (Hs & Hc & Hm). split; [done|]. split; [done|].
    intros m [= ->]. exact Hm.
  - intros (Hs & Hc & Hm). split; [done|]. split; [done|].
    destruct msg; [by apply Hm|done].
Qed.

(** [finalizeNode] rewrites bodies and counts, and no state. *)
Lemma finalizeNode_states_ok :
  forall n : MIMENode, states_ok n -> states_ok (finalizeNode n).
Proof.
  fix IH 1. intros [r children hdr ph body mp bd pb lc sz msg st].
  intros (Hs & Hc & Hm).
  assert (Hkids : (fix all (l : list MIMENode) : Prop :=
                     match l with
                     | [] => True
                     | child :: l' => states_ok child /\ all l'
                     end) (map finalizeNode children)).
  { clear -Hc IH. induction children as [|c cs IHcs]; [exact I|].
    destruct Hc as [Hc Hcs]. split; [by apply IH | by apply IHcs]. }
  cbn [finalizeNode Body ChildNodes].
  destruct (0 <? Go.len body); cbn; (split; [exact Hs|]);
    (split; [exact Hkids | exact Hm]).
Qed.

Lemma plug_kids_ok (up : list MIMENode) :
  forall n : MIMENode,
    chain n up -> states_ok n -> Forall kids_ok up -> kids_ok (plug n up).
Proof.
  induction up as [|parent up IH]; intros n; simpl; [done|].
  intros [_ Hchain] Hn [[Hpk Hpm] Hup]%Forall_cons.
  assert (Hattached : kids_ok (attach n parent)).
  { split; simpl; [|done]. apply Forall_app. split; [done|].
    by apply Forall_singleton. }
  destruct up as [|u up']; [exact Hattached|].
  destruct Hchain as [Hbody Hchain].
  apply IH; [by eapply chain_ext; [|exact Hchain] | | done].
  apply states_ok_unfold. split; [by right | done].
Qed.

Lemma tidy_NewMIMEParser (rfc822 : string) : tidy (NewMIMEParser rfc822).
Proof.
  split.
  - apply states_ok_unfold. split; [by left|]. by split.
  - apply Forall_singleton. by split.
Qed.

#[local] Arguments states_ok : simpl never.

(** One iteration of [Parse] keeps every node built so far in a known
    state, when the embedded messages come back so. *)
Lemma step_tidy (sub : string -> Result (option MIMENode))
    (total : nat) (prevBr line : string) (p p2 : MIMEParser)
    (err : option string) :
  shape p -> tidy p ->
  sized total (String.length prevBr + String.length line) p ->
  (forall body m, (String.length body < total)%nat ->
     sub body = Done (Some m) -> states_ok m) ->
  step sub prevBr line p = Done (p2, err) ->
  tidy p2.
Proof.
  intros ([Hst|Hst] & Hready & Hchain) [Hnode Hup] Hsized Hsub; unfold step;
    rewrite Hst; cbn [String.eqb Ascii.eqb Bool.eqb].
  - (* header *)
    set (p' := if negb (String.eqb (rawBody p) "")
               then set_rawBody p (rawBody p +:+ prevBr +:+ line) else p).
    assert (Hpar : parents p' = parents p).
    { unfold p'. by destruct (negb (String.eqb (rawBody p) "")). }
    apply states_ok_unfold in Hnode as [_ [Hkids Hmsg]].
    destruct (String.eqb line "").
    + destruct (processNodeHeader (node p)) as [n'| |] eqn:Hrun;
        simpl; [|discriminate..].
      apply processNodeHeader_shape in Hrun as (hdr & ph & ->).
      intros [= <- <-]. split; simpl; [|by rewrite Hpar].
      apply states_ok_unfold. split; [by right|].
      unfold processContentType. simpl.
      destruct (ph !! "content-type") as [[| |ct|]|]; try (by split).
      destruct (String.eqb (Type_ ct) "multipart"); [|by split].
      destruct (Params ct !! "boundary"); by split.
    + intros [= <- <-]. split; simpl; [|by rewrite Hpar].
      apply states_ok_unfold. split; [by left|]. by split.
  - (* body *)
    destruct ((negb (String.eqb (ParentBoundary (node p)) "") &&
               (String.eqb line ("--" +:+ ParentBoundary (node p)) ||
                String.eqb line ("--" +:+ ParentBoundary (node p) +:+ "--")))%bool)
      eqn:Hclose.
    + apply andb_true_iff in Hclose as [Hpb Hline].
      apply closing_line_length in Hline.
      apply Forall_cons in Hsized as [Hsize _]. simpl in Hsize.
      destruct (embedded_message sub (node p)) as [n'| |] eqn:Hrun;
        simpl; [|discriminate..].
      assert (Hn' : states_ok n').
      { revert Hrun. unfold embedded_message.
        destruct (ParsedHeader (node p) !! "content-type") as [[| |ct|]|];
          try (by intros [= <-]).
        destruct (String.eqb (Value ct) "message/rfc822");
          [|by intros [= <-]].
        destruct (0 <? Go.len (Body (node p))); [|by intros [= <-]].
        destruct (sub (Body (node p))) as [m| |] eqn:Hm; simpl;
          [|discriminate..].
        intros [= <-].
        apply states_ok_unfold in Hnode as [Hs [Hkids Hmsg]].
        apply states_ok_unfold. split; [done|]. split; [done|].
        simpl. intros m' ->. eapply Hsub; [|exact Hm]. lia. }
      destruct (parents p) as [|parent up] eqn:Hparents; [discriminate|].
      simpl in Hchain. destruct Hchain as [Hlink Hup'].
      apply Forall_cons in Hup as [[Hpk Hpm] Hrest].
      assert (Hattached : kids_ok (attach n' parent)).
      { split; simpl; [|done]. apply Forall_app. split; [done|].
        by apply Forall_singleton. }
      destruct (String.eqb line ("--" +:+ ParentBoundary (node p))).
      * intros [= <- <-]. split; simpl.
        -- apply states_ok_unfold. split; [by left|]. by split.
        -- by apply Forall_cons.
      * intros [= <- <-]. split; simpl; [|done].
        apply states_ok_unfold. split; [|done]. simpl.
        destruct up as [|u up''].
        { exfalso. rewrite Hlink, Hup' in Hpb. discriminate Hpb. }
        right. apply Hup'.
    + apply states_ok_unfold in Hnode as [Hs [Hkids Hmsg]].
      destruct ((negb (String.eqb (Boundary (node p)) "") &&
                 String.eqb line ("--" +:+ Boundary (node p)))%bool).
      * intros [= <- <-]. split; simpl.
        -- apply states_ok_unfold. split; [by left|]. by split.
        -- apply Forall_cons. by split.
      * intros [= <- <-]. split; simpl; [|done].
        apply states_ok_unfold. split; [by right|]. by split.
Qed.

(** The match of [readLine] cuts the first line off the lines of the
    text. *)
Lemma split_lines_match (s : string) :
  s <> "" ->
  forall line brk r,
    match_line s = (line, brk, r) ->
    TreeSpec.split_lines s
    = (line, brk) :: (if String.eqb brk "" then [] else TreeSpec.split_lines r).
Proof.
  induction s as [|c t IH]; [done|]. intros _ line brk r.
  cbn [match_line TreeSpec.split_lines].
  destruct (Ascii.eqb c Go.LF) eqn:Hlf.
  { by intros [= <- <- <-]. }
  destruct t as [|c' t'].
  { destruct (Ascii.eqb c Go.CR); by intros [= <- <- <-]. }
  destruct (Ascii.eqb c Go.CR) eqn:Hcr; cbn [andb].
  - destruct (Ascii.eqb c' Go.LF) eqn:Hlf'.
    + by intros [= <- <- <-].
    + destruct (match_line (String c' t')) as [[line' brk'] r'] eqn:Hm.
      intros [= <- <- <-].
      by rewrite (IH ltac:(done) _ _ _ eq_refl).
  - destruct (match_line (String c' t')) as [[line' brk'] r'] eqn:Hm.
    intros [= <- <- <-].
    by rewrite (IH ltac:(done) _ _ _ eq_refl).
Qed.

(** [readLine] returns the first of the lines still to be seen. *)
Lemma readLine_pending (p : MIMEParser) (line : string) (p1 : MIMEParser) :
  (negb (String.eqb (br p) "") || negb (String.eqb (rest p) ""))%bool = true ->
  readLine p = (line, p1) ->
  TreeSpec.pending (br p) (rest p)
  = (line, br p1) ::
    (if String.eqb (br p1) "" then []
     else TreeSpec.pending (br p1) (rest p1)).
Proof.
  intros Hgo. unfold readLine, TreeSpec.pending.
  destruct (String.eqb_spec (rest p) "") as [E|E].
  - intros [= <- <-]. cbn [br rest].
    rewrite orb_false_r in Hgo. apply negb_true_iff in Hgo. by rewrite Hgo.
  - destruct (match_line (rest p)) as [[l brk] r] eqn:Hm.
    intros [= <- <-]. cbn [br rest].
    destruct (match_line_split _ _ _ _ Hm) as [_ Hbr].
    assert (Hadj : (String.eqb brk "" && negb (String.eqb r ""))%bool = false).
    { destruct (String.eqb_spec brk "") as [Eb|]; [|done].
      by rewrite (Hbr Eb). }
    rewrite Hadj, (split_lines_match _ E _ _ _ Hm).
    destruct (String.eqb brk ""); [done|].
    by destruct (String.eqb_spec r "") as [->|].
Qed.

Lemma delimiter_spec (boundary line : string) :
  TreeSpec.delimiter boundary line
  = if (negb (String.eqb boundary "") &&
        (String.eqb line ("--" +:+ boundary) ||
         String.eqb line ("--" +:+ boundary +:+ "--")))%bool
    then Some (negb (String.eqb line ("--" +:+ boundary)))
    else None.
Proof.
  unfold TreeSpec.delimiter.
  destruct (String.eqb boundary ""); [done|]. cbn [negb andb].
  destruct (String.eqb line ("--" +:+ boundary)); [done|]. cbn [orb].
  by destruct (String.eqb line ("--" +:+ boundary +:+ "--")).
Qed.

Lemma opens_spec (boundary line : string) :
  TreeSpec.opens boundary line
  = (negb (String.eqb boundary "") &&
     String.eqb line ("--" +:+ boundary))%bool.
Proof.
  unfold TreeSpec.opens, TreeSpec.delimiter.
  destruct (String.eqb boundary ""); [done|]. cbn [negb andb].
  destruct (String.eqb line ("--" +:+ boundary)); [done|].
  by destruct (String.eqb line ("--" +:+ boundary +:+ "--")).
Qed.

Lemma body_begun (b : string) : (0 <? Go.len b) = negb (String.eqb b "").
Proof. by destruct b. Qed.

(** One iteration of [Parse] does to the open path what [feed] says,
    when the embedded messages are parsed as [embedded] says. *)
Lemma step_feed (sub : string -> Result (option MIMENode))
    (embedded : string -> option MIMENode)
    (total : nat) (prevBr line : string) (p p2 : MIMEParser) :
  shape p ->
  sized total (String.length prevBr + String.length line) p ->
  (forall body, (String.length body < total)%nat ->
     sub body = Done (embedded body)) ->
  step sub prevBr line p = Done (p2, None) ->
  (node p2, parents p2)
  = TreeSpec.feed embedded prevBr line (node p, parents p).
Proof.
  intros ([Hst|Hst] & Hready & Hchain) Hsized Hsub; unfold step;
    cbn [TreeSpec.feed]; rewrite Hst; cbn [String.eqb Ascii.eqb Bool.eqb].
  - (* header *)
    set (p' := if negb (String.eqb (rawBody p) "")
               then set_rawBody p (rawBody p +:+ prevBr +:+ line) else p).
    assert (Hpar : parents p' = parents p).
    { unfold p'. by destruct (negb (String.eqb (rawBody p) "")). }
    unfold TreeSpec.to_body.
    destruct (String.eqb line "").
    + destruct (processNodeHeader (node p)) as [n'| |]; simpl;
        [|discriminate..].
      intros [= <-]. simpl. by rewrite Hpar.
    + intros [= <-]. simpl. by rewrite Hpar.
  - (* body *)
    apply Forall_cons in Hsized as [Hn Hup].
    rewrite (delimiter_spec (ParentBoundary (node p))).
    destruct ((negb (String.eqb (ParentBoundary (node p)) "") &&
               (String.eqb line ("--" +:+ ParentBoundary (node p)) ||
                String.eqb line ("--" +:+ ParentBoundary (node p) +:+ "--")))%bool)
      eqn:Hclose.
    + apply andb_true_iff in Hclose as [Hpb Hline].
      apply closing_line_length in Hline.
      assert (Hrun : embedded_message sub (node p)
                     = Done (TreeSpec.close embedded (node p))).
      { unfold embedded_message, TreeSpec.close.
        destruct (ParsedHeader (node p) !! "content-type") as [[| |ct|]|];
          try done.
        destruct (String.eqb (Value ct) "message/rfc822"); [|done].
        rewrite body_begun. cbn [andb].
        destruct (negb (String.eqb (Body (node p)) "")); [|done].
        rewrite Hsub; [done|]. simpl in Hn. lia. }
      rewrite Hrun. cbn [mbind Result_bind set_rawBody parents].
      destruct (parents p) as [|parent up]; [discriminate|].
      destruct (String.eqb line ("--" +:+ ParentBoundary (node p)));
        by intros [= <-].
    + rewrite opens_spec.
      destruct ((negb (String.eqb (Boundary (node p)) "") &&
                 String.eqb line ("--" +:+ Boundary (node p)))%bool).
      * intros [= <-]. by destruct (parents p).
      * rewrite body_begun. intros [= <-]. simpl.
        by destruct (String.eqb (Body (node p)) "").
Qed.

(** The loop of [Parse], entered on a well-formed parser with more fuel
    than unread bytes, ends without error on a well-formed parser, whose
    open path is the one the lines still to be seen lead to. *)
Lemma parse_loop_total (sub : string -> Result (option MIMENode))
    (embedded : string -> option MIMENode) (total : nat) :
  (forall body, (String.length body < total)%nat ->
     sub body = Done (embedded body)) ->
  (forall body m, (String.length body < total)%nat ->
     sub body = Done (Some m) -> states_ok m) ->
  forall (fuel : nat) (p : MIMEParser),
    shape p -> tidy p -> sized total 0 p ->
    (String.length (rest p) < fuel)%nat ->
    exists q,
      parse_loop sub fuel (br p) p = Done (q, None) /\ shape q /\ tidy q /\
      (node q, parents q)
      = TreeSpec.run embedded (br p) (TreeSpec.pending (br p) (rest p))
                     (node p, parents p).
Proof.
  intros Hemb Hgood.
  assert (Hsub : forall body, (String.length body < total)%nat ->
                   exists m, sub body = Done m).
  { intros body Hbody. rewrite (Hemb body Hbody). eauto. }
  induction fuel as [|fuel IH]; intros p Hshape Htidy Hsized Hfuel; [lia|].
  cbn [parse_loop].
  destruct (negb (String.eqb (br p) "") || negb (String.eqb (rest p) ""))%bool
    eqn:Hgo.
  2:{ exists p. split; [done|]. split; [done|]. split; [done|].
      apply orb_false_iff in Hgo as [Hb Hr].
      apply negb_false_iff in Hb, Hr.
      unfold TreeSpec.pending. by rewrite Hb, Hr. }
  destruct (readLine p) as [line p1] eqn:Hread.
  destruct (readLine_spec p line p1 Hread) as (Hn & Hp & _ & Hlen & Hless).
  rewrite (readLine_pending p line p1 Hgo Hread). cbn [TreeSpec.run].
  assert (Hshape1 : shape p1).
  { unfold shape. by rewrite Hn, Hp. }
  assert (Htidy1 : tidy p1).
  { unfold tidy. by rewrite Hn, Hp. }
  assert (Hsized1 : sized total (String.length (br p) + String.length line) p1).
  { unfold sized in *. rewrite Hn, Hp.
    eapply Forall_impl; [exact Hsized|]. intros a Ha. simpl in *. lia. }
  destruct (step_preserves sub total (br p) line p1 Hshape1 Hsized1 Hsub)
    as (p2 & Hstep & Hrest & Hbr & Hshape2 & Hsized2).
  pose proof (step_tidy sub total (br p) line p1 p2 None
                Hshape1 Htidy1 Hsized1 Hgood Hstep) as Htidy2.
  pose proof (step_feed sub embedded total (br p) line p1 p2
                Hshape1 Hsized1 Hemb Hstep) as Hfeed.
  rewrite Hn, Hp in Hfeed. rewrite <- Hfeed, <- Hbr, <- Hrest.
  rewrite Hstep. cbn [mbind Result_bind].
  destruct (String.eqb_spec (br p2) "") as [E|E]; [by eauto 10|].
  apply IH; [done..|].
  rewrite Hrest. rewrite Hbr in E. specialize (Hless E). lia.
Qed.

Lemma shape_NewMIMEParser (rfc822 : string) :
  shape (NewMIMEParser rfc822) /\
  sized (String.length rfc822) 0 (NewMIMEParser rfc822).
Proof.
  split.
  - split; [by left|]. split; [by intros _|]. done.
  - unfold sized. simpl. repeat constructor; simpl; lia.
Qed.

(** What [GetResult] hands out of a well-formed parser has every node in
    a known state. *)
Lemma GetResult_states_ok (q : MIMEParser) (m : MIMENode) :
  shape q -> tidy q -> GetResult q = Some m -> states_ok m.
Proof.
  intros (_ & _ & Hchain) [Hn Hup]. unfold GetResult, tree.
  destruct (plug_kids_ok _ _ Hchain Hn Hup) as [Hkids _].
  destruct (ChildNodes (plug (node q) (parents q))) as [|c cs]; [done|].
  intros [= <-]. by apply Forall_cons in Hkids as [? _].
Qed.

(** [GetResult] is the message under the root once the open nodes are
    put under their parents. *)
Lemma GetResult_finish (q : MIMEParser) :
  GetResult q = TreeSpec.finish (node q, parents q).
Proof.
  unfold GetResult, tree, TreeSpec.finish. cbn [fst snd]. f_equal. f_equal.
  generalize (node q). induction (parents q) as [|parent up IH]; intros n;
    [done|].
  cbn [plug fold_left]. apply IH.
Qed.

(** [Parse] returns, and returns no error, as soon as the bound on the
    nesting of embedded messages exceeds the length of the input; its
    result is the tree that reflects the input. *)
Lemma Parse_depth_total (depth : nat) :
  forall rfc822 : string,
    (String.length rfc822 < depth)%nat ->
    exists q,
      Parse_depth depth (NewMIMEParser rfc822) = Done (q, None) /\
      shape q /\ tidy q /\
      GetResult q = TreeSpec.reflect_depth depth rfc822.
Proof.
  induction depth as [|depth IH]; intros rfc822 Hlen; [lia|].
  cbn [Parse_depth].
  destruct (shape_NewMIMEParser rfc822) as [Hshape Hsized].
  set (sub := fun body =>
                '(q, _) ← Parse_depth depth (NewMIMEParser body);
                Done (GetResult q)).
  assert (Hemb : forall body, (String.length body < String.length rfc822)%nat ->
                   sub body = Done (TreeSpec.reflect_depth depth body)).
  { intros body Hbody. unfold sub.
    destruct (IH body) as (q & -> & _ & _ & <-); [lia|]. done. }
  assert (Hgood : forall body m,
                    (String.length body < String.length rfc822)%nat ->
                    sub body = Done (Some m) -> states_ok m).
  { intros body m Hbody. unfold sub.
    destruct (IH body) as (q & -> & Hs & Ht & _); [lia|]. simpl.
    intros [= Hm]. by eapply GetResult_states_ok. }
  destruct (parse_loop_total sub (TreeSpec.reflect_depth depth)
              (String.length rfc822) Hemb Hgood
              (S (String.length (rest (NewMIMEParser rfc822))))
              (NewMIMEParser rfc822) Hshape (tidy_NewMIMEParser rfc822) Hsized)
    as (q & Hq & Hs & Ht & Hpath); [simpl; lia|].
  exists q. split; [exact Hq|]. split; [exact Hs|]. split; [exact Ht|].
  rewrite GetResult_finish, Hpath. reflexivity.
Qed.

(** The bound on the nesting plays no part in the tree that reflects a
    text, once it exceeds the length of the text. *)
Lemma reflect_depth_stable (n : nat) :
  forall (rfc822 : string) (depth : nat),
    (String.length rfc822 <= n)%nat ->
    (String.length rfc822 < depth)%nat ->
    TreeSpec.reflect_depth depth rfc822 = TreeSpec.reflect rfc822.
Proof.
  induction n as [|n IH]; intros rfc822 depth Hn Hdepth;
    (destruct depth as [|d]; [lia|]); unfold TreeSpec.reflect;
    cbn [TreeSpec.reflect_depth]; f_equal.
  - destruct rfc822; [done | cbn in Hn; lia].
  - set (e1 := TreeSpec.reflect_depth d).
    set (e2 := TreeSpec.reflect_depth (String.length rfc822)).
    set (sub := fun body => Done (e1 body)).
    assert (Hagree : forall body,
               (String.length body < String.length rfc822)%nat ->
               sub body = Done (e2 body)).
    { intros body Hbody. unfold sub, e1, e2. f_equal.
      rewrite (IH body d), (IH body (String.length rfc822)) by lia. done. }
    assert (Hgood : forall body m,
               (String.length body < String.length rfc822)%nat ->
               sub body = Done (Some m) -> states_ok m).
    { intros body m Hbody [= Hm]. unfold e1 in Hm.
      destruct (Parse_depth_total d body) as (q & _ & Hs & Ht & Hq); [lia|].
      rewrite <- Hq in Hm. by eapply GetResult_states_ok. }
    destruct (shape_NewMIMEParser rfc822) as [Hshape Hsized].
    destruct (parse_loop_total sub e1 (String.length rfc822)
                ltac:(done) Hgood
                (S (String.length (rest (NewMIMEParser rfc822))))
                (NewMIMEParser rfc822) Hshape (tidy_NewMIMEParser rfc822)
                Hsized) as (q1 & Hq1 & _ & _ & Hpath1); [simpl; lia|].
    destruct (parse_loop_total sub e2 (String.length rfc822)
                Hagree Hgood
                (S (String.length (rest (NewMIMEParser rfc822))))
                (NewMIMEParser rfc822) Hshape (tidy_NewMIMEParser rfc822)
                Hsized) as (q2 & Hq2 & _ & _ & Hpath2); [simpl; lia|].
    rewrite Hq1 in Hq2. injection Hq2 as <-.
    etrans; [symmetry; exact Hpath1 | exact Hpath2].
Qed.

Lemma plug_has_child (n : MIMENode) (up : list MIMENode) :
  chain n up -> ChildNodes (plug n up) <> [].
Proof.
  revert n. induction up as [|parent up IH]; intros n; simpl; [done|].
  intros [_ Hup]. destruct up as [|u up'].
  - simpl. intros H. by apply app_eq_nil in H as [_ ?].
  - apply IH. destruct Hup as [_ Hc]. by eapply chain_ext; [|exact Hc].
Qed.

Lemma finalizeNode_children (n : MIMENode) :
  ChildNodes (finalizeNode n) = map finalizeNode (ChildNodes n).
Proof. by destruct n. Qed.

(** C7.  [ParseMIME] is total: on every input [Parse] returns without
    error, with its current node in the state [header] or [body], and
    [ParseMIME] returns a tree and the nil error.  Every node of that tree,
    those of the embedded messages included, is in the state [header] or
    [body].  Neither the error branch of the [switch] nor a run-time panic
    is reached.

    The tree reflects what was seen: it is the finalised form of the tree
    that the lines of the input build, one after the other, each line
    going to the header or the body of the node that is open when it is
    read, or opening or closing a node when it is a delimiter
    ([TreeSpec.reflect]).  The end of the input closes nothing: the nodes
    open at that point, with what they hold, are in the tree.  The bound
    on the nesting of embedded messages that [TreeSpec.reflect_depth]
    takes plays no part once it exceeds the length of the input. *)
Theorem ParseMIME_total (rfc822 : string) :
  (exists q,
     Parse (NewMIMEParser rfc822) = Done (q, None) /\
     (state (node q) = "header" \/ state (node q) = "body")) /\
  (exists tree,
     ParseMIME rfc822 = Done (Some tree, None) /\ states_ok tree /\
     option_map finalizeNode (TreeSpec.reflect rfc822) = Some tree) /\
  forall depth : nat,
    (String.length rfc822 < depth)%nat ->
    TreeSpec.reflect_depth depth rfc822 = TreeSpec.reflect rfc822.
Proof.
  destruct (Parse_depth_total (S (String.length rfc822)) rfc822)
    as (q & Hrun & Hshape & Htidy & Hreflect); [lia|].
  split; [|split].
  - exists q. split; [exact Hrun|]. apply Hshape.
  - unfold ParseMIME, Parse, TreeSpec.reflect. simpl rest.
    rewrite Hrun, <- Hreflect. simpl.
    rewrite finalizeNode_children.
    pose proof (fun m => GetResult_states_ok q m Hshape Htidy) as Hgood.
    destruct Hshape as (_ & _ & Hchain).
    pose proof (plug_has_child _ _ Hchain) as Hne.
    unfold GetResult in *. unfold tree in *.
    destruct (ChildNodes (plug (node q) (parents q))) as [|c cs]; [done|].
    simpl. eexists. split; [reflexivity|]. split; [|done].
    apply finalizeNode_states_ok. by apply Hgood.
  - intros depth Hdepth.
    by apply (reflect_depth_stable (String.length rfc822)).
Qed.

(** The message [TreeSpec.unclosed] ends in the body of its second part,
    without a terminator: both parts are in the tree, the second with
    what was read of it. *)
Example ParseMIME_unclosed_boundary :
  exists tree,
    ParseMIME (RT := AsciiRuntime) TreeSpec.unclosed = Done (Some tree, None) /\
    Boundary tree = "b" /\
    map Header (ChildNodes tree) = [["Subject: one"]; ["Subject: two"]] /\
    map Body (ChildNodes tree) = ["first"; "second"].
Proof. eexists. split; [vm_compute; reflexivity|]. by vm_compute. Qed.

End ParseFacts.

Lemma ParseMIME_total_witness :
  (String.length TreeSpec.unclosed < 1000)%nat /\
  TreeSpec.reflect_depth (RT := AsciiRuntime) 1000 TreeSpec.unclosed
  = TreeSpec.reflect (RT := AsciiRuntime) TreeSpec.unclosed.
Proof.
  assert (Hdepth : (String.length TreeSpec.unclosed < 1000)%nat).
  { apply Nat.ltb_lt. vm_compute. reflexivity. }
  split; [exact Hdepth|].
  exact (proj2 (proj2 (@ParseMIME_total AsciiRuntime TreeSpec.unclosed))
           1000%nat Hdepth).
Defined.

(** ** BODYSTRUCTURE *)

Lemma ascending_admissible : BodyStructureSpec.admissible BodyStructureSpec.ascending.
Proof. intros m. reflexivity. Qed.

Lemma descending_admissible :
  BodyStructureSpec.admissible BodyStructureSpec.descending.
Proof.
  intros m. unfold BodyStructureSpec.descending.
  symmetry. apply Permutation_rev.
Qed.

(** C6 at a concrete input.  The content type of the message has the
    parameters [charset] and [format], in this order.  The builder ranges
    over the map of the parameters, and two enumerations of that map, both
    of which the language allows, give two different structures and two
    different wire forms: one starts the parameter list with [CHARSET], the
    other with [FORMAT]. *)
Theorem bodystructure_parameter_order_varies :
  BodyStructureSpec.admissible BodyStructureSpec.ascending /\
  BodyStructureSpec.admissible BodyStructureSpec.descending /\
  BodyStructureSpec.body_params
    (@BodyStructureSpec.build AsciiRuntime BodyStructureSpec.ascending
       BodyStructureSpec.flowed)
  = Some (BodyStructure.VList
            [BodyStructure.VString "CHARSET"; BodyStructure.VString "utf-8";
             BodyStructure.VString "FORMAT"; BodyStructure.VString "flowed"]) /\
  BodyStructureSpec.body_params
    (@BodyStructureSpec.build AsciiRuntime BodyStructureSpec.descending
       BodyStructureSpec.flowed)
  = Some (BodyStructure.VList
            [BodyStructure.VString "FORMAT"; BodyStructure.VString "flowed";
             BodyStructure.VString "CHARSET"; BodyStructure.VString "utf-8"]) /\
  (exists s1 s2,
     BodyStructureSpec.serialised
       (@BodyStructureSpec.build AsciiRuntime BodyStructureSpec.ascending
          BodyStructureSpec.flowed) = Some s1 /\
     BodyStructureSpec.serialised
       (@BodyStructureSpec.build AsciiRuntime BodyStructureSpec.descending
          BodyStructureSpec.flowed) = Some s2 /\
     s1 <> s2).
Proof.
  split; [apply ascending_admissible|].
  split; [apply descending_admissible|].
  split; [vm_compute; reflexivity|].
  split; [vm_compute; reflexivity|].
  eexists _, _. split; [vm_compute; reflexivity|].
  split; [vm_compute; reflexivity|].
  discriminate.
Qed.

(* ===================================================================== *)
(** * Part III.  Further properties of the same code                      *)
(* ===================================================================== *)

(** ** Runes *)

Section Runes.
Import RuneSpec.

Lemma mem_append (c : ascii) (a b : string) :
  Go.mem c (a +:+ b) = (Go.mem c a || Go.mem c b)%bool.
Proof.
  induction a as [|d t IH]; [done|]. rewrite append_cons.
  unfold Go.mem in *. cbn [list_ascii_of_string existsb].
  by rewrite IH, orb_assoc.
Qed.

Lemma append_empty_r (s : string) : s +:+ "" = s.
Proof. induction s as [|c t IH]; [done|]. by rewrite append_cons, IH. Qed.

Lemma sequence_facts (b0 : ascii) (size : nat) (lo hi : Z) :
  Go.sequence b0 = Some (size, lo, hi) ->
  (size = 2 \/ size = 3 \/ size = 4)%nat /\ 0x80 <= lo.
Proof.
  unfold Go.sequence.
  repeat match goal with
         | |- context [if ?b then _ else _] => destruct b
         end;
    intros [= <- <- <-]; (split; [auto | lia]) || discriminate.
Qed.

Lemma in_range_high (lo hi : Z) (c : ascii) :
  0x80 <= lo -> Go.in_range lo hi c = true -> high c = true.
Proof.
  unfold Go.in_range, high. intros Hlo [Hc _]%andb_true_iff.
  apply Z.leb_le in Hc. apply negb_true_iff, Z.ltb_ge. lia.
Qed.

(** What [DecodeRuneInString] returns on a text that is not empty: the
    error of width 1, or an encoding that heads the text. *)
Lemma decode_cases (s : string) :
  s <> "" ->
  (Go.DecodeRuneInString s = (Go.RuneError, 1%nat)) \/
  exists r rest,
    Go.DecodeRuneInString s = (r, String.length r) /\
    s = r +:+ rest /\ encoded r /\ plain r.
Proof.
  destruct s as [|b0 t]; [done|]. intros _.
  unfold Go.DecodeRuneInString.
  destruct (Go.byte_value b0 <? 128) eqn:Hlow.
  { right. exists (String b0 ""), t. split; [done|]. split; [done|]. split.
    - split; [done|]. intros rest. rewrite append_cons.
      unfold Go.DecodeRuneInString. by rewrite Hlow.
    - left. exists b0. split; [done|]. unfold high. by rewrite Hlow. }
  assert (Hb0 : high b0 = true) by (unfold high; by rewrite Hlow).
  destruct (Go.sequence b0) as [[[size lo] hi]|] eqn:Hseq; [|by left].
  destruct (sequence_facts _ _ _ _ Hseq) as [Hsize Hlo].
  destruct t as [|b1 t1]; [by left|].
  destruct (Go.in_range lo hi b1) eqn:H1; cbn [negb]; [|by left].
  pose proof (in_range_high _ _ _ Hlo H1) as Hb1.
  destruct Hsize as [->|Hsize]; cbn [Nat.leb].
  { right. exists (String b0 (String b1 "")), t1.
    split; [done|]. split; [done|]. split.
    - split; [done|]. intros rest. rewrite !append_cons.
      unfold Go.DecodeRuneInString. by rewrite Hlow, Hseq, H1.
    - right. split; [done|]. cbn. by rewrite Hb0, Hb1. }
  destruct t1 as [|b2 t2].
  { destruct Hsize as [-> | ->]; by left. }
  destruct (Go.in_range 128 191 b2) eqn:H2; cbn [negb];
    [|destruct Hsize as [-> | ->]; by left].
  pose proof (in_range_high 128 191 b2 ltac:(lia) H2) as Hb2.
  destruct Hsize as [-> | ->]; cbn [Nat.leb].
  { right. exists (String b0 (String b1 (String b2 ""))), t2.
    split; [done|]. split; [done|]. split.
    - split; [done|]. intros rest. rewrite !append_cons.
      unfold Go.DecodeRuneInString. by rewrite Hlow, Hseq, H1, H2.
    - right. split; [done|]. cbn. by rewrite Hb0, Hb1, Hb2. }
  destruct t2 as [|b3 t3]; [by left|].
  destruct (Go.in_range 128 191 b3) eqn:H3; cbn [negb]; [|by left].
  pose proof (in_range_high 128 191 b3 ltac:(lia) H3) as Hb3.
  right. exists (String b0 (String b1 (String b2 (String b3 "")))), t3.
  split; [done|]. split; [done|]. split.
  - split; [done|]. intros rest. rewrite !append_cons.
    unfold Go.DecodeRuneInString. by rewrite Hlow, Hseq, H1, H2, H3.
  - right. split; [done|]. cbn. by rewrite Hb0, Hb1, Hb2, Hb3.
Qed.

Lemma range_from_skip (a rest : string) :
  Go.range_from (String.length a) (a +:+ rest) = Go.runes rest.
Proof. induction a as [|c t IH]; [done|]. rewrite append_cons. exact IH. Qed.

Lemma valid_from_skip (a rest : string) :
  Go.valid_from (String.length a) (a +:+ rest) = Go.ValidString rest.
Proof. induction a as [|c t IH]; [done|]. rewrite append_cons. exact IH. Qed.

(** The loop over the runes meets an encoding at the head of the text
    and goes on behind it. *)
Lemma runes_encoded (r rest : string) :
  encoded r -> Go.runes (r +:+ rest) = r :: Go.runes rest.
Proof.
  intros [Hne Hdecode]. destruct r as [|c t]; [done|].
  unfold Go.runes at 1. rewrite append_cons. cbn [Go.range_from].
  rewrite <- append_cons, Hdecode. cbn [String.length].
  replace (S (String.length t) - 1)%nat with (String.length t) by lia.
  by rewrite range_from_skip.
Qed.

Lemma runes_glue (rs : list string) (rest : string) :
  Forall encoded rs -> Go.runes (glue rs +:+ rest) = rs ++ Go.runes rest.
Proof.
  induction rs as [|r rs IH]; intros Hrs; [done|].
  apply Forall_cons in Hrs as [Hr Hrs]. cbn [glue fold_right app].
  rewrite append_assoc, runes_encoded by done. f_equal. by apply IH.
Qed.

(** A valid text is spelt by its runes, each one an encoding. *)
Lemma valid_runes (s : string) :
  Go.ValidString s = true ->
  Forall encoded (Go.runes s) /\ Forall plain (Go.runes s) /\
  glue (Go.runes s) = s.
Proof.
  remember (String.length s) as n eqn:Hn.
  assert (Hle : (String.length s <= n)%nat) by lia. clear Hn.
  revert s Hle. induction n as [|n IH]; intros s Hle Hvalid.
  { destruct s; [done | cbn in Hle; lia]. }
  destruct s as [|c t]; [done|].
  destruct (decode_cases (String c t) ltac:(done))
    as [Hbad|(r & rest & Hdec & Hs & Hr & Hplain)].
  - unfold Go.ValidString in Hvalid. cbn [Go.valid_from] in Hvalid.
    by rewrite Hbad in Hvalid.
  - unfold Go.ValidString in Hvalid. cbn [Go.valid_from] in Hvalid.
    rewrite Hdec in Hvalid. apply andb_true_iff in Hvalid as [_ Hvalid].
    destruct r as [|c' t']; [by destruct Hr|].
    rewrite append_cons in Hs. injection Hs as <- ->.
    cbn [String.length] in Hvalid.
    replace (S (String.length t') - 1)%nat with (String.length t')
      in Hvalid by lia.
    rewrite valid_from_skip in Hvalid.
    cbn [String.length] in Hle. rewrite length_append in Hle.
    destruct (IH rest ltac:(lia) Hvalid) as (He & Hp & Hg).
    rewrite <- append_cons, runes_encoded by done.
    split; [by apply Forall_cons|]. split; [by apply Forall_cons|].
    cbn [glue fold_right]. fold (glue (Go.runes rest)). by rewrite Hg.
Qed.

(** A rune that is an ASCII character is met where its byte is. *)
Lemma plain_eqb (r : string) (a : ascii) :
  plain r -> high a = false ->
  String.eqb r (String a "") = Go.mem a r.
Proof.
  intros [(c & -> & Hc)|[Hne Hhigh]] Ha.
  - unfold Go.mem. cbn. rewrite orb_false_r, (Ascii.eqb_sym a c).
    by destruct (Ascii.eqb c a).
  - destruct r as [|c t]; [done|].
    cbn [list_ascii_of_string forallb] in Hhigh.
    apply andb_true_iff in Hhigh as [Hc Ht].
    assert (Hdiff : forall c', high c' = true -> Ascii.eqb a c' = false).
    { intros c' Hc'. destruct (Ascii.eqb_spec a c') as [->|]; [|done].
      by rewrite Ha in Hc'. }
    assert (Hmem : forall t', forallb high (list_ascii_of_string t') = true ->
                     Go.mem a t' = false).
    { unfold Go.mem. induction t' as [|d t' IHt]; [done|].
      cbn [list_ascii_of_string forallb existsb].
      intros [Hd Ht']%andb_true_iff. by rewrite (Hdiff d Hd), IHt. }
    unfold Go.mem. cbn [list_ascii_of_string existsb String.eqb].
    rewrite (Hdiff c Hc). fold (Go.mem a t). rewrite (Hmem t Ht).
    by rewrite Ascii.eqb_sym, (Hdiff c Hc).
Qed.

Lemma plain_mem (r : string) (a : ascii) :
  plain r -> high a = false -> Go.mem a r = true -> r = String a "".
Proof.
  intros Hr Ha Hmem. rewrite <- (plain_eqb r a Hr Ha) in Hmem.
  by apply String.eqb_eq in Hmem.
Qed.

Lemma encoded_ascii (a : ascii) : high a = false -> encoded (String a "").
Proof.
  intros Ha. split; [done|]. intros rest. rewrite append_cons.
  unfold Go.DecodeRuneInString. unfold high in Ha.
  apply negb_false_iff in Ha. by rewrite Ha.
Qed.

Lemma ReplaceAll1_append (a b : string) (old : ascii) (new : string) :
  Go.ReplaceAll1 (a +:+ b) old new
  = Go.ReplaceAll1 a old new +:+ Go.ReplaceAll1 b old new.
Proof.
  induction a as [|c t IH]; [done|]. rewrite append_cons.
  cbn [Go.ReplaceAll1]. rewrite IH.
  destruct (Ascii.eqb c old); [by rewrite append_assoc | done].
Qed.

Lemma ReplaceAll1_none (a : string) (old : ascii) (new : string) :
  Go.mem old a = false -> Go.ReplaceAll1 a old new = a.
Proof.
  unfold Go.mem. induction a as [|c t IH]; [done|].
  cbn [list_ascii_of_string existsb Go.ReplaceAll1].
  intros [Hc Ht]%orb_false_iff. rewrite Ascii.eqb_sym in Hc.
  by rewrite Hc, IH.
Qed.

Lemma Split_nonempty (s : string) (sep : ascii) : Go.Split s sep <> [].
Proof.
  destruct s as [|c t]; [done|]. cbn [Go.Split].
  destruct (Ascii.eqb c sep); [done|]. by destruct (Go.Split t sep).
Qed.

Lemma Split_append (a rest : string) (sep : ascii) :
  Go.mem sep a = false ->
  Go.Split (a +:+ rest) sep
  = match Go.Split rest sep with
    | p :: ps => (a +:+ p) :: ps
    | [] => []
    end.
Proof.
  unfold Go.mem. induction a as [|c t IH].
  - intros _. change ("" +:+ ?x) with x.
    by destruct (Go.Split rest sep).
  - cbn [list_ascii_of_string existsb].
    intros [Hc Ht]%orb_false_iff. rewrite Ascii.eqb_sym in Hc.
    rewrite append_cons. cbn [Go.Split]. rewrite Hc, (IH Ht).
    pose proof (Split_nonempty rest sep).
    by destruct (Go.Split rest sep).
Qed.

End Runes.

(** ** Quoted arguments *)

Section Quoting.
Import Imap RuneSpec.

Lemma rev_string_rev_string (s acc1 acc2 : string) :
  Go.rev_string acc2 (Go.rev_string acc1 s) = Go.rev_string (s +:+ acc2) acc1.
Proof.
  revert acc1 acc2. induction s as [|c t IH]; intros acc1 acc2; [done|].
  cbn [Go.rev_string]. rewrite IH. by rewrite append_cons.
Qed.

Lemma reverse_involutive (s : string) : Go.reverse (Go.reverse s) = s.
Proof.
  unfold Go.reverse. rewrite rev_string_rev_string.
  cbn [Go.rev_string]. apply append_empty_r.
Qed.

Lemma rev_string_nonempty (s acc : string) :
  acc <> "" -> Go.rev_string acc s <> "".
Proof.
  revert acc. induction s as [|c t IH]; intros acc Hacc; [done|].
  cbn [Go.rev_string]. by apply IH.
Qed.

Lemma reverse_nonempty (s : string) : s <> "" -> Go.reverse s <> "".
Proof.
  destruct s as [|c t]; [done|]. intros _. unfold Go.reverse.
  cbn [Go.rev_string]. by apply rev_string_nonempty.
Qed.

Lemma rev_string_append (s acc : string) :
  Go.rev_string acc s = Go.reverse s +:+ acc.
Proof.
  unfold Go.reverse. revert acc.
  induction s as [|c t IH]; intros acc; [done|].
  cbn [Go.rev_string]. rewrite IH, (IH (String c "")).
  by rewrite append_assoc, append_cons.
Qed.

Lemma parseQuoted_nonempty (args : list Go.rune) (cur : string)
    (inQuotes escaped : bool) :
  Forall (fun a => a <> "") (parseQuoted cur inQuotes escaped args).
Proof.
  assert (Hflush : forall cur k,
             Forall (fun a : string => a <> "") k ->
             Forall (fun a : string => a <> "")
               (match cur with "" => k | _ => cur :: k end)).
  { intros [|c t] k Hk; [done|]. by apply Forall_cons. }
  revert cur inQuotes escaped.
  induction args as [|char t IH]; intros cur inQuotes escaped.
  - cbn [parseQuoted]. by apply Hflush.
  - cbn [parseQuoted].
    repeat match goal with
           | |- context [if ?b then _ else _] => destruct b
           end;
      first [ apply IH | apply Hflush, IH
            | apply Forall_cons; split; [done | apply IH] ].
Qed.

(** X2.  [parseQuotedArguments] never returns an empty argument: a pair
    of quotes with nothing between them contributes no element, so a
    command that needs an empty argument (a [LOGIN] with an empty password,
    say) counts one argument too few. *)
Theorem parseQuotedArguments_no_empty_argument (args : string) :
  Forall (fun a => a <> "") (parseQuotedArguments args).
Proof. apply parseQuoted_nonempty. Qed.

Lemma runes_ascii (a : ascii) (rest : string) :
  high a = false -> Go.runes (String a rest) = String a "" :: Go.runes rest.
Proof.
  intros Ha. change (String a rest) with (String a "" +:+ rest).
  apply runes_encoded. by apply encoded_ascii.
Qed.

(** The runes between two quotes, as [quoteString] writes them, are read
    back one for one. *)
Lemma parseQuoted_inside (rs : list string) :
  Forall encoded rs -> Forall plain rs ->
  Go.mem Go.BACKSLASH (glue rs) = false ->
  forall cur rest : string,
    parseQuoted cur true false
      (Go.runes (Go.ReplaceAll1 (glue rs) Go.DQ (String Go.BACKSLASH Go.dquote)
                 +:+ rest))
    = parseQuoted (cur +:+ glue rs) true false (Go.runes rest).
Proof.
  induction rs as [|r rs IH]; intros Henc Hplain Hback cur rest.
  { cbn [glue fold_right Go.ReplaceAll1]. by rewrite append_empty_r. }
  apply Forall_cons in Henc as [Hr Henc].
  apply Forall_cons in Hplain as [Hp Hplain].
  cbn [glue fold_right] in *. fold (glue rs) in *.
  rewrite mem_append in Hback. apply orb_false_iff in Hback as [Hb Hback].
  rewrite ReplaceAll1_append, append_assoc.
  destruct (Go.mem Go.DQ r) eqn:Hq.
  - apply plain_mem in Hq as ->; [|done..].
    set (esc := String Go.BACKSLASH Go.dquote).
    cbn [Go.ReplaceAll1]. change (Ascii.eqb Go.DQ Go.DQ) with true.
    cbn match. rewrite append_empty_r.
    change (esc +:+ ?x) with (String Go.BACKSLASH (String Go.DQ x)).
    rewrite !runes_ascii by done. cbn [parseQuoted].
    change (String.eqb (String Go.BACKSLASH "") (String Go.BACKSLASH ""))
      with true. cbn match.
    subst esc. rewrite (IH Henc Hplain Hback). by rewrite append_assoc.
  - rewrite (ReplaceAll1_none r) by done.
    rewrite runes_encoded by done. cbn [parseQuoted].
    rewrite !(plain_eqb r) by done. rewrite Hb, Hq.
    rewrite (IH Henc Hplain Hback), append_assoc.
    by destruct (Go.mem " " r).
Qed.

Lemma parseQuoted_quoteString (a rest : string) :
  a <> "" -> Go.ValidString a = true -> Go.mem Go.BACKSLASH a = false ->
  parseQuoted "" false false (Go.runes (quoteString a +:+ rest))
  = parseQuoted a false false (Go.runes rest).
Proof.
  intros Ha Hvalid Hback. unfold quoteString.
  destruct (String.eqb_spec a ""); [done|].
  destruct (valid_runes a Hvalid) as (Henc & Hplain & Hglue).
  unfold Go.quoted, Go.dquote. rewrite append_cons.
  change ("" +:+ ?x) with x. rewrite append_cons, append_assoc.
  rewrite runes_ascii by done. cbn [parseQuoted].
  change (String.eqb (String Go.DQ "") (String Go.BACKSLASH "")) with false.
  change (String.eqb (String Go.DQ "") (String Go.DQ "")) with true.
  cbn match. cbn [negb].
  rewrite <- Hglue at 1.
  rewrite parseQuoted_inside by (done || by rewrite Hglue).
  rewrite Hglue. change ("" +:+ a) with a.
  rewrite append_cons. change ("" +:+ ?x) with x.
  rewrite runes_ascii by done. cbn [parseQuoted].
  change (String.eqb (String Go.DQ "") (String Go.BACKSLASH "")) with false.
  change (String.eqb (String Go.DQ "") (String Go.DQ "")) with true.
  cbn match. cbn [negb]. reflexivity.
Qed.

Lemma parseQuoted_flush_end (cur : string) :
  cur <> "" -> parseQuoted cur false false [] = [cur].
Proof. intros Hcur. cbn [parseQuoted]. by destruct cur. Qed.

Lemma parseQuoted_flush_space (cur rest : string) :
  cur <> "" ->
  parseQuoted cur false false (Go.runes (" " +:+ rest))
  = cur :: parseQuoted "" false false (Go.runes rest).
Proof.
  intros Hcur. rewrite append_cons. change ("" +:+ ?x) with x.
  rewrite runes_ascii by done. cbn [parseQuoted].
  change (String.eqb " " (String Go.BACKSLASH "")) with false.
  change (String.eqb " " (String Go.DQ "")) with false.
  change (String.eqb " " " ") with true. cbn match.
  by destruct cur.
Qed.

(** X1.  What [quoteString] writes, [parseQuotedArguments] reads back:
    for every list of non-empty arguments that are valid UTF-8 and hold
    no backslash, quoting each one and joining them with single spaces
    gives a command line that parses to the same list.  Quotes, spaces
    and letters of several bytes inside an argument survive.  (A byte
    that is not valid UTF-8 does not: the loop over the runes writes
    U+FFFD for it.) *)
Theorem parseQuotedArguments_quoteString (args : list string) :
  Forall (fun a => a <> "" /\ Go.ValidString a = true /\
                   Go.mem Go.BACKSLASH a = false) args ->
  parseQuotedArguments (Go.Join (map quoteString args) " ") = args.
Proof.
  unfold parseQuotedArguments, Go.Join.
  induction args as [|a l IH]; intros Hall; [done|].
  apply Forall_cons in Hall as [(Ha & Hvalid & Hplain) Hl].
  cbn [map concat String.concat].
  destruct l as [|b l'].
  - cbn [map]. rewrite <- (append_empty_r (quoteString a)).
    rewrite parseQuoted_quoteString by done.
    by apply parseQuoted_flush_end.
  - cbn [map] in *.
    rewrite parseQuoted_quoteString by done.
    rewrite parseQuoted_flush_space by done.
    f_equal. by apply IH.
Qed.

Lemma parseQuotedArguments_quoteString_witness :
  parseQuotedArguments
    (Go.Join (map quoteString
                ["INBOX"; RuneSpec.drafts; "My Folder"; String Go.DQ "x"])
             " ")
  = ["INBOX"; RuneSpec.drafts; "My Folder"; String Go.DQ "x"].
Proof.
  apply parseQuotedArguments_quoteString.
  repeat (apply Forall_cons; split;
          [split; [vm_compute; discriminate | split; reflexivity]|]).
  apply Forall_nil_2.
Defined.

(** The pieces a line without quotes is cut into: [cur] holds the bytes
    of the piece being read. *)
Lemma parseQuoted_words (rs : list string) :
  Forall plain rs ->
  Go.mem Go.DQ (glue rs) = false -> Go.mem Go.BACKSLASH (glue rs) = false ->
  forall cur : string,
    parseQuoted cur false false rs
    = match Go.Split (glue rs) " " with
      | p :: ps => filter (fun a => a <> "") ((cur +:+ p) :: ps)
      | [] => []
      end.
Proof.
  induction rs as [|r rs IH]; intros Hplain Hq Hb cur.
  - cbn [parseQuoted glue fold_right Go.Split]. rewrite append_empty_r.
    destruct cur as [|c t]; [done|].
    by rewrite filter_cons_True.
  - apply Forall_cons in Hplain as [Hp Hplain].
    cbn [glue fold_right] in *. fold (glue rs) in *.
    rewrite mem_append in Hq. apply orb_false_iff in Hq as [Hq Hq'].
    rewrite mem_append in Hb. apply orb_false_iff in Hb as [Hb Hb'].
    specialize (IH Hplain Hq' Hb').
    cbn [parseQuoted].
    rewrite (plain_eqb r Go.BACKSLASH), (plain_eqb r Go.DQ) by done.
    rewrite Hb, Hq.
    change " " with (String " "%char "") at 1.
    rewrite (plain_eqb r " "%char) by done.
    pose proof (Split_nonempty (glue rs) " ") as Hne.
    destruct (Go.mem " " r) eqn:Hsp.
    + apply plain_mem in Hsp as ->; [|done..].
      rewrite append_cons. change ("" +:+ ?x) with x.
      cbn [Go.Split]. change (Ascii.eqb " " " ") with true. cbn match.
      rewrite append_empty_r, (IH "").
      destruct (Go.Split (glue rs) " ") as [|p ps]; [done|].
      change ("" +:+ p) with p.
      destruct cur as [|c' t'].
      * rewrite (filter_cons_False _ ""); [done|].
        intros H. by apply H.
      * by rewrite (filter_cons_True _ (String c' t')).
    + rewrite (IH (cur +:+ r)), Split_append by done.
      destruct (Go.Split (glue rs) " ") as [|p ps]; [done|].
      by rewrite append_assoc.
Qed.

(** X3.  On a line of valid UTF-8 without quotes and backslashes
    [parseQuotedArguments] is a split on the space that drops the empty
    pieces: runs of spaces, and spaces at either end, separate and produce
    nothing. *)
Theorem parseQuotedArguments_unquoted (args : string) :
  Go.ValidString args = true ->
  Go.mem Go.DQ args = false -> Go.mem Go.BACKSLASH args = false ->
  parseQuotedArguments args = filter (fun a => a <> "") (Go.Split args " ").
Proof.
  intros Hvalid Hq Hb. unfold parseQuotedArguments.
  destruct (valid_runes args Hvalid) as (_ & Hplain & Hglue).
  rewrite parseQuoted_words by (done || by rewrite Hglue).
  rewrite Hglue.
  pose proof (Split_nonempty args " ") as Hne.
  by destruct (Go.Split args " ").
Qed.

Lemma parseQuotedArguments_unquoted_witness :
  parseQuotedArguments (" alice  " +:+ RuneSpec.drafts +:+ " ")
  = ["alice"; RuneSpec.drafts].
Proof.
  rewrite (parseQuotedArguments_unquoted
             (" alice  " +:+ RuneSpec.drafts +:+ " "));
    reflexivity.
Defined.

End Quoting.

(** ** The mailbox argument *)

Section MailboxPath.
Context {RT : GoRuntime}.
Import Imap.

Lemma rev_string_snoc (s acc : string) (c : ascii) :
  Go.rev_string acc (s +:+ String c "") = String c (Go.rev_string acc s).
Proof.
  revert acc. induction s as [|d t IH]; intros acc; [done|].
  rewrite append_cons. cbn [Go.rev_string]. apply IH.
Qed.

(** X4.  [parseMailboxPath] panics on exactly one argument, the lone
    double quote (what is left of the argument once the blanks around it
    are trimmed): the slice [args[1:len(args)-1]] is then [args[1:0]].
    Every other argument is answered, and a path between two quotes comes
    back without them, byte for byte: escapes are not undone. *)
Theorem parseMailboxPath_lone_quote (args : string) :
  (parseMailboxPath args = Panic <-> TrimSpace args = Go.dquote) /\
  parseMailboxPath args <> OutOfFuel /\
  forall s : string,
    TrimSpace args = Go.quoted s -> parseMailboxPath args = Done s.
Proof.
  unfold parseMailboxPath. split; [|split].
  - destruct (TrimSpace args) as [|c [|c' t]]; [done| |].
    + unfold Go.HasSuffix, Go.HasPrefix, Go.reverse, Go.dquote.
      cbn [Go.rev_string String.prefix].
      destruct (ascii_dec Go.DQ c) as [<-|Hne]; cbn [andb].
      * by split.
      * split; [done|]. by intros [= ->].
    + destruct (_ && _)%bool; done.
  - destruct (TrimSpace args) as [|c [|c' t]];
      by destruct (_ && _)%bool.
  - intros s ->. unfold Go.quoted, Go.dquote.
    rewrite append_cons. change ("" +:+ ?x) with x.
    assert (Hsuffix : Go.HasSuffix (String Go.DQ (s +:+ String Go.DQ ""))
                        (String Go.DQ "") = true).
    { unfold Go.HasSuffix, Go.HasPrefix, Go.reverse.
      cbn [Go.rev_string]. rewrite rev_string_snoc.
      cbn [String.prefix].
      destruct (ascii_dec Go.DQ Go.DQ); [|done].
      by destruct (Go.rev_string _ s). }
    rewrite Hsuffix.
    assert (Hprefix : Go.HasPrefix (String Go.DQ (s +:+ String Go.DQ ""))
                        (String Go.DQ "") = true).
    { unfold Go.HasPrefix. cbn [String.prefix].
      destruct (ascii_dec Go.DQ Go.DQ); [|done].
      by destruct (s +:+ _). }
    rewrite Hprefix. cbn [andb].
    destruct (s +:+ String Go.DQ "") as [|c t] eqn:E.
    { by destruct s. }
    rewrite <- E. unfold Go.reverse at 2. rewrite rev_string_snoc.
    apply (f_equal Done). apply reverse_involutive.
Qed.

End MailboxPath.

Lemma parseMailboxPath_lone_quote_witness :
  @Imap.parseMailboxPath AsciiRuntime (" " +:+ Go.quoted "Sent Items")
  = Done "Sent Items".
Proof.
  apply (proj2 (proj2 (@parseMailboxPath_lone_quote AsciiRuntime _))).
  reflexivity.
Defined.

(** ** STORE: the flag list and the update *)

Section Flags.
Context {RT : GoRuntime}.
Import Imap StoreSpec.






Section Store.
Variable fails : DbCall -> bool.


End Store.

End Flags.


(** X6.  The flag list a FETCH prints is read back by STORE: for every
    message, the text [buildFlagsString] writes for it, put between
    parentheses and given to [parseFlags], sets on any message exactly the
    five flags of the first. *)
Theorem flags_printed_are_parsed_back (m m0 : Imap.Message) :
  StoreSpec.flags_of
    (Imap.set_flags
       (@Imap.parseFlags AsciiRuntime ("(" +:+ Imap.buildFlagsString m +:+ ")"))
       m0)
  = StoreSpec.flags_of m.
Proof.
  destruct m as [? ? ? ? ? ? ? ? ? ? ? ? ? seen answered flagged deleted draft ?].
  unfold StoreSpec.flags_of, Imap.set_flags, Imap.buildFlagsString.
  cbn [Imap.Seen Imap.Answered Imap.Flagged Imap.Deleted Imap.Draft].
  destruct seen, answered, flagged, deleted, draft; vm_compute; reflexivity.
Qed.

(** ** FETCH: what a fetch of metadata leaves alone *)

Section Fetch.
Context {RT : GoRuntime}.
Variable fails : Imap.DbCall -> bool.
Variable find_nil : Imap.Database -> option (list Imap.Message).
Import Imap.

Lemma buildFetchResponse_frame (msg : Message) (items : string) (w : World) :
  Go.Contains items "RFC822" = false ->
  Go.Contains items "BODY[HEADER]" = false ->
  Go.Contains items "BODY[TEXT]" = false ->
  snd (buildFetchResponse fails msg items w) = w.
Proof.
  intros Hfull Hheader Htext. unfold buildFetchResponse.
  rewrite Hfull, Hheader, Htext. cbn [andb].
  rewrite !orb_false_r.
  destruct (Go.Contains items "BODY.PEEK[HEADER]");
    destruct (Go.Contains items "BODY.PEEK[TEXT]"); reflexivity.
Qed.

Lemma Contains_UID_prefix (items sub : string) (c : ascii) (t : string) :
  sub = String c t ->
  c <> "U"%char -> c <> "I"%char -> c <> "D"%char -> c <> " "%char ->
  Go.Contains ("UID " +:+ items) sub = Go.Contains items sub.
Proof.
  intros -> HU HI HD HS.
  rewrite !append_cons. change ("" +:+ items) with items.
  cbn [Go.Contains]. unfold Go.HasPrefix at 1 2 3 4. cbn [String.prefix].
  repeat match goal with
         | |- context [ascii_dec c ?x] => destruct (ascii_dec c x); [done|]
         end.
  reflexivity.
Qed.

Lemma fetch_each_frame (prefix_uid : bool) (fetchItems : string)
    (msgs : list Message) (w : World) :
  Go.Contains fetchItems "RFC822" = false ->
  Go.Contains fetchItems "BODY[HEADER]" = false ->
  Go.Contains fetchItems "BODY[TEXT]" = false ->
  db (fetch_each fails prefix_uid fetchItems msgs w) = db w /\
  length (out (fetch_each fails prefix_uid fetchItems msgs w))
  = (length (out w) + length msgs)%nat.
Proof.
  intros Hfull Hheader Htext. revert w.
  induction msgs as [|msg rest IH]; intros w; [by cbn; rewrite Nat.add_0_r|].
  cbn [fetch_each].
  set (items := if (prefix_uid && negb (Go.Contains fetchItems "UID"))%bool
                then "UID " +:+ fetchItems else fetchItems).
  assert (Hitems : Go.Contains items "RFC822" = false /\
                   Go.Contains items "BODY[HEADER]" = false /\
                   Go.Contains items "BODY[TEXT]" = false).
  { unfold items. destruct (_ && _)%bool; [|done].
    rewrite !(Contains_UID_prefix fetchItems _ _ _ eq_refl); done. }
  destruct Hitems as (H1 & H2 & H3).
  pose proof (buildFetchResponse_frame msg items w H1 H2 H3) as Hframe.
  destruct (buildFetchResponse fails msg items w) as [response w1].
  cbn [snd] in Hframe. subst w1.
  destruct (IH (writeUntaggedResponse w response)) as [Hdb Hout].
  rewrite Hdb, Hout. cbn [writeUntaggedResponse db out].
  rewrite length_app. cbn [length]. split; [done | lia].
Qed.

(** X8.  A FETCH or UID FETCH whose upper-cased item list holds none of
    the texts [RFC822], [BODY[HEADER]] and [BODY[TEXT]] reads only: whatever
    the sequence set and the database answer, the session and the database
    are the same afterwards.  [BODY.PEEK[...]] items are among those
    lists. *)
Theorem fetch_without_body_reads_only (tag args seqSet items : string)
    (s s' : Session) (w w' : World) :
  Go.SplitN args " " 2 = [seqSet; items] ->
  Go.Contains (ToUpper items) "RFC822" = false ->
  Go.Contains (ToUpper items) "BODY[HEADER]" = false ->
  Go.Contains (ToUpper items) "BODY[TEXT]" = false ->
  handleFetch fails find_nil tag args s w = Done (s', w') \/
  handleUIDFetch fails find_nil tag args s w = Done (s', w') ->
  s' = s /\ db w' = db w.
Proof.
  intros Hsplit Hfull Hheader Htext.
  unfold handleFetch, handleUIDFetch. rewrite Hsplit.
  intros [Hrun|Hrun]; revert Hrun;
    (destruct (negb _); [by intros [= <- <-]|]);
    match goal with
    | |- context [mbind _ ?x] => destruct x as [flt| |]
    end; cbn [mbind Result_bind]; try discriminate;
    (destruct (fails FindMessages); [by intros [= <- <-]|]);
    (destruct flt as [flt|];
     [|destruct (find_nil (db w)); [|by intros [= <- <-]]]);
    intros [= <- <-]; cbn [writeResponse db];
    (split; [done|]); by apply fetch_each_frame.
Qed.

End Fetch.

Lemma fetch_without_body_reads_only_witness :
  exists s' w',
    @Imap.handleFetch AsciiRuntime Fixtures.no_faults Fixtures.nil_refused
      "A4" "3:* (uid flags body.peek[text])"
      Fixtures.selected (Fixtures.world Fixtures.two_messages)
    = Done (s', w') /\
    s' = Fixtures.selected /\
    Imap.db w' = Imap.db (Fixtures.world Fixtures.two_messages).
Proof.
  eexists _, _. split; [vm_compute; reflexivity|].
  eapply (@fetch_without_body_reads_only AsciiRuntime Fixtures.no_faults
            Fixtures.nil_refused "A4" "3:* (uid flags body.peek[text])"
            "3:*" "(uid flags body.peek[text])" Fixtures.selected _
            (Fixtures.world Fixtures.two_messages));
    [reflexivity | reflexivity | reflexivity | reflexivity
    | left; vm_compute; reflexivity].
Defined.

(** ** The discipline of the UIDs under MOVE and COPY *)

Section UidDiscipline.
Import Imap UidSpec.

Lemma update_first_by_key {A : Type} (key : A -> Z) (id : Z) (f : A -> A)
    (l : list A) :
  NoDup (map key l) ->
  update_first (fun x => key x =? id) f l
  = map (fun x => if key x =? id then f x else x) l.
Proof.
  induction l as [|a l IH]; cbn [update_first map]; intros Hnd; [done|].
  apply NoDup_cons in Hnd as [Ha Hnd].
  destruct (Z.eqb_spec (key a) id) as [E|E].
  - f_equal. symmetry. erewrite map_ext_in; [apply map_id|].
    intros x Hx. cbn beta.
    destruct (Z.eqb_spec (key x) id) as [E'|]; [|done].
    exfalso. apply Ha. rewrite E, <- E'.
    apply list_elem_of_In in Hx. by apply list_elem_of_fmap_2.
  - f_equal. by apply IH.
Qed.

Lemma NoDup_fmap_inj_in {A B : Type} (f : A -> B) (l : list A) (x y : A) :
  NoDup (map f l) -> x ∈ l -> y ∈ l -> f x = f y -> x = y.
Proof.
  induction l as [|a l IH]; cbn [map]; intros Hnd Hx Hy E.
  - by apply elem_of_nil in Hx.
  - apply NoDup_cons in Hnd as [Ha Hnd].
    apply elem_of_cons in Hx as [->|Hx]; apply elem_of_cons in Hy as [->|Hy].
    + done.
    + exfalso. apply Ha. rewrite E. by apply list_elem_of_fmap_2.
    + exfalso. apply Ha. rewrite <- E. by apply list_elem_of_fmap_2.
    + by apply IH.
Qed.

(** The counter update of one iteration, on a database whose mailboxes
    have distinct identifiers. *)
Lemma incUidNext_advances (dest : ObjectID) (d : Database) :
  NoDup (map Mailbox_ID (mailboxes d)) ->
  incUidNext dest d
  = mkDatabase (messages d)
      (map (fun b => if Mailbox_ID b =? dest then advanced 1 b else b)
           (mailboxes d)).
Proof.
  intros Hnd. unfold incUidNext. f_equal.
  by rewrite (update_first_by_key Mailbox_ID).
Qed.

(** One iteration of either loop: the messages become [msgs'], each of
    which is a message of before or lies in the destination with the UID
    [n], at most one of them doing so, and the counter of the destination
    goes from [n] to [n + 1]. *)
Lemma iteration_kept (dest : ObjectID) (n : Z) (d : Database)
    (msgs' : list Message) :
  well_kept d ->
  (exists b, b ∈ mailboxes d /\ Mailbox_ID b = dest /\ UIDNext b = n) ->
  NoDup (map ID msgs') ->
  NoDup (map placement msgs') ->
  (forall m, m ∈ msgs' -> m ∈ messages d \/ placement m = (dest, n)) ->
  let d' := incUidNext dest (mkDatabase msgs' (mailboxes d)) in
  well_kept d' /\
  messages d' = msgs' /\
  exists b, b ∈ mailboxes d' /\ Mailbox_ID b = dest /\ UIDNext b = n + 1.
Proof.
  intros (Hboxes & _ & Hbelow & _) (b0 & Hb0 & Hdest & Hnext) Hids Huniq Hfrom.
  cbn zeta. rewrite incUidNext_advances by done.
  cbn [messages mailboxes].
  split; [|split; [done|]].
  - unfold well_kept, below_next, uids_unique. cbn [messages mailboxes].
    split; [|split; [done|split; [|done]]].
    + rewrite map_map. erewrite map_ext; [exact Hboxes|].
      intros b. cbn beta. by destruct (Mailbox_ID b =? dest).
    + intros m b' Hm Hb' Hmb.
      apply list_elem_of_fmap in Hb' as (b & -> & Hb).
      assert (Hid : Mailbox_ID (if Mailbox_ID b =? dest then advanced 1 b else b)
                    = Mailbox_ID b) by (by destruct (Mailbox_ID b =? dest)).
      rewrite Hid in Hmb.
      destruct (Hfrom m Hm) as [Hold|Hnew].
      * pose proof (Hbelow m b Hold Hb Hmb) as Hlt.
        destruct (Mailbox_ID b =? dest); cbn; lia.
      * injection Hnew as Hmbox Huid.
        assert (b = b0) as ->.
        { apply (NoDup_fmap_inj_in Mailbox_ID (mailboxes d)); try done.
          congruence. }
        rewrite Hdest, Z.eqb_refl. cbn. lia.
  - exists (advanced 1 b0). split; [|split; [done | cbn; lia]].
    apply list_elem_of_fmap. exists b0. split; [|done].
    by rewrite Hdest, Z.eqb_refl.
Qed.

Lemma placement_fresh (dest : ObjectID) (n : Z) (d : Database) :
  below_next d ->
  (exists b, b ∈ mailboxes d /\ Mailbox_ID b = dest /\ UIDNext b = n) ->
  forall x, x ∈ messages d -> placement x <> (dest, n).
Proof.
  intros Hbelow (b & Hb & Hdest & Hnext) x Hx [= Hmbox Huid].
  pose proof (Hbelow x b Hx Hb) as Hlt. rewrite Hmbox, Hdest in Hlt.
  specialize (Hlt eq_refl). lia.
Qed.

Lemma placement_replaced (id : ObjectID) (g : Message -> Message)
    (v : ObjectID * Z) (l : list Message) :
  (forall m, placement (g m) = v) ->
  NoDup (map ID l) -> NoDup (map placement l) ->
  (forall x, x ∈ l -> placement x <> v) ->
  NoDup (map placement (map (fun m => if ID m =? id then g m else m) l)).
Proof.
  intros Hg. induction l as [|a l IH]; cbn [map]; intros Hids Hpl Hfresh;
    [constructor|].
  apply NoDup_cons in Hids as [Ha Hids]. apply NoDup_cons in Hpl as [Hpa Hpl].
  apply NoDup_cons. split.
  - intros Hin. rewrite map_map in Hin.
    apply list_elem_of_fmap in Hin as (x & Hx & Hxl).
    assert (Hfx : placement x <> v) by (apply Hfresh; by right).
    assert (Hfa : placement a <> v) by (apply Hfresh; by left).
    destruct (Z.eqb_spec (ID a) id) as [Ea|Ea];
      destruct (Z.eqb_spec (ID x) id) as [Ex|Ex].
    + apply Ha. rewrite Ea, <- Ex. by apply list_elem_of_fmap_2.
    + rewrite Hg in Hx. congruence.
    + rewrite Hg in Hx. congruence.
    + apply Hpa. rewrite Hx. by apply list_elem_of_fmap_2.
  - apply IH; try done. intros x Hx. apply Hfresh. by right.
Qed.

Section MoveLoop.
Variable fails : DbCall -> bool.
Hypothesis counters_kept : forall id, fails (UpdateOneMailbox id) = false.

Lemma move_each_kept (dest : ObjectID) (msgs : list Message) :
  forall (d : Database) (n : Z) (acc : list Z),
    well_kept d ->
    (exists b, b ∈ mailboxes d /\ Mailbox_ID b = dest /\ UIDNext b = n) ->
    well_kept (move_each fails dest msgs d n acc).1.1.
Proof.
  induction msgs as [|msg msgs IH]; intros d n acc Hkept Hcounter; [done|].
  cbn [move_each].
  destruct (fails (UpdateOneMessage (ID msg))); [by apply IH|].
  rewrite counters_kept.
  pose proof Hkept as (Hboxes & Hids & Hbelow & Huniq).
  set (msgs' := map (fun m => if ID m =? ID msg
                              then set_placement dest n m else m)
                    (messages d)).
  assert (Hd1 : updateOneMessage (ID msg) (set_placement dest n) d
                = mkDatabase msgs' (mailboxes d)).
  { unfold updateOneMessage. f_equal. by apply (update_first_by_key ID). }
  rewrite Hd1.
  destruct (iteration_kept dest n d msgs' Hkept Hcounter) as (Hk & _ & Hc).
  - unfold msgs'. rewrite map_map. erewrite map_ext; [exact Hids|].
    intros m. cbn beta. by destruct (ID m =? ID msg).
  - apply (placement_replaced _ _ (dest, n)); try done.
    by apply placement_fresh.
  - intros m Hm. apply list_elem_of_fmap in Hm as (x & -> & Hx).
    destruct (ID x =? ID msg); [by right | by left].
  - by apply IH.
Qed.

(** X9.  MOVE keeps the discipline of the UIDs.  In a database where
    mailboxes and messages have distinct identifiers, every UID is below
    the [uidNext] of its mailbox and no two messages of a mailbox share a
    UID, a MOVE whose updates of the counter succeed leaves a database with
    the same four properties, whatever it replies and whichever messages
    the database refuses to move. *)
Theorem move_keeps_uid_discipline {RT : GoRuntime} (tag args : string)
    (s s' : Session) (w w' : World) :
  well_kept (db w) ->
  handleMove fails tag args s w = Done (s', w') ->
  well_kept (db w').
Proof.
  intros Hkept. unfold handleMove.
  destruct (negb _); [by intros [= <- <-]|].
  destruct (Go.SplitN args " " 2) as [|seqSet [|dest [|? ?]]];
    try (by intros [= <- <-]).
  destruct (parseMailboxPath dest) as [path| |]; cbn [mbind Result_bind];
    [|discriminate..].
  destruct (session_user_ID s) as [uid| |]; cbn [mbind Result_bind];
    [|discriminate..].
  destruct (if fails FindOneMailbox then None
            else findMailbox uid path (db w)) as [destBox|] eqn:Hfind;
    [|by intros [= <- <-]].
  destruct (selected_ID s) as [box| |]; cbn [mbind Result_bind];
    [|discriminate..].
  destruct (fails FindMessages); [by intros [= <- <-]|].
  assert (Hin : destBox ∈ mailboxes (db w)).
  { destruct (fails FindOneMailbox); [done|].
    unfold findMailbox in Hfind. apply head_Some_elem_of in Hfind.
    by apply list_elem_of_filter in Hfind as [_ ?]. }
  pose proof (move_each_kept (Mailbox_ID destBox)
                (find (seqset_filter box seqSet) (db w)) (db w)
                (UIDNext destBox) [] Hkept) as Hloop.
  destruct (move_each fails (Mailbox_ID destBox) _ (db w) (UIDNext destBox) [])
    as [[d n] moved].
  intros [= <- <-]. cbn [writeResponse db].
  rewrite expunge_lines_db. cbn [set_db db]. apply Hloop. eauto.
Qed.

End MoveLoop.

Section CopyLoop.
Import ImapCopy.
Variable fails : CopyCall -> bool.
Variable NewObjectID : nat -> ObjectID.

(** The copies of a loop no insert of which fails. *)
Lemma copy_each_appends (dest : ObjectID) (msgs : list Message) :
  (forall i, fails (InsertOneMessage i) = false) ->
  forall (d : Database) (n : Z) (i : nat),
    messages (copy_each fails NewObjectID dest msgs d n i)
    = messages d ++
      imap (fun k m => set_placement dest (n + Z.of_nat k)
                         (set_ID (NewObjectID (i + k)) m)) msgs.
Proof.
  intros Hins. induction msgs as [|msg msgs IH]; intros d n i.
  - cbn. by rewrite app_nil_r.
  - cbn [copy_each imap]. rewrite Hins, IH.
    assert (Hm : forall x, messages (if fails (UpdateOneMailbox i)
                                     then insertOneMessage x d
                                     else incUidNext dest (insertOneMessage x d))
                           = messages d ++ [x])
      by (intros x; by destruct (fails (UpdateOneMailbox i))).
    rewrite Hm, <- app_assoc. cbn [app]. f_equal.
    rewrite Z.add_0_r, Nat.add_0_r. f_equal.
    apply imap_ext. intros k m _. cbn [compose].
    replace (n + 1 + Z.of_nat k) with (n + Z.of_nat (S k)) by lia.
    by replace (S i + k)%nat with (i + S k)%nat by lia.
Qed.

Lemma copy_with_reply {RT : GoRuntime} (expects completed tag args : string)
    (s s' : Session) (w w' : World) :
  copy_with fails NewObjectID expects completed tag args s w = Done (s', w') ->
  db w' = db w \/
  exists seqSet dest path uid box destBox,
    Go.SplitN args " " 2 = [seqSet; dest] /\
    parseMailboxPath dest = Done path /\
    session_user_ID s = Done uid /\ selected_ID s = Done box /\
    findMailbox uid path (db w) = Some destBox /\
    db w' = copy_each fails NewObjectID (Mailbox_ID destBox)
              (find (seqset_filter box seqSet) (db w)) (db w)
              (UIDNext destBox) 0.
Proof.
  unfold copy_with.
  destruct (negb _); [intros [= <- <-]; by left|].
  destruct (Go.SplitN args " " 2) as [|seqSet [|dest [|? ?]]];
    try (intros [= <- <-]; by left).
  destruct (parseMailboxPath dest) as [path| |] eqn:Hpath;
    cbn [mbind Result_bind]; [|discriminate..].
  destruct (session_user_ID s) as [uid| |] eqn:Huid;
    cbn [mbind Result_bind]; [|discriminate..].
  destruct (if fails FindOneMailbox then None
            else findMailbox uid path (db w)) as [destBox|] eqn:Hfind;
    [|intros [= <- <-]; by left].
  destruct (selected_ID s) as [box| |] eqn:Hbox; cbn [mbind Result_bind];
    [|discriminate..].
  destruct (fails FindMessages); [intros [= <- <-]; by left|].
  intros [= <- <-]. right.
  exists seqSet, dest, path, uid, box, destBox.
  repeat (split; [done|]).
  split; [by destruct (fails FindOneMailbox)|]. reflexivity.
Qed.

(** X10.  What a COPY adds.  When no insert fails, a COPY answered OK
    leaves every message of the database in place and untouched and
    appends, for the [k]-th message the sequence set selects (counted from
    0, in the order of the collection), one document equal to it but for
    the identifier, the destination mailbox and the UID [UIDNext + k] of
    the destination's counter as it was read at the start. *)
Theorem copy_appends_copies {RT : GoRuntime}
    (tag args seqSet dest path : string)
    (s : Session) (w : World) (u : User) (src destBox : Mailbox) :
  state s = StateSelected ->
  user s = Some u ->
  selectedBox s = Some src ->
  Go.SplitN args " " 2 = [seqSet; dest] ->
  parseMailboxPath dest = Done path ->
  fails FindOneMailbox = false ->
  fails FindMessages = false ->
  (forall i, fails (InsertOneMessage i) = false) ->
  findMailbox (User_ID u) path (db w) = Some destBox ->
  exists w',
    handleCopy fails NewObjectID tag args s w = Done (s, w') /\
    out w' = out w ++ [tag +:+ " OK COPY completed" +:+ Go.CRLF] /\
    messages (db w')
    = messages (db w) ++
      imap (copy_of NewObjectID (Mailbox_ID destBox) (UIDNext destBox))
           (find (seqset_filter (Mailbox_ID src) seqSet) (db w)).
Proof.
  intros Hsel Huser Hbox Hargs Hpath Hfm Hfind Hins Hdest.
  eexists. split.
  { unfold handleCopy, copy_with, session_user_ID, selected_ID.
    rewrite Hsel, Hargs. cbn [SessionState_eqb negb].
    rewrite Hpath. cbn [mbind Result_bind].
    rewrite Huser. cbn [mbind Result_bind].
    rewrite Hfm, Hdest, Hbox. cbn [mbind Result_bind].
    rewrite Hfind. reflexivity. }
  cbn [writeResponse set_db db out]. split; [done|].
  by rewrite copy_each_appends.
Qed.

Section CopyKept.
Hypothesis counters_kept : forall i, fails (UpdateOneMailbox i) = false.
Hypothesis fresh_inj : forall i j, NewObjectID i = NewObjectID j -> i = j.

Lemma copy_each_kept (dest : ObjectID) (msgs : list Message) :
  forall (d : Database) (n : Z) (i : nat),
    well_kept d ->
    (exists b, b ∈ mailboxes d /\ Mailbox_ID b = dest /\ UIDNext b = n) ->
    (forall j, (i <= j)%nat -> NewObjectID j ∉ map ID (messages d)) ->
    well_kept (copy_each fails NewObjectID dest msgs d n i) /\
    messages d `prefix_of`
      messages (copy_each fails NewObjectID dest msgs d n i).
Proof.
  induction msgs as [|msg msgs IH]; intros d n i Hkept Hcounter Hfresh;
    [done|].
  cbn [copy_each].
  destruct (fails (InsertOneMessage i)).
  { apply IH; try done. intros j Hj. apply Hfresh. lia. }
  rewrite counters_kept.
  pose proof Hkept as (Hboxes & Hids & Hbelow & Huniq).
  set (newMsg := set_placement dest n (set_ID (NewObjectID i) msg)).
  set (msgs' := messages d ++ [newMsg]).
  change (insertOneMessage newMsg d) with (mkDatabase msgs' (mailboxes d)).
  destruct (iteration_kept dest n d msgs' Hkept Hcounter) as (Hk & Hm & Hc).
  - unfold msgs'. rewrite map_app. apply NoDup_app.
    split; [done|]. split; [|apply NoDup_singleton].
    intros x Hx Hin. apply list_elem_of_singleton in Hin. subst x.
    by apply (Hfresh i).
  - unfold msgs'. rewrite map_app. apply NoDup_app.
    split; [done|]. split; [|apply NoDup_singleton].
    intros x Hx Hin. apply list_elem_of_singleton in Hin. subst x.
    apply list_elem_of_fmap in Hx as (y & Hy & Hyl).
    by apply (placement_fresh dest n d Hbelow Hcounter y).
  - intros m Hm. apply elem_of_app in Hm as [Hm|Hm]; [by left|].
    apply list_elem_of_singleton in Hm. subst m. by right.
  - destruct (IH _ (n + 1) (S i) Hk Hc) as [Hk' Hp'].
    + rewrite Hm. intros j Hj Hin. unfold msgs' in Hin.
      rewrite map_app in Hin. apply elem_of_app in Hin as [Hin|Hin].
      * apply (Hfresh j); [lia | done].
      * apply list_elem_of_singleton in Hin. cbn in Hin.
        apply fresh_inj in Hin. lia.
    + split; [done|]. etrans; [|exact Hp'].
      rewrite Hm. by apply prefix_app_r.
Qed.

(** X11.  COPY keeps the discipline of the UIDs and touches no message.
    In a database where mailboxes and messages have distinct identifiers,
    every UID is below the [uidNext] of its mailbox and no two messages of
    a mailbox share a UID, a COPY or UID COPY whose updates of the counter
    succeed, and whose new identifiers are fresh, leaves a database with
    the same four properties; the messages of before are still there, in
    place and unchanged, whichever inserts fail. *)
Theorem copy_keeps_uid_discipline {RT : GoRuntime} (tag args : string)
    (s s' : Session) (w w' : World) :
  well_kept (db w) ->
  (forall i, NewObjectID i ∉ map ID (messages (db w))) ->
  handleCopy fails NewObjectID tag args s w = Done (s', w') \/
  handleUIDCopy fails NewObjectID tag args s w = Done (s', w') ->
  well_kept (db w') /\ messages (db w) `prefix_of` messages (db w').
Proof.
  intros Hkept Hfresh Hrun.
  assert (Hcases :
    db w' = db w \/
    exists seqSet dest path uid box destBox,
      Go.SplitN args " " 2 = [seqSet; dest] /\
      parseMailboxPath dest = Done path /\
      session_user_ID s = Done uid /\ selected_ID s = Done box /\
      findMailbox uid path (db w) = Some destBox /\
      db w' = copy_each fails NewObjectID (Mailbox_ID destBox)
                (find (seqset_filter box seqSet) (db w)) (db w)
                (UIDNext destBox) 0).
  { destruct Hrun as [Hrun|Hrun]; by eapply copy_with_reply. }
  destruct Hcases as [->|(seqSet & dest & path & uid & box & destBox &
                          _ & _ & _ & _ & Hfind & ->)]; [done|].
  apply copy_each_kept; [done| |by intros j _].
  exists destBox. split; [|done].
  unfold findMailbox in Hfind. apply head_Some_elem_of in Hfind.
  by apply list_elem_of_filter in Hfind as [_ ?].
Qed.

End CopyKept.

End CopyLoop.

End UidDiscipline.

Lemma two_messages_well_kept : UidSpec.well_kept Fixtures.two_messages.
Proof.
  unfold UidSpec.well_kept, UidSpec.below_next, UidSpec.uids_unique.
  cbn [Imap.messages Imap.mailboxes Fixtures.two_messages map].
  split; [|split; [|split]].
  - repeat constructor; cbn; rewrite ?elem_of_cons, ?elem_of_nil;
      intuition discriminate.
  - repeat constructor; cbn; rewrite ?elem_of_cons, ?elem_of_nil;
      intuition discriminate.
  - intros m b Hm Hb.
    repeat (apply elem_of_cons in Hm as [->|Hm]);
      try (by apply elem_of_nil in Hm);
      repeat (apply elem_of_cons in Hb as [->|Hb]);
      try (by apply elem_of_nil in Hb); cbn; intros; try discriminate; lia.
  - repeat constructor; cbn; rewrite ?elem_of_cons, ?elem_of_nil;
      intuition discriminate.
Qed.

Lemma move_keeps_uid_discipline_witness :
  exists s' w',
    @Imap.handleMove AsciiRuntime Fixtures.no_faults "A7" "* Archive"
      Fixtures.selected (Fixtures.world Fixtures.two_messages)
    = Done (s', w') /\
    UidSpec.well_kept (Imap.db w').
Proof.
  eexists _, _. split; [vm_compute; reflexivity|].
  eapply (@move_keeps_uid_discipline Fixtures.no_faults (fun _ => eq_refl)
            AsciiRuntime "A7" "* Archive" Fixtures.selected _
            (Fixtures.world Fixtures.two_messages));
    [exact two_messages_well_kept | vm_compute; reflexivity].
Defined.

Lemma copy_appends_copies_witness :
  exists w',
    @ImapCopy.handleCopy AsciiRuntime UidSpec.no_copy_faults UidSpec.fresh_ids
      "A8" "* Archive" Fixtures.selected (Fixtures.world Fixtures.two_messages)
    = Done (Fixtures.selected, w') /\
    Imap.out w' = ["A8 OK COPY completed" +:+ Go.CRLF] /\
    Imap.messages (Imap.db w')
    = Imap.messages Fixtures.two_messages ++
      imap (UidSpec.copy_of UidSpec.fresh_ids 11 1)
           (Imap.messages Fixtures.two_messages).
Proof.
  apply (@copy_appends_copies UidSpec.no_copy_faults UidSpec.fresh_ids
           AsciiRuntime "A8" "* Archive" "*" "Archive" "Archive"
           Fixtures.selected (Fixtures.world Fixtures.two_messages)
           Fixtures.alice Fixtures.inbox Fixtures.archive);
    reflexivity.
Defined.

Lemma copy_keeps_uid_discipline_witness :
  exists s' w',
    @ImapCopy.handleUIDCopy AsciiRuntime UidSpec.no_copy_faults
      UidSpec.fresh_ids "A9" "5 Archive"
      Fixtures.selected (Fixtures.world Fixtures.two_messages)
    = Done (s', w') /\
    UidSpec.well_kept (Imap.db w') /\
    Imap.messages Fixtures.two_messages `prefix_of` Imap.messages (Imap.db w').
Proof.
  eexists _, _. split; [vm_compute; reflexivity|].
  apply (@copy_keeps_uid_discipline UidSpec.no_copy_faults UidSpec.fresh_ids
           (fun _ => eq_refl)
           (fun i j (H : UidSpec.fresh_ids i = UidSpec.fresh_ids j) =>
              Nat2Z.inj i j (Z.add_reg_l 1000 _ _ H))
           AsciiRuntime "A9" "5 Archive" Fixtures.selected
           (Imap.mkSession true (Some Fixtures.alice) (Some Fixtures.inbox)
              Imap.StateSelected)
           (Fixtures.world Fixtures.two_messages)).
  - exact two_messages_well_kept.
  - intros i Hin. unfold UidSpec.fresh_ids in Hin. cbn in Hin.
    rewrite !elem_of_cons, elem_of_nil in Hin. lia.
  - right. vm_compute. reflexivity.
Defined.

(** ** The commands on mailboxes *)

Section MailboxCommands.
Context {RT : GoRuntime}.
Import Mailboxes MailboxSpec.
Variable fails : Call -> bool.

Lemma owned_key (uid : ObjectID) (path : string) (b : Box) :
  owned uid path b = true <-> box_key b = (uid, path).
Proof.
  unfold owned, box_key. rewrite andb_true_iff, Z.eqb_eq, String.eqb_eq.
  split; [by intros [-> ->] | by intros [= -> ->]].
Qed.

Lemma count_zero (uid : ObjectID) (path : string) (d : Store) :
  (0 <? countMailboxes uid path d) = false ->
  forall b, b ∈ mailboxes d -> box_key b <> (uid, path).
Proof.
  unfold countMailboxes. intros Hcount b Hb Hkey.
  apply owned_key in Hkey.
  assert (Hin : b ∈ filter (fun b => owned uid path b = true) (mailboxes d))
    by (by apply list_elem_of_filter).
  destruct (filter _ (mailboxes d)); [by apply elem_of_nil in Hin|].
  cbn [length] in Hcount. apply Z.ltb_ge in Hcount. lia.
Qed.

Lemma update_first_elem_of {A : Type} (p : A -> bool) (f : A -> A)
    (l : list A) (y : A) :
  y ∈ Imap.update_first p f l ->
  y ∈ l \/ exists x, x ∈ l /\ p x = true /\ y = f x.
Proof.
  induction l as [|a l IH]; cbn [Imap.update_first]; [by left|].
  destruct (p a) eqn:Hp.
  - intros [->|Hy]%elem_of_cons.
    + right. exists a. split; [by left | done].
    + left. by right.
  - intros [->|Hy]%elem_of_cons; [left; by left|].
    destruct (IH Hy) as [?|(x & ? & ? & ?)].
    + left. by right.
    + right. exists x. split; [by right | done].
Qed.

Lemma update_first_fresh_key {A K : Type} (key : A -> K) (v : K)
    (p : A -> bool) (f : A -> A) (l : list A) :
  (forall x, p x = true -> key (f x) = v) ->
  NoDup (map key l) ->
  (forall x, x ∈ l -> key x <> v) ->
  NoDup (map key (Imap.update_first p f l)).
Proof.
  intros Hf. induction l as [|a l IH]; cbn [Imap.update_first map];
    intros Hnd Hfresh; [constructor|].
  apply NoDup_cons in Hnd as [Ha Hnd].
  destruct (p a) eqn:Hp; cbn [map]; apply NoDup_cons.
  - split; [|done]. rewrite Hf by done. intros Hin.
    apply list_elem_of_fmap in Hin as (x & Hx & Hxl).
    apply (Hfresh x); [by right | done].
  - split.
    + intros Hin. apply list_elem_of_fmap in Hin as (y & Hy & Hyl).
      apply update_first_elem_of in Hyl as [Hyl|(x & Hx & Hpx & ->)].
      * apply Ha. rewrite Hy. by apply list_elem_of_fmap_2.
      * rewrite Hf in Hy by done. apply (Hfresh a); [by left | done].
    + apply IH; [done|]. intros x Hx. apply Hfresh. by right.
Qed.

Lemma update_first_same_key {A K : Type} (key : A -> K)
    (p : A -> bool) (f : A -> A) (l : list A) :
  (forall x, key (f x) = key x) ->
  map key (Imap.update_first p f l) = map key l.
Proof.
  intros Hf. induction l as [|a l IH]; cbn [Imap.update_first map]; [done|].
  destruct (p a); cbn [map]; [by rewrite Hf | by rewrite IH].
Qed.

Lemma delete_first_sublist {A : Type} (p : A -> bool) (l : list A) :
  delete_first p l `sublist_of` l.
Proof.
  induction l as [|a l IH]; cbn [delete_first]; [done|].
  destruct (p a); [by apply sublist_cons | by apply sublist_skip].
Qed.

(** X12.  No user ever gets two mailboxes of one path.  If the paths
    of every user are distinct before a CREATE, RENAME, DELETE, SUBSCRIBE or
    UNSUBSCRIBE, they are distinct after it, whatever the arguments, the
    session and the failures of the database. *)
Theorem mailbox_commands_keep_paths_unique (NewObjectID : ObjectID) (now : Z)
    (tag args : string) (s s' : Imap.Session) (w w' : World) :
  paths_unique (db w) ->
  handleCreate fails NewObjectID now tag args s w = Done (s', w') \/
  handleRename fails tag args s w = Done (s', w') \/
  handleDelete fails tag args s w = Done (s', w') \/
  handleSubscribe fails tag args s w = Done (s', w') \/
  handleUnsubscribe fails tag args s w = Done (s', w') ->
  paths_unique (db w').
Proof.
  intros Huniq Hrun.
  assert (Hsub : forall v completed,
             subscribe_with fails v completed tag args s w = Done (s', w') ->
             paths_unique (db w')).
  { intros v completed. unfold subscribe_with.
    destruct (negb _); [by intros [= <- <-]|].
    destruct (Imap.parseMailboxPath args) as [path| |];
      cbn [mbind Result_bind]; [|discriminate..].
    destruct (String.eqb path ""); [by intros [= <- <-]|].
    destruct (Imap.session_user_ID s) as [uid| |];
      cbn [mbind Result_bind]; [|discriminate..].
    destruct (fails UpdateOneMailbox); [by intros [= <- <-]|].
    destruct (findMailbox uid path (db w)); intros [= <- <-]; [|done].
    unfold paths_unique. cbn [writeResponse set_db db mailboxes].
    by rewrite update_first_same_key. }
  destruct Hrun as [Hrun|[Hrun|[Hrun|[Hrun|Hrun]]]];
    [| | |by eapply Hsub..]; revert Hrun.
  - unfold handleCreate.
    destruct (negb _); [by intros [= <- <-]|].
    destruct (Imap.parseMailboxPath args) as [path| |];
      cbn [mbind Result_bind]; [|discriminate..].
    destruct (String.eqb path ""); [by intros [= <- <-]|].
    destruct (Imap.session_user_ID s) as [uid| |];
      cbn [mbind Result_bind]; [|discriminate..].
    destruct (fails CountMailboxes); [by intros [= <- <-]|].
    destruct (0 <? countMailboxes uid path (db w)) eqn:Hcount;
      [by intros [= <- <-]|].
    destruct (fails InsertOneMailbox); intros [= <- <-]; [done|].
    unfold paths_unique. cbn [writeResponse set_db db mailboxes].
    rewrite map_app. apply NoDup_app. split; [done|].
    split; [|apply NoDup_singleton].
    intros k Hk Hin. apply list_elem_of_singleton in Hin. subst k.
    apply list_elem_of_fmap in Hk as (b & Hkey & Hb).
    by apply (count_zero uid path (db w) Hcount b).
  - unfold handleRename.
    destruct (negb _); [by intros [= <- <-]|].
    destruct (Imap.parseQuotedArguments args) as [|oldPath [|newPath [|? ?]]];
      try (by intros [= <- <-]).
    destruct (Imap.session_user_ID s) as [uid| |];
      cbn [mbind Result_bind]; [|discriminate..].
    destruct (fails CountMailboxes); [by intros [= <- <-]|].
    destruct (0 <? countMailboxes uid newPath (db w)) eqn:Hcount;
      [by intros [= <- <-]|].
    destruct (fails UpdateOneMailbox); [by intros [= <- <-]|].
    destruct (findMailbox uid oldPath (db w)) as [b|] eqn:Hfind;
      intros [= <- <-]; [|done].
    unfold paths_unique. cbn [writeResponse set_db db mailboxes].
    apply (update_first_fresh_key box_key (uid, newPath)); [|done|].
    + intros x Hx. apply owned_key in Hx. injection Hx as Hu _.
      unfold box_key. cbn. by rewrite Hu.
    + by apply count_zero.
  - unfold handleDelete.
    destruct (negb _); [by intros [= <- <-]|].
    destruct (Imap.parseMailboxPath args) as [path| |];
      cbn [mbind Result_bind]; [|discriminate..].
    destruct (String.eqb path ""); [by intros [= <- <-]|].
    destruct (Imap.session_user_ID s) as [uid| |];
      cbn [mbind Result_bind]; [|discriminate..].
    destruct (if fails FindOneMailbox then None
              else findMailbox uid path (db w)) as [b|];
      [|by intros [= <- <-]].
    destruct (negb _); [by intros [= <- <-]|].
    destruct (fails DeleteManyMessages); [by intros [= <- <-]|].
    destruct (fails DeleteOneMailbox); intros [= <- <-]; [done|].
    unfold paths_unique. cbn [writeResponse set_db db mailboxes].
    eapply sublist_NoDup; [exact Huniq|].
    apply fmap_sublist, delete_first_sublist.
Qed.


Lemma delete_first_elem_of {A : Type} (p : A -> bool) (l : list A) (x : A) :
  x ∈ l -> p x = false -> x ∈ delete_first p l.
Proof.
  intros Hx Hp. induction l as [|a l IH]; cbn [delete_first]; [done|].
  apply elem_of_cons in Hx as [->|Hx].
  - rewrite Hp. by left.
  - destruct (p a); [done|]. right. by apply IH.
Qed.

Lemma messages_of_others (id other_id : ObjectID)
    (msgs : list Imap.Message) (boxes boxes' : list Box) :
  id <> other_id ->
  messages_of id
    (mkStore (filter (fun m => Imap.Message_Mailbox m <> other_id) msgs) boxes)
  = messages_of id (mkStore msgs boxes').
Proof.
  intros Hne. unfold messages_of. cbn [messages].
  rewrite list_filter_filter. apply list_filter_iff.
  intros m. split; [tauto|]. intros Hm. split; [done | congruence].
Qed.

Lemma findMailbox_Some (uid : ObjectID) (path : string) (d : Store) (b : Box) :
  findMailbox uid path d = Some b ->
  b ∈ mailboxes d /\ Box_User b = uid /\ Box_Path b = path.
Proof.
  unfold findMailbox. intros Hfind. apply head_Some_elem_of in Hfind.
  apply list_elem_of_filter in Hfind as [Hkey Hb].
  apply owned_key in Hkey. injection Hkey as Hu Hp. done.
Qed.

(** X13.  DELETE stays within its mailbox.  In a database whose
    mailboxes have distinct identifiers, whatever a DELETE is given and
    whatever it answers, a special-use mailbox and a mailbox of another
    user are still there afterwards with all their messages, and the
    session is as before (also when the mailbox removed was the selected
    one). *)
Theorem delete_spares_other_mailboxes (tag args : string)
    (s s' : Imap.Session) (w w' : World) (c : Box) :
  ids_unique (db w) ->
  handleDelete fails tag args s w = Done (s', w') ->
  c ∈ mailboxes (db w) ->
  Box_SpecialUse c <> "" \/
  (forall u, Imap.user s = Some u -> Box_User c <> Imap.User_ID u) ->
  s' = s /\
  c ∈ mailboxes (db w') /\
  messages_of (Box_ID c) (db w') = messages_of (Box_ID c) (db w).
Proof.
  intros Hids Hrun Hc Hother. revert Hrun. unfold handleDelete.
  destruct (negb _); [by intros [= <- <-]|].
  destruct (Imap.parseMailboxPath args) as [path| |];
    cbn [mbind Result_bind]; [|discriminate..].
  destruct (String.eqb path ""); [by intros [= <- <-]|].
  unfold Imap.session_user_ID.
  destruct (Imap.user s) as [u|] eqn:Huser; cbn [mbind Result_bind];
    [|discriminate].
  destruct (if fails FindOneMailbox then None
            else findMailbox (Imap.User_ID u) path (db w)) as [b|] eqn:Hfind;
    [|by intros [= <- <-]].
  destruct (String.eqb_spec (Box_SpecialUse b) "") as [Hplain|];
    cbn [negb]; [|by intros [= <- <-]].
  destruct (fails DeleteManyMessages); [by intros [= <- <-]|].
  assert (Hb : b ∈ mailboxes (db w) /\ Box_User b = Imap.User_ID u /\
               Box_Path b = path).
  { destruct (fails FindOneMailbox); [done|]. by apply findMailbox_Some. }
  destruct Hb as (Hb & Hbu & _).
  assert (Hne : Box_ID c <> Box_ID b).
  { intros Heq.
    assert (c = b) as -> by (by apply (NoDup_fmap_inj_in Box_ID (mailboxes (db w)))).
    destruct Hother as [Hspecial|Huser']; [done|].
    by apply (Huser' u). }
  assert (Hmsgs : forall boxes,
             messages_of (Box_ID c)
               (mkStore (filter (fun m => Imap.Message_Mailbox m <> Box_ID b)
                                (messages (db w))) boxes)
             = messages_of (Box_ID c) (db w)).
  { intros boxes. destruct (db w) as [msgs boxes0].
    by apply messages_of_others. }
  destruct (fails DeleteOneMailbox); intros [= <- <-];
    cbn [writeResponse set_db db mailboxes messages].
  - split; [done|]. split; [done|]. apply Hmsgs.
  - split; [done|]. split; [|apply Hmsgs].
    apply delete_first_elem_of; [done|]. by apply Z.eqb_neq.
Qed.

(** X14.  DELETE is not atomic.  When the messages of the mailbox were
    deleted and the removal of the mailbox itself fails, the command
    answers NO and the mailbox is still listed, yet none of its messages
    is left. *)
Theorem delete_refused_after_emptying (tag args path : string)
    (s : Imap.Session) (w : World) (u : Imap.User) (b : Box) :
  Imap.authenticated s = true ->
  Imap.user s = Some u ->
  Imap.parseMailboxPath args = Done path ->
  path <> "" ->
  fails FindOneMailbox = false ->
  findMailbox (Imap.User_ID u) path (db w) = Some b ->
  Box_SpecialUse b = "" ->
  fails DeleteManyMessages = false ->
  fails DeleteOneMailbox = true ->
  exists w',
    handleDelete fails tag args s w = Done (s, w') /\
    out w' = out w ++ [tag +:+ " NO Failed to delete mailbox" +:+ Go.CRLF] /\
    mailboxes (db w') = mailboxes (db w) /\
    messages_of (Box_ID b) (db w') = [] /\
    forall id, id <> Box_ID b ->
               messages_of id (db w') = messages_of id (db w).
Proof.
  intros Hauth Huser Hpath Hne Hfm Hfind Hplain Hdm Hdo.
  eexists. split.
  { unfold handleDelete, Imap.session_user_ID.
    rewrite Hauth, Hpath. cbn [negb mbind Result_bind].
    destruct (String.eqb_spec path "") as [E|_]; [exfalso; by apply Hne|].
    rewrite Huser. cbn [mbind Result_bind].
    rewrite Hfm, Hfind, Hplain, Hdm, Hdo. reflexivity. }
  cbn [writeResponse set_db db out mailboxes].
  split; [done|]. split; [done|]. split.
  - unfold messages_of. cbn [messages]. rewrite list_filter_filter.
    induction (messages (db w)) as [|m l IH]; [done|].
    rewrite filter_cons. by destruct (decide _) as [[? ?]|].
  - intros id Hid. destruct (db w) as [msgs boxes].
    by apply messages_of_others.
Qed.

(** What [handleSelect] answers, case by case. *)
Lemma handleSelect_cases (tag args : string)
    (s s' : Imap.Session) (w w' : World) :
  handleSelect fails tag args s w = Done (s', w') ->
  db w' = db w /\
  ((s' = s /\ exists line, out w' = out w ++ [line]) \/
   exists u b,
     Imap.user s = Some u /\ b ∈ mailboxes (db w) /\
     Box_User b = Imap.User_ID u /\
     s' = Imap.mkSession true (Some u)
            (Some (to_mailbox b
                     (map Imap.UID (messages_of (Box_ID b) (db w)))))
            Imap.StateSelected /\
     out w' = out w ++
              select_lines tag b (length (messages_of (Box_ID b) (db w)))).
Proof.
  unfold handleSelect.
  destruct (Imap.authenticated s) eqn:Hauth; cbn [negb];
    [|intros [= <- <-]; split; [done|]; left; eauto].
  destruct (Imap.parseMailboxPath args) as [path| |];
    cbn [mbind Result_bind]; [|discriminate..].
  destruct (String.eqb path "");
    [intros [= <- <-]; split; [done|]; left; eauto|].
  unfold Imap.session_user_ID.
  destruct (Imap.user s) as [u|] eqn:Huser; cbn [mbind Result_bind];
    [|discriminate].
  destruct (if fails FindOneMailbox then None
            else findMailbox (Imap.User_ID u) path (db w)) as [b|] eqn:Hfind;
    [|intros [= <- <-]; split; [done|]; left; eauto].
  destruct (fails FindMessages);
    [intros [= <- <-]; split; [done|]; left; eauto|].
  destruct (fails CursorAll);
    [intros [= <- <-]; split; [done|]; left; eauto|].
  intros [= <- <-]. split; [done|]. right. exists u, b.
  assert (Hb : b ∈ mailboxes (db w) /\ Box_User b = Imap.User_ID u /\
               Box_Path b = path).
  { destruct (fails FindOneMailbox); [done|]. by apply findMailbox_Some. }
  destruct Hb as (Hb & Hbu & _).
  split; [done|]. split; [done|]. split; [done|]. split; [done|].
  cbn [writeResponse writeUntaggedResponse out db select_lines].
  by rewrite <- !app_assoc.
Qed.

(** X15.  SELECT reads, and selects only what the user owns.  It never
    changes the database.  When it selects, the mailbox is one of the
    session's user, its run-time UID list holds the UIDs of the mailbox's
    messages in the order of the collection, and the EXISTS line gives their
    number.  When it refuses, it writes one line and leaves the session as
    it was: a mailbox selected before stays selected. *)
Theorem select_only_own_mailbox (tag args : string)
    (s s' : Imap.Session) (w w' : World) :
  handleSelect fails tag args s w = Done (s', w') ->
  db w' = db w /\
  ((s' = s /\ exists line, out w' = out w ++ [line]) \/
   exists u b,
     Imap.user s = Some u /\ b ∈ mailboxes (db w) /\
     Box_User b = Imap.User_ID u /\
     s' = Imap.mkSession true (Some u)
            (Some (to_mailbox b
                     (map Imap.UID (messages_of (Box_ID b) (db w)))))
            Imap.StateSelected /\
     out w' = out w ++
              select_lines tag b (length (messages_of (Box_ID b) (db w)))).
Proof. apply handleSelect_cases. Qed.

(** X16.  EXAMINE always ends with a tagged OK, and is otherwise a
    SELECT.  When the selection is refused, the refusal is followed by
    [OK [READ-ONLY] EXAMINE completed] although no mailbox is selected; when
    it succeeds, the session is the one SELECT builds (nothing in it marks
    the mailbox read-only) and the tagged [OK [READ-WRITE]] of SELECT comes
    before the one of EXAMINE. *)
Theorem examine_always_answers_ok (tag args : string)
    (s s' : Imap.Session) (w w' : World) :
  handleExamine fails tag args s w = Done (s', w') ->
  db w' = db w /\
  ((s' = s /\ exists line, out w' = out w ++ [line; examine_line tag]) \/
   exists u b,
     Imap.user s = Some u /\ b ∈ mailboxes (db w) /\
     Box_User b = Imap.User_ID u /\
     s' = Imap.mkSession true (Some u)
            (Some (to_mailbox b
                     (map Imap.UID (messages_of (Box_ID b) (db w)))))
            Imap.StateSelected /\
     out w' = out w ++
              select_lines tag b (length (messages_of (Box_ID b) (db w))) ++
              [examine_line tag]).
Proof.
  unfold handleExamine.
  destruct (handleSelect fails tag args s w) as [[s1 w1]| |] eqn:Hselect;
    cbn [mbind Result_bind]; [|discriminate..].
  intros [= <- <-].
  destruct (handleSelect_cases _ _ _ _ _ _ Hselect) as [Hdb Hcases].
  cbn [writeResponse db out]. split; [done|].
  destruct Hcases as [[-> [line Hout]]|(u & b & ? & ? & ? & ? & Hout)].
  - left. split; [done|]. exists line. rewrite Hout, <- app_assoc. done.
  - right. exists u, b. repeat (split; [done|]).
    rewrite Hout, <- app_assoc. done.
Qed.

End MailboxCommands.

Lemma store_paths_unique : MailboxSpec.paths_unique MailboxSpec.store.
Proof.
  unfold MailboxSpec.paths_unique. cbn.
  repeat constructor; rewrite ?elem_of_cons, ?elem_of_nil;
    intuition discriminate.
Qed.

Lemma store_ids_unique : MailboxSpec.ids_unique MailboxSpec.store.
Proof.
  unfold MailboxSpec.ids_unique. cbn.
  repeat constructor; rewrite ?elem_of_cons, ?elem_of_nil;
    intuition discriminate.
Qed.

Lemma mailbox_commands_keep_paths_unique_witness :
  exists s' w',
    Mailboxes.handleRename MailboxSpec.no_faults
      "A1" "Work Archive" MailboxSpec.logged_in MailboxSpec.world
    = Done (s', w') /\
    MailboxSpec.paths_unique (Mailboxes.db w').
Proof.
  eexists _, _. split; [vm_compute; reflexivity|].
  eapply (@mailbox_commands_keep_paths_unique AsciiRuntime
            MailboxSpec.no_faults 0 0 "A1" "Work Archive"
            MailboxSpec.logged_in _ MailboxSpec.world);
    [exact store_paths_unique | right; left; vm_compute; reflexivity].
Defined.

Lemma delete_spares_other_mailboxes_witness :
  exists s' w',
    @Mailboxes.handleDelete AsciiRuntime MailboxSpec.no_faults
      "A2" "Work" MailboxSpec.logged_in MailboxSpec.world
    = Done (s', w') /\
    s' = MailboxSpec.logged_in /\
    MailboxSpec.other ∈ Mailboxes.mailboxes (Mailboxes.db w') /\
    Mailboxes.messages_of 12 (Mailboxes.db w')
    = Mailboxes.messages_of 12 (Mailboxes.db MailboxSpec.world).
Proof.
  eexists _, _. split; [vm_compute; reflexivity|].
  eapply (@delete_spares_other_mailboxes AsciiRuntime MailboxSpec.no_faults
            "A2" "Work" MailboxSpec.logged_in _ MailboxSpec.world _
            MailboxSpec.other).
  - exact store_ids_unique.
  - vm_compute. reflexivity.
  - cbn. rewrite !elem_of_cons. auto.
  - right. intros u [= <-]. discriminate.
Defined.

Lemma delete_refused_after_emptying_witness :
  exists w',
    @Mailboxes.handleDelete AsciiRuntime MailboxSpec.mailbox_delete_fails
      "A3" "Work" MailboxSpec.logged_in MailboxSpec.world
    = Done (MailboxSpec.logged_in, w') /\
    Mailboxes.out w'
    = Mailboxes.out MailboxSpec.world ++
      ["A3" +:+ " NO Failed to delete mailbox" +:+ Go.CRLF] /\
    Mailboxes.mailboxes (Mailboxes.db w')
    = Mailboxes.mailboxes (Mailboxes.db MailboxSpec.world) /\
    Mailboxes.messages_of (Mailboxes.Box_ID MailboxSpec.work) (Mailboxes.db w')
    = [] /\
    forall id, id <> Mailboxes.Box_ID MailboxSpec.work ->
               Mailboxes.messages_of id (Mailboxes.db w')
               = Mailboxes.messages_of id (Mailboxes.db MailboxSpec.world).
Proof.
  apply (@delete_refused_after_emptying AsciiRuntime
           MailboxSpec.mailbox_delete_fails "A3" "Work" "Work"
           MailboxSpec.logged_in MailboxSpec.world MailboxSpec.alice
           MailboxSpec.work); try reflexivity.
  discriminate.
Defined.

Lemma select_only_own_mailbox_witness :
  exists s' w',
    @Mailboxes.handleSelect AsciiRuntime MailboxSpec.no_faults
      "A4" "INBOX" MailboxSpec.logged_in MailboxSpec.world
    = Done (s', w') /\
    Mailboxes.db w' = Mailboxes.db MailboxSpec.world /\
    ((s' = MailboxSpec.logged_in /\
      exists line, Mailboxes.out w' = Mailboxes.out MailboxSpec.world ++ [line]) \/
     exists u b,
       Imap.user MailboxSpec.logged_in = Some u /\
       b ∈ Mailboxes.mailboxes (Mailboxes.db MailboxSpec.world) /\
       Mailboxes.Box_User b = Imap.User_ID u /\
       s' = Imap.mkSession true (Some u)
              (Some (Mailboxes.to_mailbox b
                       (map Imap.UID
                          (Mailboxes.messages_of (Mailboxes.Box_ID b)
                             (Mailboxes.db MailboxSpec.world)))))
              Imap.StateSelected /\
       Mailboxes.out w'
       = Mailboxes.out MailboxSpec.world ++
         MailboxSpec.select_lines "A4" b
           (length (Mailboxes.messages_of (Mailboxes.Box_ID b)
                      (Mailboxes.db MailboxSpec.world)))).
Proof.
  eexists _, _. split; [vm_compute; reflexivity|].
  eapply (@select_only_own_mailbox AsciiRuntime MailboxSpec.no_faults
            "A4" "INBOX" MailboxSpec.logged_in _ MailboxSpec.world).
  vm_compute. reflexivity.
Defined.

Lemma examine_always_answers_ok_witness :
  exists s' w',
    @Mailboxes.handleExamine AsciiRuntime MailboxSpec.no_faults
      "A5" "Nowhere" MailboxSpec.logged_in MailboxSpec.world
    = Done (s', w') /\
    s' = MailboxSpec.logged_in /\
    Mailboxes.out w'
    = ["A5 NO Mailbox does not exist" +:+ Go.CRLF;
       MailboxSpec.examine_line "A5"].
Proof.
  eexists _, _. split; [vm_compute; reflexivity|].
  destruct (@examine_always_answers_ok AsciiRuntime MailboxSpec.no_faults
              "A5" "Nowhere" MailboxSpec.logged_in MailboxSpec.logged_in
              MailboxSpec.world
              (Mailboxes.mkWorld MailboxSpec.store
                 ["A5 NO Mailbox does not exist" +:+ Go.CRLF;
                  MailboxSpec.examine_line "A5"]))
    as [_ [[_ _]|(u & b & _ & _ & _ & Hs & _)]];
    [vm_compute; reflexivity | | discriminate Hs].
  split; reflexivity.
Defined.

(** ** LMTP: recipients *)

Section AddressTags.
Import LmtpRcpt.

Lemma removeTag_no_at (s : string) :
  Go.mem "@" s = false -> removeTag false s = s.
Proof.
  induction s as [|c t IH]; [done|].
  unfold Go.mem. cbn [list_ascii_of_string existsb].
  intros [Hc Ht]%orb_false_iff. cbn [removeTag].
  unfold Go.mem at 1. rewrite Ht, andb_false_r. by rewrite IH.
Qed.

(** No [+] of [s] has an [@] after it. *)
Lemma removeTag_settled (s : string) :
  (fix settled (s : string) : bool :=
     match s with
     | EmptyString => true
     | String c t =>
         negb (Ascii.eqb c "+" && Go.mem "@" t) && settled t
     end) s = true ->
  removeTag false s = s.
Proof.
  induction s as [|c t IH]; [done|].
  intros [Hc Ht]%andb_true_iff. cbn [removeTag].
  apply negb_true_iff in Hc. rewrite Hc. by rewrite IH.
Qed.

Lemma removeTag_is_settled (s : string) (skipping : bool) :
  (fix settled (s : string) : bool :=
     match s with
     | EmptyString => true
     | String c t =>
         negb (Ascii.eqb c "+" && Go.mem "@" t) && settled t
     end) (removeTag skipping s) = true.
Proof.
  revert skipping. induction s as [|c t IH]; intros skipping; [done|].
  cbn [removeTag]. destruct skipping.
  - destruct (Ascii.eqb c "@"); [|apply IH].
    rewrite (IH false). by rewrite andb_true_r.
  - destruct (Ascii.eqb c "+" && Go.mem "@" t)%bool eqn:Htag; [apply IH|].
    rewrite (IH false), andb_true_r. apply negb_true_iff.
    apply andb_false_iff in Htag as [Hc|Hat]; [by rewrite Hc|].
    by rewrite (removeTag_no_at t Hat), Hat, andb_false_r.
Qed.

(** X17.  [removeAddressTag] is idempotent: what it returns holds no
    tag any more, so a second pass changes nothing. *)
Theorem removeAddressTag_idempotent (addr : string) :
  removeAddressTag (removeAddressTag addr) = removeAddressTag addr.
Proof.
  unfold removeAddressTag. apply removeTag_settled, removeTag_is_settled.
Qed.

Lemma removeTag_skip (tag rest : string) :
  Go.mem "@" tag = false ->
  removeTag true (tag +:+ "@" +:+ rest) = String "@" (removeTag false rest).
Proof.
  induction tag as [|c t IH]; [done|].
  unfold Go.mem. cbn [list_ascii_of_string existsb].
  intros [Hc Ht]%orb_false_iff. rewrite append_cons. cbn [removeTag].
  rewrite Ascii.eqb_sym in Hc. rewrite Hc. by apply IH.
Qed.

(** The address behind the tag is kept as [removeAddressTag] makes it. *)
Lemma removeAddressTag_tagged (user tag domain : string) :
  Go.mem "+" user = false ->
  Go.mem "@" tag = false ->
  removeAddressTag (user +:+ "+" +:+ tag +:+ "@" +:+ domain)
  = user +:+ "@" +:+ removeAddressTag domain /\
  (Go.mem "+" domain = false ->
   removeAddressTag (user +:+ "+" +:+ tag +:+ "@" +:+ domain)
   = user +:+ "@" +:+ domain /\
   removeAddressTag (user +:+ "@" +:+ domain) = user +:+ "@" +:+ domain).
Proof.
  intros Huser Htag. unfold removeAddressTag.
  assert (Hplain : forall s, Go.mem "+" s = false -> removeTag false s = s).
  { induction s as [|c t IH]; [done|].
    unfold Go.mem. cbn [list_ascii_of_string existsb].
    intros [Hc Ht]%orb_false_iff. cbn [removeTag].
    rewrite Ascii.eqb_sym in Hc. rewrite Hc. cbn [andb]. by rewrite IH. }
  assert (Hstrip : removeTag false (user +:+ "+" +:+ tag +:+ "@" +:+ domain)
                   = user +:+ "@" +:+ removeTag false domain).
  { clear Hplain. induction user as [|c t IH].
    - change ("" +:+ ?x) with x. rewrite append_cons.
      change ("" +:+ ?x) with x. cbn [removeTag].
      change (Ascii.eqb "+" "+") with true. cbn [andb].
      rewrite !mem_append.
      change (Go.mem "@" "@") with true. rewrite orb_true_r.
      rewrite removeTag_skip by done. by rewrite append_cons.
    - revert Huser. unfold Go.mem. cbn [list_ascii_of_string existsb].
      intros [Hc Ht]%orb_false_iff. rewrite !(append_cons c t).
      cbn [removeTag].
      rewrite Ascii.eqb_sym in Hc. rewrite Hc. cbn [andb].
      by rewrite IH. }
  split; [exact Hstrip|]. intros Hdomain.
  split; [by rewrite Hstrip, (Hplain domain)|].
  apply Hplain. rewrite !mem_append, Huser, Hdomain. done.
Qed.

(** X18.  The tag goes, the rest stays.  For a local part [user]
    without [+] and a [tag] without [@], [removeAddressTag] turns
    [user+tag@domain] into [user@] followed by what it makes of the domain,
    and the domain itself when it holds no [+]. *)
Theorem removeAddressTag_strips_tag (user tag domain : string) :
  Go.mem "+" user = false ->
  Go.mem "@" tag = false ->
  removeAddressTag (user +:+ "+" +:+ tag +:+ "@" +:+ domain)
  = user +:+ "@" +:+ removeAddressTag domain /\
  (Go.mem "+" domain = false ->
   removeAddressTag (user +:+ "+" +:+ tag +:+ "@" +:+ domain)
   = user +:+ "@" +:+ domain /\
   removeAddressTag (user +:+ "@" +:+ domain) = user +:+ "@" +:+ domain).
Proof. apply removeAddressTag_tagged. Qed.

Lemma removeAddressTag_strips_tag_witness :
  removeAddressTag ("alice" +:+ "+" +:+ "lists" +:+ "@" +:+ "example.org")
  = "alice" +:+ "@" +:+ "example.org".
Proof.
  apply (proj2 (removeAddressTag_strips_tag "alice" "lists" "example.org"
                  eq_refl eq_refl) eq_refl).
Defined.

End AddressTags.

Section RcptFacts.
Context {RT : GoRuntime}.
Import Lmtp LmtpRcpt.
Variable fails : Lookup -> bool.

(** X19.  A tagged recipient is the untagged one.  For a local part
    without [+], a tag without [@] and a domain without [+],
    [RCPT TO:<user+tag@domain>] and
    [RCPT TO:<user@domain>] get the same answer and, when accepted, the same
    user; the user is one of the collection, not disabled, and owner of the
    untagged address; the recipient recorded for the delivery keeps the tag.
    A refused recipient leaves the list of the session as it was. *)
Theorem rcpt_ignores_the_tag (to1 to2 user tag domain : string)
    (addresses : list AddressDoc) (users : list User)
    (session_users : list UserRecipient) :
  Go.mem "+" user = false ->
  Go.mem "@" tag = false ->
  Go.mem "+" domain = false ->
  normalizeAddress to1 = user +:+ "+" +:+ tag +:+ "@" +:+ domain ->
  normalizeAddress to2 = user +:+ "@" +:+ domain ->
  let r1 := Rcpt fails to1 addresses users session_users in
  let r2 := Rcpt fails to2 addresses users session_users in
  snd r1 = snd r2 /\
  map Recipient_User (fst r1) = map Recipient_User (fst r2) /\
  (snd r1 <> None -> fst r1 = session_users) /\
  (snd r1 = None ->
   exists u a,
     fst r1 = session_users ++ [mkUserRecipient (normalizeAddress to1) u] /\
     u ∈ users /\ Disabled u = false /\
     a ∈ addresses /\ Address_address a = user +:+ "@" +:+ domain /\
     Address_User a = User_ID u).
Proof.
  intros Huser Htag Hdomain Hto1 Hto2.
  destruct (removeAddressTag_tagged user tag domain Huser Htag)
    as [_ Hstrip].
  destruct (Hstrip Hdomain) as [Htagged Hplain].
  cbn zeta. unfold Rcpt. rewrite Hto1, Hto2, Htagged, Hplain.
  destruct (fails FindOneAddress); [by repeat split|].
  destruct (head (filter _ addresses)) as [a|] eqn:Ha; [|by repeat split].
  destruct (fails FindOneUser); [by repeat split|].
  destruct (head (filter _ users)) as [u|] eqn:Hu; [|by repeat split].
  destruct (Disabled u) eqn:Hdisabled; [by repeat split|].
  cbn [fst snd]. split; [done|]. split; [by rewrite !map_app|].
  split; [done|]. intros _. exists u, a.
  apply head_Some_elem_of in Ha, Hu.
  apply list_elem_of_filter in Ha as [Haddr Ha].
  apply list_elem_of_filter in Hu as [Hid Hu].
  by repeat split.
Qed.

End RcptFacts.

Lemma rcpt_ignores_the_tag_witness :
  let r1 := @LmtpRcpt.Rcpt AsciiRuntime DeliverySpec.no_lookup_faults
              " Known+News@LocalHost" DeliverySpec.addresses
              [LmtpSpec.known; LmtpSpec.homeless] [] in
  let r2 := @LmtpRcpt.Rcpt AsciiRuntime DeliverySpec.no_lookup_faults
              "known@localhost" DeliverySpec.addresses
              [LmtpSpec.known; LmtpSpec.homeless] [] in
  snd r1 = snd r2 /\
  map Lmtp.Recipient_User (fst r1) = map Lmtp.Recipient_User (fst r2) /\
  (snd r1 <> None -> fst r1 = []) /\
  (snd r1 = None ->
   exists u a,
     fst r1 = [] ++ [Lmtp.mkUserRecipient
                       (@LmtpRcpt.normalizeAddress AsciiRuntime
                          " Known+News@LocalHost") u] /\
     u ∈ [LmtpSpec.known; LmtpSpec.homeless] /\ Lmtp.Disabled u = false /\
     a ∈ DeliverySpec.addresses /\
     LmtpRcpt.Address_address a = "known" +:+ "@" +:+ "localhost" /\
     LmtpRcpt.Address_User a = Lmtp.User_ID u).
Proof.
  apply (@rcpt_ignores_the_tag AsciiRuntime DeliverySpec.no_lookup_faults
           " Known+News@LocalHost" "known@localhost"
           "known" "news" "localhost"); reflexivity.
Defined.

(** ** LMTP: what a delivery stores *)

Section Delivery.
Context {RT : GoRuntime}.
Import Lmtp DeliverySpec.
Variable SpamHeader : string.
Variable ProcessMessage : string -> option Indexed.
Variable MatchString : string -> string -> bool.
Variable fails : DbCall -> bool.

Lemma lmtp_update_first_by_key {A : Type} (key : A -> Z) (id : Z)
    (f : A -> A) (l : list A) :
  NoDup (map key l) ->
  update_first (fun x => key x =? id) f l
  = map (fun x => if key x =? id then f x else x) l.
Proof.
  induction l as [|a l IH]; cbn [update_first map]; intros Hnd; [done|].
  apply NoDup_cons in Hnd as [Ha Hnd].
  destruct (Z.eqb_spec (key a) id) as [E|E].
  - f_equal. symmetry. erewrite map_ext_in; [apply map_id|].
    intros x Hx. cbn beta.
    destruct (Z.eqb_spec (key x) id) as [E'|]; [|done].
    exfalso. apply Ha. rewrite E, <- E'.
    apply list_elem_of_In in Hx. by apply list_elem_of_fmap_2.
  - f_equal. by apply IH.
Qed.

(** The filters of a delivery are the spam filter or none: the target
    is INBOX or Junk, no flag is set and nothing is dropped. *)
Lemma only_the_spam_filter (idx : Indexed) (message : string) :
  exists path,
    apply_filters MatchString
      (if String.eqb SpamHeader "" then []
       else [] ++
            [mkFilter "SPAM"
               (mkFilterQuery {[ToLower SpamHeader := "yes"]} None None "")
               (mkAction true false false false "")])
      idx message "INBOX" []
    = (path, [], false) /\ (path = "INBOX" \/ path = "Junk").
Proof.
  destruct (String.eqb SpamHeader ""); cbn [app apply_filters].
  - exists "INBOX". by split; [|left].
  - destruct (matchesFilter _ _ _ _); cbn.
    + exists "Junk". by split; [|right].
    + exists "INBOX". by split; [|left].
Qed.

(** What [processMessage] does to the database, case by case. *)
Lemma processMessage_cases (rawMessage : string) (ur : UserRecipient)
    (d d' : Database) (err : option string) :
  processMessage SpamHeader ProcessMessage MatchString fails rawMessage ur d
  = (d', err) ->
  (d' = d /\ err <> None) \/
  exists b idx,
    b ∈ mailboxes d /\
    Mailbox_User b = User_ID (Recipient_User ur) /\
    (Path b = "INBOX" \/ SpecialUse b = "\Junk") /\
    mailboxes d'
    = update_first (fun x => Mailbox_ID x =? Mailbox_ID b)
        (fun x => mkMailbox (Mailbox_ID x) (Mailbox_User x) (Path x)
                    (SpecialUse x) (ModifyIndex x + 1) (UIDNext x + 1)
                    (UIDValidity x))
        (mailboxes d) /\
    ((err <> None /\ messages d' = messages d /\ users d' = users d) \/
     (err = None /\
      messages d'
      = messages d ++
        [mkMessage (User_ID (Recipient_User ur)) (Mailbox_ID b) (UIDNext b)
           (ModifyIndex b + 1)
           (Go.len (("Delivered-To: " +:+ Recipient ur +:+ Go.CRLF) +:+
                    rawMessage))
           [] (Envelope_Subject idx) true true false false])).
Proof.
  unfold processMessage. cbv zeta.
  set (message :=
         ("Delivered-To: " +:+ Recipient ur +:+ Go.CRLF) +:+ rawMessage).
  destruct (ProcessMessage message) as [idx|];
    [|intros [= <- <-]; by left].
  destruct (only_the_spam_filter idx message) as (path & -> & Hpath).
  cbn match.
  set (uid := User_ID (Recipient_User ur)).
  match goal with
  | |- context [match ?t with inl _ => _ | inr _ => _ end] =>
      assert (Htarget :
        match t with
        | inl b => b ∈ mailboxes d /\ Mailbox_User b = uid /\
                   (Path b = "INBOX" \/ SpecialUse b = "\Junk")
        | inr _ => True
        end);
      [|destruct t as [b|e]]
  end.
  { destruct (fails (FindOneMailbox uid)); [done|].
    unfold find_mailbox.
    destruct (head (filter _ (mailboxes d))) as [b|] eqn:Hwanted.
    - apply head_Some_elem_of in Hwanted.
      apply list_elem_of_filter in Hwanted as [Hb Hin].
      apply andb_true_iff in Hb as [Hu Hp]. apply Z.eqb_eq in Hu.
      split; [done|]. split; [done|].
      destruct Hpath as [-> | ->]; cbn in Hp; apply String.eqb_eq in Hp; auto.
    - clear Hwanted.
      destruct (head (filter _ (mailboxes d))) as [b|] eqn:Hinbox; [|done].
      apply head_Some_elem_of in Hinbox.
      apply list_elem_of_filter in Hinbox as [Hb Hin].
      apply andb_true_iff in Hb as [Hu Hp]. apply Z.eqb_eq in Hu.
      apply String.eqb_eq in Hp. auto. }
  2: { intros [= <- <-]. by left. }
  destruct Htarget as (Hb & Hu & Hkind).
  destruct (fails (UpdateOneMailbox (Mailbox_ID b)));
    [intros [= <- <-]; by left|].
  destruct (fails (InsertOneMessage uid)).
  { intros [= <- <-]. right. exists b, idx.
    repeat (split; [done|]). left. by repeat split. }
  destruct (fails (UpdateOneUser uid)); intros [= <- <-]; right;
    exists b, idx; repeat (split; [done|]); right; by split.
Qed.

(** X20.  A delivery that reports no error has stored exactly one
    message: at the end of the collection, owned by the recipient, in a
    mailbox of the recipient that is its INBOX or its Junk mailbox, with the
    UID the mailbox's counter held, without any flag, and with the size of
    the message as received plus the [Delivered-To] line.  A delivery that
    reports an error has stored none. *)
Theorem delivery_stores_one_message (rawMessage : string)
    (ur : UserRecipient) (d d' : Database) (err : option string) :
  processMessage SpamHeader ProcessMessage MatchString fails rawMessage ur d
  = (d', err) ->
  match err with
  | Some _ => messages d' = messages d
  | None =>
      exists b m,
        messages d' = messages d ++ [m] /\
        b ∈ mailboxes d /\
        Mailbox_User b = User_ID (Recipient_User ur) /\
        (Path b = "INBOX" \/ SpecialUse b = "\Junk") /\
        Message_User m = User_ID (Recipient_User ur) /\
        Message_Mailbox m = Mailbox_ID b /\
        UID m = UIDNext b /\
        Flags m = [] /\ Unseen m = true /\
        Size m = Go.len (("Delivered-To: " +:+ Recipient ur +:+ Go.CRLF) +:+
                         rawMessage)
  end.
Proof.
  intros Hrun.
  destruct (processMessage_cases _ _ _ _ _ Hrun)
    as [[-> Herr]|(b & idx & Hb & Hu & Hkind & _ & Hcase)].
  - by destruct err.
  - destruct Hcase as [(Herr & Hm & _)|[-> Hm]]; [by destruct err|].
    eexists b, _. split; [exact Hm|]. by repeat split.
Qed.

Lemma processMessage_kept (rawMessage : string) (ur : UserRecipient)
    (d : Database) :
  well_kept d ->
  well_kept
    (processMessage SpamHeader ProcessMessage MatchString fails
                    rawMessage ur d).1.
Proof.
  intros Hkept.
  destruct (processMessage _ _ _ _ rawMessage ur d) as [d' err] eqn:Hrun.
  cbn [fst].
  destruct (processMessage_cases _ _ _ _ _ Hrun)
    as [[-> _]|(b & idx & Hb & _ & _ & Hboxes & Hcase)]; [done|].
  destruct Hkept as (Hids & Hbelow & Huniq).
  rewrite (lmtp_update_first_by_key Mailbox_ID) in Hboxes by done.
  set (m := mkMessage _ _ _ _ _ _ _ _ _ _ _) in Hcase.
  assert (Hmsgs : forall x, x ∈ messages d' ->
                    x ∈ messages d \/ placement x = (Mailbox_ID b, UIDNext b)).
  { intros x Hx.
    destruct Hcase as [(_ & Hm & _)|[_ Hm]]; rewrite Hm in Hx; [by left|].
    apply elem_of_app in Hx as [Hx|Hx]; [by left|].
    apply list_elem_of_singleton in Hx. subst x. by right. }
  assert (Hfresh : forall x, x ∈ messages d ->
                     placement x <> (Mailbox_ID b, UIDNext b)).
  { intros x Hx [= Hmb Hu]. pose proof (Hbelow x b Hx Hb Hmb). lia. }
  split; [|split].
  - rewrite Hboxes, map_map. erewrite map_ext; [exact Hids|].
    intros x. cbn beta. by destruct (Mailbox_ID x =? Mailbox_ID b).
  - intros x b' Hx Hb' Hmb. rewrite Hboxes in Hb'.
    apply list_elem_of_fmap in Hb' as (b0 & -> & Hb0).
    assert (Hid : Mailbox_ID (if Mailbox_ID b0 =? Mailbox_ID b
                              then mkMailbox (Mailbox_ID b0) (Mailbox_User b0)
                                     (Path b0) (SpecialUse b0)
                                     (ModifyIndex b0 + 1) (UIDNext b0 + 1)
                                     (UIDValidity b0)
                              else b0) = Mailbox_ID b0)
      by (by destruct (Mailbox_ID b0 =? Mailbox_ID b)).
    rewrite Hid in Hmb.
    destruct (Hmsgs x Hx) as [Hold|Hnew].
    + pose proof (Hbelow x b0 Hold Hb0 Hmb).
      destruct (Mailbox_ID b0 =? Mailbox_ID b); cbn; lia.
    + injection Hnew as Hxb Hxu.
      assert (b0 = b) as ->.
      { apply (NoDup_fmap_inj_in Mailbox_ID (mailboxes d)); try done.
        congruence. }
      rewrite Z.eqb_refl. cbn. lia.
  - destruct Hcase as [(_ & Hm & _)|[_ Hm]]; rewrite Hm; [done|].
    rewrite map_app. apply NoDup_app. split; [done|].
    split; [|apply NoDup_singleton].
    intros k Hk Hin. apply list_elem_of_singleton in Hin. subst k.
    apply list_elem_of_fmap in Hk as (x & Hx & Hxd).
    by apply (Hfresh x).
Qed.

(** X21.  A DATA command keeps the discipline of the UIDs.  In a
    database whose mailboxes have distinct identifiers, where every UID is
    below the [uidNext] of its mailbox and no two messages of a mailbox
    share a UID, the same holds after the deliveries of a DATA command to
    any list of recipients, whichever database calls fail on the way. *)
Theorem data_keeps_uid_discipline (read : option string)
    (recipients : list UserRecipient) (d : Database) :
  well_kept d ->
  well_kept
    (Data SpamHeader ProcessMessage MatchString fails read recipients d).1.
Proof.
  intros Hkept. unfold Data. destruct read as [rawMessage|]; [|done].
  assert (Hloop : well_kept
            (process_each SpamHeader ProcessMessage MatchString fails
                          rawMessage recipients d).1).
  { revert d Hkept. induction recipients as [|ur rest IH]; intros d Hkept;
      [done|].
    cbn [process_each].
    pose proof (processMessage_kept rawMessage ur d Hkept) as Hstep.
    destruct (processMessage _ _ _ _ rawMessage ur d) as [d1 err].
    specialize (IH d1 Hstep).
    by destruct (process_each _ _ _ _ rawMessage rest d1). }
  destruct (process_each _ _ _ _ rawMessage recipients d) as [d' responses].
  by destruct (existsb _ responses).
Qed.

End Delivery.

Lemma lmtp_store_well_kept : DeliverySpec.well_kept LmtpSpec.store.
Proof.
  unfold DeliverySpec.well_kept, DeliverySpec.below_next. cbn.
  split; [|split].
  - repeat constructor. apply not_elem_of_nil.
  - intros m b Hm. by apply elem_of_nil in Hm.
  - constructor.
Qed.

Lemma delivery_stores_one_message_witness :
  exists d' b m,
    @Lmtp.processMessage AsciiRuntime "" LmtpSpec.index_any LmtpSpec.no_match
      LmtpSpec.no_faults LmtpSpec.letter
      (Lmtp.mkUserRecipient "known@localhost" LmtpSpec.known) LmtpSpec.store
    = (d', None) /\
    Lmtp.messages d' = Lmtp.messages LmtpSpec.store ++ [m] /\
    b ∈ Lmtp.mailboxes LmtpSpec.store /\
    Lmtp.Message_Mailbox m = Lmtp.Mailbox_ID b /\
    Lmtp.UID m = Lmtp.UIDNext b.
Proof.
  eexists.
  destruct (@delivery_stores_one_message AsciiRuntime "" LmtpSpec.index_any
              LmtpSpec.no_match LmtpSpec.no_faults LmtpSpec.letter
              (Lmtp.mkUserRecipient "known@localhost" LmtpSpec.known)
              LmtpSpec.store _ None ltac:(vm_compute; reflexivity))
    as (b & m & Hm & Hb & _ & _ & _ & Hmb & Hu & _).
  exists b, m. split; [reflexivity|]. by repeat split.
Defined.

Lemma data_keeps_uid_discipline_witness :
  DeliverySpec.well_kept
    (@Lmtp.Data AsciiRuntime "" LmtpSpec.index_any LmtpSpec.no_match
       LmtpSpec.no_faults (Some LmtpSpec.letter) LmtpSpec.recipients
       LmtpSpec.store).1.
Proof.
  apply (@data_keeps_uid_discipline AsciiRuntime "" LmtpSpec.index_any
           LmtpSpec.no_match LmtpSpec.no_faults).
  exact lmtp_store_well_kept.
Defined.

(** ** The MIME parser: line ends *)

Section LineEnds.
Import Indexer ParseSpec.

Lemma crlf_endings_head (s : string) :
  match crlf_endings s with
  | String c _ => c <> Go.LF
  | EmptyString => True
  end.
Proof.
  induction s as [|c t IH]; [done|]. cbn [crlf_endings].
  destruct (Ascii.eqb c Go.LF) eqn:Hlf; [done|].
  destruct (Ascii.eqb c Go.CR && _)%bool; [exact IH|].
  cbn. by apply Ascii.eqb_neq.
Qed.

Lemma crlf_endings_idem (s : string) :
  crlf_endings (crlf_endings s) = crlf_endings s.
Proof.
  induction s as [|c t IH]; [done|]. cbn [crlf_endings].
  destruct (Ascii.eqb c Go.LF) eqn:Hlf.
  - unfold Go.CRLF. rewrite !append_cons. change ("" +:+ ?x) with x.
    cbn [crlf_endings].
    change (Ascii.eqb Go.CR Go.LF) with false.
    change (Ascii.eqb Go.CR Go.CR) with true.
    change (Ascii.eqb Go.LF Go.LF) with true. cbn [andb].
    unfold Go.CRLF. rewrite !append_cons. change ("" +:+ ?x) with x.
    by rewrite IH.
  - destruct (Ascii.eqb c Go.CR &&
              match t with
              | String c' _ => Ascii.eqb c' Go.LF
              | EmptyString => false
              end)%bool eqn:Hcr; [exact IH|].
    cbn [crlf_endings]. rewrite Hlf.
    pose proof (crlf_endings_head t) as Hhead.
    destruct (crlf_endings t) as [|c' t'] eqn:Ht.
    + by rewrite andb_false_r.
    + apply Ascii.eqb_neq in Hhead. rewrite Hhead, andb_false_r.
      by rewrite IH.
Qed.

Lemma count_lf_append (a b : string) :
  count_lf (a +:+ b) = count_lf a + count_lf b.
Proof.
  induction a as [|c t IH]; [done|]. rewrite append_cons.
  cbn [count_lf]. rewrite IH. lia.
Qed.

Lemma crlf_endings_count (s : string) :
  count_lf (crlf_endings s) = count_lf s.
Proof.
  induction s as [|c t IH]; [done|]. cbn [crlf_endings count_lf].
  destruct (Ascii.eqb c Go.LF) eqn:Hlf.
  - rewrite count_lf_append, IH. reflexivity.
  - destruct (Ascii.eqb c Go.CR && _)%bool; [by rewrite IH|].
    cbn [count_lf]. by rewrite Hlf, IH.
Qed.

Lemma crlf_endings_ok (s : string) (after_cr : bool) :
  line_ends_ok after_cr (crlf_endings s) = true.
Proof.
  revert after_cr. induction s as [|c t IH]; intros after_cr; [done|].
  cbn [crlf_endings].
  destruct (Ascii.eqb c Go.LF) eqn:Hlf.
  - unfold Go.CRLF. rewrite !append_cons. change ("" +:+ ?x) with x.
    cbn [line_ends_ok].
    change (Ascii.eqb Go.CR Go.LF) with false.
    change (Ascii.eqb Go.CR Go.CR) with true.
    change (Ascii.eqb Go.LF Go.LF) with true.
    change (Ascii.eqb Go.LF Go.CR) with false. cbn [andb]. apply IH.
  - destruct (Ascii.eqb c Go.CR && _)%bool; [apply IH|].
    cbn [line_ends_ok]. rewrite Hlf. cbn [andb]. apply IH.
Qed.

(** X22.  The rewriting of the line ends by [finalizeNode] is a
    normal form: in its result every line feed follows a carriage return,
    the number of line feeds (so the line count) is that of the body it was
    given, and rewriting a second time changes nothing. *)
Theorem crlf_endings_normalises (body : string) :
  line_ends_ok false (crlf_endings body) = true /\
  count_lf (crlf_endings body) = count_lf body /\
  crlf_endings (crlf_endings body) = crlf_endings body.
Proof.
  split; [apply crlf_endings_ok|].
  split; [apply crlf_endings_count | apply crlf_endings_idem].
Qed.

Lemma crlf_endings_nonempty (s : string) :
  (0 <? Go.len (crlf_endings s)) = (0 <? Go.len s).
Proof.
  destruct s as [|c t]; [done|].
  assert (Hpos : forall x, x <> "" -> (0 <? Go.len x) = true).
  { intros [|? ?] Hx; [done|]. unfold Go.len. cbn [String.length].
    apply Z.ltb_lt. lia. }
  rewrite (Hpos (String c t)) by done. apply Hpos.
  revert c. induction t as [|c' t IH]; intros c; cbn [crlf_endings].
  - destruct (Ascii.eqb c Go.LF); [done|]. by rewrite andb_false_r.
  - destruct (Ascii.eqb c Go.LF); [done|].
    destruct (Ascii.eqb c Go.CR && Ascii.eqb c' Go.LF)%bool; [apply IH|done].
Qed.

(** X23.  [finalizeNode] is idempotent on trees: finalising a tree a
    second time gives the same bodies (already with CRLF line ends), the
    same line counts and sizes, at every depth. *)
Theorem finalizeNode_idempotent :
  forall n : MIMENode, finalizeNode (finalizeNode n) = finalizeNode n.
Proof.
  fix IH 1. intros [r children hdr ph body mp bd pb lc sz msg st].
  assert (Hkids : map finalizeNode (map finalizeNode children)
                  = map finalizeNode children).
  { clear -IH. induction children as [|c cs IHcs]; [done|].
    cbn [map]. by rewrite IH, IHcs. }
  cbn [finalizeNode Body ChildNodes].
  destruct (0 <? Go.len body) eqn:Hbody.
  - cbn [set_counts set_Body set_ChildNodes finalizeNode Body ChildNodes
         RootNode Header ParsedHeader Multipart Boundary ParentBoundary
         LineCount Size Message state].
    rewrite crlf_endings_nonempty, Hbody.
    cbn [set_counts set_Body set_ChildNodes finalizeNode Body ChildNodes
         RootNode Header ParsedHeader Multipart Boundary ParentBoundary
         LineCount Size Message state].
    by rewrite crlf_endings_idem, crlf_endings_count, Hkids.
  - cbn [set_counts set_Body set_ChildNodes finalizeNode Body ChildNodes
         RootNode Header ParsedHeader Multipart Boundary ParentBoundary
         LineCount Size Message state].
    rewrite Hbody.
    cbn [set_counts set_Body set_ChildNodes finalizeNode Body ChildNodes
         RootNode Header ParsedHeader Multipart Boundary ParentBoundary
         LineCount Size Message state].
    by rewrite Hkids.
Qed.

End LineEnds.

(** ** The MIME parser: a message without parts *)

Section SinglePart.
Context {RT : GoRuntime}.
Import Indexer ParseSpec.

Lemma of_lines_cons (l m : string) (ms : list string) :
  of_lines (l :: m :: ms) = l +:+ Go.CRLF +:+ of_lines (m :: ms).
Proof. reflexivity. Qed.

Lemma match_line_last (l : string) :
  one_line l -> match_line l = (l, "", "").
Proof.
  unfold one_line, Go.mem. induction l as [|c t IH]; [done|].
  cbn [list_ascii_of_string existsb]. intros [Hc Ht]%orb_false_iff.
  rewrite Ascii.eqb_sym in Hc. cbn [match_line]. rewrite Hc.
  rewrite (IH Ht).
  destruct (Ascii.eqb c Go.CR); [|done].
  destruct t as [|c' t']; [done|].
  cbn [list_ascii_of_string existsb] in Ht.
  apply orb_false_iff in Ht as [Hc' _]. rewrite Ascii.eqb_sym in Hc'.
  by rewrite Hc'.
Qed.

Lemma match_line_line (l more : string) :
  one_line l ->
  match_line (l +:+ Go.CRLF +:+ more) = (l, Go.CRLF, more).
Proof.
  unfold one_line, Go.mem. induction l as [|c t IH].
  - intros _. reflexivity.
  - cbn [list_ascii_of_string existsb]. intros [Hc Ht]%orb_false_iff.
    rewrite Ascii.eqb_sym in Hc. rewrite append_cons.
    cbn [match_line]. rewrite Hc, (IH Ht).
    destruct (Ascii.eqb c Go.CR); [|done].
    destruct t as [|c' t']; [done|].
    cbn [list_ascii_of_string existsb] in Ht.
    apply orb_false_iff in Ht as [Hc' _]. rewrite Ascii.eqb_sym in Hc'.
    rewrite append_cons. by rewrite Hc'.
Qed.

(** Reading a line that is not the last, and reading the last one. *)
Lemma readLine_line (l : string) (m : string) (ms : list string)
    (b raw : string) (n : MIMENode) (up : list MIMENode) :
  one_line l ->
  readLine (mkMIMEParser (of_lines (l :: m :: ms)) b raw n up)
  = (l, mkMIMEParser (of_lines (m :: ms)) Go.CRLF raw n up).
Proof.
  intros Hl. unfold readLine. cbn [rest rawBody node parents].
  rewrite of_lines_cons.
  assert (Hne : String.eqb (l +:+ Go.CRLF +:+ of_lines (m :: ms)) "" = false).
  { destruct l; [done|]. by rewrite append_cons. }
  rewrite Hne, match_line_line by done. reflexivity.
Qed.

Lemma readLine_last (l b raw : string) (n : MIMENode) (up : list MIMENode) :
  one_line l ->
  readLine (mkMIMEParser (of_lines [l]) b raw n up)
  = (l, mkMIMEParser "" "" raw n up).
Proof.
  intros Hl. unfold readLine, of_lines. cbn [Go.Join concat String.concat].
  cbn [rest rawBody node parents].
  destruct (String.eqb_spec l "") as [->|Hne]; [done|].
  by rewrite match_line_last.
Qed.

Section Loop.
Variable sub : string -> Result (option MIMENode).

(** A body line of a node without boundaries. *)
Lemma step_body_line (prevBr line rs b raw : string) (n : MIMENode)
    (up : list MIMENode) :
  state n = "body" -> ParentBoundary n = "" -> Boundary n = "" ->
  step sub prevBr line (mkMIMEParser rs b raw n up)
  = Done (mkMIMEParser rs b (raw +:+ prevBr +:+ line)
            (set_Body n (if 0 <? Go.len (Body n)
                         then Body n +:+ prevBr +:+ line else line)) up,
          None).
Proof.
  intros Hst Hpb Hb. unfold step. cbn [node]. rewrite Hst, Hpb, Hb.
  reflexivity.
Qed.

Lemma len_positive (x : string) : x <> "" -> (0 <? Go.len x) = true.
Proof.
  intros Hx. destruct x; [done|]. unfold Go.len. cbn [String.length].
  apply Z.ltb_lt. lia.
Qed.

(** The lines of a body that has begun. *)
Lemma body_lines_more (L : list string) :
  L <> [] -> Forall one_line L ->
  forall (fuel : nat) (b raw : string) (n : MIMENode) (up : list MIMENode),
    state n = "body" -> ParentBoundary n = "" -> Boundary n = "" ->
    Body n <> "" -> b <> "" ->
    (String.length (of_lines L) < fuel)%nat ->
    exists raw',
      parse_loop sub fuel b (mkMIMEParser (of_lines L) b raw n up)
      = Done (mkMIMEParser "" "" raw'
                (set_Body n (Body n +:+ b +:+ of_lines L)) up, None).
Proof.
  induction L as [|l more IH]; [done|]. intros _ Hall.
  apply Forall_cons in Hall as [Hl Hmore].
  intros fuel b raw n up Hst Hpb Hbd Hbody Hb Hfuel.
  destruct fuel as [|fuel]; [lia|]. cbn [parse_loop br rest].
  assert (Hcond : (negb (String.eqb b "") ||
                   negb (String.eqb (of_lines (l :: more)) ""))%bool = true).
  { destruct (String.eqb_spec b ""); [done | done]. }
  rewrite Hcond.
  destruct more as [|m ms].
  - rewrite readLine_last by done.
    rewrite step_body_line by done. cbn [mbind Result_bind br].
    rewrite len_positive by done. cbn [String.eqb]. eauto.
  - rewrite readLine_line by done.
    rewrite step_body_line by done. cbn [mbind Result_bind br].
    rewrite len_positive by done.
    change (String.eqb Go.CRLF "") with false. cbn match.
    edestruct (IH ltac:(done) Hmore fuel Go.CRLF) as [raw' Hrun];
      [| | | | |
       |rewrite Hrun; eexists; f_equal; f_equal; f_equal].
    + exact Hst.
    + exact Hpb.
    + exact Hbd.
    + cbn [Body set_Body]. by apply append_nonempty.
    + done.
    + rewrite of_lines_cons, !length_append in Hfuel.
      change (String.length Go.CRLF) with 2%nat in Hfuel. lia.
    + cbn [set_Body Body RootNode ChildNodes Header ParsedHeader Multipart
           Boundary ParentBoundary LineCount Size Message state].
      by rewrite of_lines_cons, !append_assoc.
Qed.

(** The lines of a body that has not begun: the empty lines it starts
    with leave it empty. *)
Lemma body_lines_blank (L : list string) :
  L <> [] -> Forall one_line L ->
  forall (fuel : nat) (b raw : string) (n : MIMENode) (up : list MIMENode),
    state n = "body" -> ParentBoundary n = "" -> Boundary n = "" ->
    Body n = "" -> b <> "" ->
    (String.length (of_lines L) < fuel)%nat ->
    exists raw',
      parse_loop sub fuel b (mkMIMEParser (of_lines L) b raw n up)
      = Done (mkMIMEParser "" "" raw'
                (set_Body n (of_lines (skip_blank L))) up, None).
Proof.
  induction L as [|l more IH]; [done|]. intros _ Hall.
  apply Forall_cons in Hall as [Hl Hmore].
  intros fuel b raw n up Hst Hpb Hbd Hbody Hb Hfuel.
  destruct fuel as [|fuel]; [lia|]. cbn [parse_loop br rest].
  assert (Hcond : (negb (String.eqb b "") ||
                   negb (String.eqb (of_lines (l :: more)) ""))%bool = true).
  { destruct (String.eqb_spec b ""); [done | done]. }
  rewrite Hcond. cbn [skip_blank].
  destruct more as [|m ms].
  - rewrite readLine_last by done.
    rewrite step_body_line by done. cbn [mbind Result_bind br].
    rewrite Hbody. change (0 <? Go.len "") with false. cbn [String.eqb].
    eexists. f_equal. f_equal. f_equal.
    by destruct (String.eqb_spec l "") as [->|_].
  - rewrite readLine_line by done.
    rewrite step_body_line by done. cbn [mbind Result_bind br].
    rewrite Hbody. change (0 <? Go.len "") with false.
    change (String.eqb Go.CRLF "") with false. cbn match.
    assert (Hfuel' : (String.length (of_lines (m :: ms)) < fuel)%nat).
    { rewrite of_lines_cons, !length_append in Hfuel.
      change (String.length Go.CRLF) with 2%nat in Hfuel. lia. }
    destruct (String.eqb_spec l "") as [->|Hne].
    + destruct (IH ltac:(done) Hmore fuel Go.CRLF (raw +:+ b +:+ "")
                  (set_Body n "") up) as [raw' Hrun]; try done.
      rewrite Hrun. by eexists.
    + destruct (body_lines_more (m :: ms) ltac:(done) Hmore fuel Go.CRLF
                  (raw +:+ b +:+ l) (set_Body n l) up)
        as [raw' Hrun]; try done.
      rewrite Hrun. eexists. by rewrite of_lines_cons.
Qed.

(** A header line, and the empty line that ends the header. *)
Lemma step_header_line (prevBr line rs b : string) (n : MIMENode)
    (up : list MIMENode) :
  state n = "header" -> line <> "" ->
  step sub prevBr line (mkMIMEParser rs b "" n up)
  = Done (mkMIMEParser rs b "" (set_Header n (Header n ++ [line])) up, None).
Proof.
  intros Hst Hline. unfold step. cbn [node rawBody]. rewrite Hst.
  cbn [String.eqb negb Ascii.eqb]. cbn.
  by destruct (String.eqb_spec line "").
Qed.

Lemma step_header_end (prevBr rs b : string) (n n1 : MIMENode)
    (up : list MIMENode) :
  state n = "header" -> processNodeHeader n = Done n1 ->
  step sub prevBr "" (mkMIMEParser rs b "" n up)
  = Done (mkMIMEParser rs b "" (single_part n1 (Body n1)) up, None).
Proof.
  intros Hst Hn1. unfold step. cbn [node rawBody]. rewrite Hst. cbn.
  rewrite Hn1. cbn. unfold single_part, set_node. cbn. do 3 f_equal.
  destruct (processContentType_fields n1) as (_ & _ & Hb). rewrite <- Hb.
  by destruct (processContentType n1).
Qed.

(** The header lines, the empty line and the body lines. *)
Lemma header_lines (H L : list string) :
  Forall (fun l => l <> "" /\ one_line l) H -> Forall one_line L ->
  forall (fuel : nat) (prevBr b : string) (n n1 : MIMENode)
         (up : list MIMENode),
    state n = "header" -> ParentBoundary n = "" -> Body n = "" ->
    processNodeHeader (set_Header n (Header n ++ H)) = Done n1 ->
    Boundary (processContentType n1) = "" ->
    H <> [] \/ b <> "" ->
    (String.length (of_lines (H ++ "" :: L)) < fuel)%nat ->
    exists raw',
      parse_loop sub fuel prevBr
        (mkMIMEParser (of_lines (H ++ "" :: L)) b "" n up)
      = Done (mkMIMEParser "" "" raw'
                (single_part n1 (of_lines (skip_blank L))) up, None).
Proof.
  induction H as [|h H IH]; intros Hall HL fuel prevBr b n n1 up
    Hst Hpb Hbody Hn1 Hbd Hgo Hfuel.
  - destruct Hgo as [|Hb]; [done|]. cbn [app] in *.
    rewrite app_nil_r in Hn1.
    assert (Hn : set_Header n (Header n) = n) by by destruct n.
    rewrite Hn in Hn1.
    destruct (processNodeHeader_shape _ _ Hn1) as (hdr & ph & Hshape).
    destruct (processContentType_fields n1) as (Hst1 & Hpb1 & Hbody1).
    assert (Hb1 : Body n1 = "") by by rewrite Hshape.
    assert (Hp1 : ParentBoundary n1 = "") by by rewrite Hshape.
    destruct fuel as [|fuel]; [lia|]. cbn [parse_loop br rest].
    assert (Hcond : (negb (String.eqb b "") ||
                     negb (String.eqb (of_lines ("" :: L)) ""))%bool = true).
    { destruct (String.eqb_spec b ""); [done | done]. }
    rewrite Hcond.
    destruct L as [|m ms].
    + rewrite readLine_last by done.
      rewrite (step_header_end _ _ _ _ n1) by done.
      cbn [mbind Result_bind br String.eqb skip_blank].
      rewrite Hb1. by eexists.
    + rewrite readLine_line by done.
      rewrite (step_header_end _ _ _ _ n1) by done.
      cbn [mbind Result_bind br].
      change (String.eqb Go.CRLF "") with false. cbn match.
      destruct (body_lines_blank (m :: ms) ltac:(done) HL fuel Go.CRLF ""
                  (single_part n1 (Body n1)) up) as [raw' Hrun];
        try done.
      * unfold single_part. cbn. by rewrite Hpb1.
      * rewrite of_lines_cons, !length_append in Hfuel.
        change (String.length Go.CRLF) with 2%nat in Hfuel. lia.
      * rewrite Hrun. by eexists.
  - apply Forall_cons in Hall as [[Hne Hh] Hall].
    destruct fuel as [|fuel]; [lia|]. cbn [parse_loop br rest].
    assert (Hshape : exists m ms, H ++ "" :: L = m :: ms).
    { destruct H; cbn; eauto. }
    destruct Hshape as (m & ms & Hshape). cbn [app] in *.
    rewrite Hshape in *.
    assert (Hcond : (negb (String.eqb b "") ||
                     negb (String.eqb (of_lines (h :: m :: ms)) ""))%bool
                    = true).
    { rewrite of_lines_cons. destruct h; [done|]. rewrite append_cons.
      apply orb_true_r. }
    rewrite Hcond, readLine_line by done.
    rewrite step_header_line by done. cbn [mbind Result_bind br].
    change (String.eqb Go.CRLF "") with false. cbn match.
    rewrite <- Hshape in *.
    apply (IH Hall HL fuel Go.CRLF Go.CRLF _ n1 up); try done.
    + cbn. by rewrite <- app_assoc.
    + by right.
    + rewrite Hshape in *. rewrite of_lines_cons, !length_append in Hfuel.
      change (String.length Go.CRLF) with 2%nat in Hfuel. lia.
Qed.
End Loop.

Lemma one_line_cons (c : ascii) (t : string) :
  one_line (String c t) -> Ascii.eqb c Go.LF = false /\ one_line t.
Proof.
  unfold one_line, Go.mem. cbn [list_ascii_of_string existsb].
  intros [Hc Ht]%orb_false_iff. by rewrite Ascii.eqb_sym.
Qed.

Lemma crlf_endings_line (l more : string) :
  one_line l ->
  crlf_endings (l +:+ Go.CRLF +:+ more) = l +:+ Go.CRLF +:+ crlf_endings more.
Proof.
  induction l as [|c t IH].
  - intros _. change ("" +:+ ?x) with x. unfold Go.CRLF.
    rewrite !append_cons. change ("" +:+ ?x) with x.
    cbn [crlf_endings]. change (Ascii.eqb Go.CR Go.LF) with false.
    rewrite !Ascii.eqb_refl. cbn [andb]. unfold Go.CRLF.
    by rewrite !append_cons.
  - intros [Hc Ht]%one_line_cons. rewrite !(append_cons c t).
    cbn [crlf_endings]. rewrite Hc, (IH Ht).
    destruct t as [|c' t'].
    + change ("" +:+ ?x) with x. unfold Go.CRLF at 1.
      rewrite (append_cons Go.CR). change (Ascii.eqb Go.CR Go.LF) with false.
      by rewrite andb_false_r.
    + apply one_line_cons in Ht as [Hc' _]. rewrite (append_cons c' t').
      by rewrite Hc', andb_false_r.
Qed.

Lemma crlf_endings_one_line (l : string) :
  one_line l -> crlf_endings l = l.
Proof.
  induction l as [|c t IH]; [done|]. intros [Hc Ht]%one_line_cons.
  cbn [crlf_endings]. rewrite Hc, (IH Ht).
  destruct t as [|c' t']; [by rewrite andb_false_r|].
  apply one_line_cons in Ht as [Hc' _]. by rewrite Hc', andb_false_r.
Qed.

Lemma crlf_endings_lines (L : list string) :
  Forall one_line L -> crlf_endings (of_lines L) = of_lines L.
Proof.
  induction L as [|l more IH]; [done|]. intros [Hl Hmore]%Forall_cons.
  destruct more as [|m ms].
  - by apply crlf_endings_one_line.
  - by rewrite of_lines_cons, crlf_endings_line, IH.
Qed.

Lemma count_lf_one_line (l : string) : one_line l -> count_lf l = 0.
Proof.
  induction l as [|c t IH]; [done|]. intros [Hc Ht]%one_line_cons.
  cbn [count_lf]. rewrite Hc, (IH Ht). done.
Qed.

Lemma count_lf_lines (L : list string) :
  L <> [] -> Forall one_line L ->
  count_lf (of_lines L) + 1 = Z.of_nat (length L).
Proof.
  induction L as [|l more IH]; [done|]. intros _ [Hl Hmore]%Forall_cons.
  destruct more as [|m ms].
  - unfold of_lines. cbn [Go.Join concat String.concat].
    rewrite count_lf_one_line by done. done.
  - rewrite of_lines_cons, !count_lf_append, count_lf_one_line by done.
    change (count_lf Go.CRLF) with 1. cbn [length] in *.
    specialize (IH ltac:(done) Hmore). lia.
Qed.

Lemma skip_blank_one_line (L : list string) :
  Forall one_line L -> Forall one_line (skip_blank L).
Proof.
  induction L as [|l more IH]; [done|]. intros Hall. cbn [skip_blank].
  destruct (String.eqb l ""); [|done].
  apply Forall_cons in Hall as [_ Hmore]. auto.
Qed.

Lemma skip_blank_empty (L : list string) :
  of_lines (skip_blank L) = "" -> skip_blank L = [].
Proof.
  induction L as [|l more IH]; [done|]. cbn [skip_blank].
  destruct (String.eqb_spec l "") as [->|Hne]; [done|].
  destruct more as [|m ms]; [done|]. rewrite of_lines_cons.
  destruct l; [done|]. by rewrite append_cons.
Qed.

Lemma processContentType_children (n : MIMENode) :
  ChildNodes (processContentType n) = ChildNodes n /\
  LineCount (processContentType n) = LineCount n.
Proof.
  unfold processContentType. by repeat case_match.
Qed.

(** X24 (indexer/parser.go, Parse and ParseMIME).  A message of header
    lines, an empty line and body lines, CRLF between them, whose content
    type announces no boundary, is parsed without error into one node
    without children: its body is the body lines joined by CRLF, less
    the empty lines the body starts with, and its line count is the
    number of those lines. *)
Theorem ParseMIME_single_part (H L : list string) (n1 : MIMENode) :
  H <> [] ->
  Forall (fun l => l <> "" /\ one_line l) H ->
  Forall one_line L ->
  processNodeHeader (IndexerSpec.fresh_node H) = Done n1 ->
  Boundary (processContentType n1) = "" ->
  let body := of_lines (skip_blank L) in
  let t := finalizeNode (single_part n1 body) in
  ParseMIME (of_lines (H ++ "" :: L)) = Done (Some t, None) /\
  Body t = body /\
  LineCount t = Z.of_nat (length (skip_blank L)) /\
  ChildNodes t = [].
Proof.
  intros HH Hall HL Hn1 Hbd body t.
  destruct (processNodeHeader_shape _ _ Hn1) as (hdr & ph & Hshape).
  destruct (processContentType_children n1) as (Hkids & Hcount).
  destruct (processContentType_fields n1) as (_ & _ & Hbody1).
  split.
  - unfold ParseMIME, Parse. cbn [Parse_depth NewMIMEParser rest].
    edestruct (header_lines
                 (fun body =>
                    '(q, _) ← Parse_depth
                      (String.length (of_lines (H ++ "" :: L)))
                      (NewMIMEParser body);
                    Done (GetResult q))
                 H L Hall HL
                 (S (String.length (of_lines (H ++ "" :: L)))) "" ""
                 (node (NewMIMEParser "")) n1 (parents (NewMIMEParser "")))
      as [raw' Hrun]; [done|done|done|exact Hn1|exact Hbd|by left|lia|].
    change (NewMIMEParser (of_lines (H ++ "" :: L)))
      with (mkMIMEParser (of_lines (H ++ "" :: L)) "" ""
              (node (NewMIMEParser "")) (parents (NewMIMEParser ""))).
    rewrite Hrun.
    cbn [mbind Result_bind]. unfold tree. cbn [node parents plug attach].
    cbn. done.
  - assert (Hb : Body t = body).
    { subst t. unfold single_part.
      destruct (processContentType n1) as [? kids ? ? ? ? ? ? ? ? ? ?].
      cbn [finalizeNode set_Body set_state Body RootNode ChildNodes Header
           ParsedHeader Multipart Boundary ParentBoundary LineCount Size
           Message state].
      destruct (0 <? Go.len body) eqn:Hpos; [|done]. cbn.
      apply crlf_endings_lines, skip_blank_one_line, HL. }
    split; [exact Hb|]. split.
    + subst t. unfold single_part.
      assert (Hc0 : LineCount (processContentType n1) = 0).
      { rewrite Hcount, Hshape. done. }
      destruct (processContentType n1) as [? kids ? ? ? ? ? ? ? ? ? ?].
      cbn [finalizeNode set_Body set_state Body RootNode ChildNodes Header
           ParsedHeader Multipart Boundary ParentBoundary LineCount Size
           Message state] in *.
      destruct (0 <? Go.len body) eqn:Hpos.
      * cbn. apply count_lf_lines; [|by apply skip_blank_one_line].
        intros Hnil. subst body. by rewrite Hnil in Hpos.
      * cbn. assert (Hempty : body = "").
        { destruct body; [done|]. unfold Go.len in Hpos.
          cbn [String.length] in Hpos. apply Z.ltb_ge in Hpos. lia. }
        by rewrite (skip_blank_empty L Hempty).
    + subst t. unfold single_part.
      assert (Hk : ChildNodes (processContentType n1) = []).
      { rewrite Hkids, Hshape. done. }
      clear Hkids.
      destruct (processContentType n1) as [? kids ? ? ? ? ? ? ? ? ? ?].
      cbn [finalizeNode set_Body set_state Body RootNode ChildNodes Header
           ParsedHeader Multipart Boundary ParentBoundary LineCount Size
           Message state] in *.
      subst kids. by destruct (0 <? Go.len body).
Qed.
End SinglePart.

Lemma ParseMIME_single_part_witness :
  exists t,
    Indexer.ParseMIME (RT := AsciiRuntime)
      (ParseSpec.of_lines
         (ParseSpec.note_header ++ "" :: ParseSpec.note_body))
    = Done (Some t, None) /\
    Indexer.Body t = ParseSpec.of_lines ["one"; ""; "two"] /\
    Indexer.LineCount t = 3.
Proof.
  assert (Hn : exists n1,
             Indexer.processNodeHeader (RT := AsciiRuntime)
               (IndexerSpec.fresh_node ParseSpec.note_header) = Done n1 /\
             Indexer.Boundary (Indexer.processContentType n1) = "").
  { eexists. split; vm_compute; reflexivity. }
  destruct Hn as (n1 & Hn1 & Hbd).
  destruct (@ParseMIME_single_part AsciiRuntime ParseSpec.note_header
              ParseSpec.note_body n1) as (Hrun & Hbody & Hcount & _).
  - done.
  - unfold ParseSpec.note_header. repeat constructor; done.
  - unfold ParseSpec.note_body. repeat constructor.
  - exact Hn1.
  - exact Hbd.
  - eexists. split; [exact Hrun|]. split; [exact Hbody | exact Hcount].
Defined.

(** ** The session between two commands *)

Section SessionFacts.
Context {RT : GoRuntime}.
Import Imap SessionSpec.

Lemma parseMailboxPath_cases (args : string) :
  (lone_quote args /\ parseMailboxPath args = Panic) \/
  (~ lone_quote args /\ exists p, parseMailboxPath args = Done p).
Proof.
  unfold parseMailboxPath, lone_quote.
  destruct (TrimSpace args) as [|c [|c' t]].
  - right. split; [done|]. cbn. eauto.
  - unfold Go.HasSuffix, Go.HasPrefix, Go.reverse, Go.dquote.
    cbn [Go.rev_string String.prefix].
    destruct (ascii_dec Go.DQ c) as [<-|Hne]; cbn [andb].
    + by left.
    + right. split; [by intros [= ->]|]. eauto.
  - right. split; [done|]. destruct (_ && _)%bool; eauto.
Qed.

Lemma returns_ok_same {W : Type} (s : Session) (w : W) :
  session_ok s -> returns_ok (Done (s, w)).
Proof. intros Hok. by exists s, w. Qed.

Lemma returns_ok_not_panic {W : Type} (r : Result (Session * W)) :
  returns_ok r -> r <> Panic.
Proof. by intros (s' & w' & -> & _). Qed.

Lemma selected_session (s : Session) :
  session_ok s -> state s = StateSelected ->
  exists auth u box, s = mkSession auth (Some u) (Some box) StateSelected.
Proof.
  intros [_ Hsel] Hst. destruct (Hsel Hst) as [Hbox Hu].
  destruct s as [auth [u|] [box|] st]; cbn in *; try done.
  subst st. eauto.
Qed.

Lemma authenticated_session (s : Session) :
  session_ok s -> authenticated s = true ->
  exists u, user s = Some u.
Proof.
  intros [Hauth _] Ha. specialize (Hauth Ha).
  destruct (user s); [eauto | done].
Qed.

Lemma state_guard (s : Session) :
  negb (SessionState_eqb (state s) StateSelected) = false ->
  state s = StateSelected.
Proof. by destruct (state s). Qed.

Lemma state_guard_not (s : Session) :
  negb (SessionState_eqb (state s) StateSelected) = true ->
  state s <> StateSelected.
Proof. by destruct (state s). Qed.

Lemma panics_iff_returns {W : Type} (crash : Prop)
    (r : Result (Session * W)) :
  ~ crash -> returns_ok r -> panics_iff crash r.
Proof.
  intros Hno Hr. split; [|done]. split; [|done].
  intros Hp. by apply returns_ok_not_panic in Hr.
Qed.

(** A handler that dereferences the path it parsed first. *)
Lemma panics_iff_path {W : Type} (guard : Prop) (args : string)
    (k : string -> Result (Session * W)) :
  guard -> (forall p, returns_ok (k p)) ->
  panics_iff (guard /\ lone_quote args) (parseMailboxPath args ≫= k).
Proof.
  intros Hg Hk.
  destruct (parseMailboxPath_cases args) as [[Hq ->]|[Hq [p ->]]];
    cbn [mbind Result_bind].
  - split; [by split|]. intros Hn. exfalso. by apply Hn.
  - apply panics_iff_returns; [by intros [_ ?] | apply Hk].
Qed.

Ltac returns_same :=
  repeat (first [ progress cbn [mbind Result_bind] | case_match ]);
  try (by apply returns_ok_same).

Section MessageCommands.
Variable fails : DbCall -> bool.
Variable find_nil : Database -> option (list Message).

Lemma handleFetch_returns (tag args : string) (s : Session) (w : World) :
  session_ok s -> returns_ok (handleFetch fails find_nil tag args s w).
Proof.
  intros Hok. unfold handleFetch.
  destruct (negb _) eqn:Hg; [by apply returns_ok_same|].
  apply state_guard in Hg.
  destruct (selected_session s Hok Hg) as (auth & u & box & ->).
  unfold fetch_filter, selected_ID. cbn [selectedBox]. returns_same.
Qed.

Lemma handleUIDFetch_returns (tag args : string) (s : Session) (w : World) :
  session_ok s -> returns_ok (handleUIDFetch fails find_nil tag args s w).
Proof.
  intros Hok. unfold handleUIDFetch.
  destruct (negb _) eqn:Hg; [by apply returns_ok_same|].
  apply state_guard in Hg.
  destruct (selected_session s Hok Hg) as (auth & u & box & ->).
  unfold uid_fetch_filter, selected_ID. cbn [selectedBox]. returns_same.
Qed.

Lemma handleStore_returns (tag args : string) (s : Session) (w : World) :
  session_ok s -> returns_ok (handleStore fails tag args s w).
Proof.
  intros Hok. unfold handleStore.
  destruct (negb _) eqn:Hg; [by apply returns_ok_same|].
  apply state_guard in Hg.
  destruct (selected_session s Hok Hg) as (auth & u & box & ->).
  unfold selected_ID, store_with. cbn [selectedBox]. returns_same.
Qed.

Lemma handleUIDStore_returns (tag args : string) (s : Session) (w : World) :
  session_ok s -> returns_ok (handleUIDStore fails tag args s w).
Proof.
  intros Hok. unfold handleUIDStore.
  destruct (negb _) eqn:Hg; [by apply returns_ok_same|].
  apply state_guard in Hg.
  destruct (selected_session s Hok Hg) as (auth & u & box & ->).
  unfold selected_ID, store_with. cbn [selectedBox]. returns_same.
Qed.

Lemma handleExpunge_returns (tag : string) (s : Session) (w : World) :
  session_ok s -> returns_ok (handleExpunge fails tag s w).
Proof.
  intros Hok. unfold handleExpunge.
  destruct (negb _) eqn:Hg; [by apply returns_ok_same|].
  apply state_guard in Hg.
  destruct (selected_session s Hok Hg) as (auth & u & box & ->).
  unfold selected_ID. cbn [selectedBox]. returns_same.
Qed.

Lemma handleClose_returns (tag : string) (s : Session) (w : World) :
  session_ok s -> returns_ok (handleClose fails tag s w).
Proof.
  intros Hok. unfold handleClose.
  destruct (negb _) eqn:Hg; [by apply returns_ok_same|].
  destruct Hok as [Hauth _].
  eexists _, _. split; [reflexivity|]. by split.
Qed.

Lemma handleAppend_returns (tag args : string) (s : Session) (w : World) :
  session_ok s -> returns_ok (handleAppend fails tag args s w).
Proof.
  intros Hok. unfold handleAppend.
  destruct (authenticated s) eqn:Ha; cbn [negb];
    [|by apply returns_ok_same].
  destruct (authenticated_session s Hok Ha) as [u Hu].
  unfold session_user_ID. rewrite Hu. returns_same.
Qed.

Lemma handleMove_panics (tag args : string) (s : Session) (w : World) :
  session_ok s ->
  panics_iff (state s = StateSelected /\ lone_quote_second args)
             (handleMove fails tag args s w).
Proof.
  intros Hok. unfold handleMove.
  destruct (negb _) eqn:Hg.
  { apply state_guard_not in Hg.
    apply panics_iff_returns; [by intros [? _] | by apply returns_ok_same]. }
  apply state_guard in Hg.
  destruct (selected_session s Hok Hg) as (auth & u & box & ->).
  destruct (Go.SplitN args " " 2) as [|seqSet [|dest [|x l]]] eqn:Hsplit;
    try (apply panics_iff_returns;
         [intros [_ (a & b & Heq & _)]; by rewrite Hsplit in Heq
         |by apply returns_ok_same]).
  destruct (parseMailboxPath_cases dest) as [[Hq ->]|[Hq [p ->]]];
    cbn [mbind Result_bind].
  - split; [split; [|done]|].
    + intros _. split; [done|]. by exists seqSet, dest.
    + intros Hn. exfalso. apply Hn. split; [done|]. by exists seqSet, dest.
  - apply panics_iff_returns.
    + intros [_ (a & b & Heq & Hb)]. rewrite Hsplit in Heq.
      by injection Heq as <- <-.
    + unfold session_user_ID, selected_ID. cbn [user selectedBox].
      returns_same.
Qed.
End MessageCommands.

Section CopyCommands.
Variable fails : ImapCopy.CopyCall -> bool.
Variable NewObjectID : nat -> ObjectID.

Lemma copy_with_panics (expects completed tag args : string)
    (s : Session) (w : World) :
  session_ok s ->
  panics_iff (state s = StateSelected /\ lone_quote_second args)
             (ImapCopy.copy_with fails NewObjectID expects completed
                                 tag args s w).
Proof.
  intros Hok. unfold ImapCopy.copy_with.
  destruct (negb _) eqn:Hg.
  { apply state_guard_not in Hg.
    apply panics_iff_returns; [by intros [? _] | by apply returns_ok_same]. }
  apply state_guard in Hg.
  destruct (selected_session s Hok Hg) as (auth & u & box & ->).
  destruct (Go.SplitN args " " 2) as [|seqSet [|dest [|x l]]] eqn:Hsplit;
    try (apply panics_iff_returns;
         [intros [_ (a & b & Heq & _)]; by rewrite Hsplit in Heq
         |by apply returns_ok_same]).
  destruct (parseMailboxPath_cases dest) as [[Hq ->]|[Hq [p ->]]];
    cbn [mbind Result_bind].
  - split; [split; [|done]|].
    + intros _. split; [done|]. by exists seqSet, dest.
    + intros Hn. exfalso. apply Hn. split; [done|]. by exists seqSet, dest.
  - apply panics_iff_returns.
    + intros [_ (a & b & Heq & Hb)]. rewrite Hsplit in Heq.
      by injection Heq as <- <-.
    + unfold session_user_ID, selected_ID. cbn [user selectedBox].
      returns_same.
Qed.
End CopyCommands.

Section MailboxCommands.
Variable fails : Mailboxes.Call -> bool.

Lemma handleSelect_panics (tag args : string) (s : Session)
    (w : Mailboxes.World) :
  session_ok s ->
  panics_iff (authenticated s = true /\ lone_quote args)
             (Mailboxes.handleSelect fails tag args s w).
Proof.
  intros Hok. unfold Mailboxes.handleSelect.
  destruct (authenticated s) eqn:Ha; cbn [negb];
    [|apply panics_iff_returns;
      [by intros [? _] | by apply returns_ok_same]].
  destruct (authenticated_session s Hok Ha) as [u Hu].
  apply panics_iff_path; [done|]. intros p.
  unfold session_user_ID. rewrite Hu. returns_same.
Qed.

Lemma handleExamine_panics (tag args : string) (s : Session)
    (w : Mailboxes.World) :
  session_ok s ->
  panics_iff (authenticated s = true /\ lone_quote args)
             (Mailboxes.handleExamine fails tag args s w).
Proof.
  intros Hok. unfold Mailboxes.handleExamine.
  destruct (handleSelect_panics tag args s w Hok) as [[Hp Hc] Hr].
  split; [split|].
  - intros Hx. apply Hp.
    destruct (Mailboxes.handleSelect _ _ _ _ _) as [[? ?]| |]; done.
  - intros Hcrash. by rewrite (Hc Hcrash).
  - intros Hno. destruct (Hr Hno) as (s' & w' & -> & Hs').
    cbn [mbind Result_bind]. by apply returns_ok_same.
Qed.

Lemma handleCreate_panics (id : Mailboxes.ObjectID) (now : Z)
    (tag args : string) (s : Session) (w : Mailboxes.World) :
  session_ok s ->
  panics_iff (authenticated s = true /\ lone_quote args)
             (Mailboxes.handleCreate fails id now tag args s w).
Proof.
  intros Hok. unfold Mailboxes.handleCreate.
  destruct (authenticated s) eqn:Ha; cbn [negb];
    [|apply panics_iff_returns;
      [by intros [? _] | by apply returns_ok_same]].
  destruct (authenticated_session s Hok Ha) as [u Hu].
  apply panics_iff_path; [done|]. intros p.
  unfold session_user_ID. rewrite Hu. returns_same.
Qed.

Lemma handleDelete_panics (tag args : string) (s : Session)
    (w : Mailboxes.World) :
  session_ok s ->
  panics_iff (authenticated s = true /\ lone_quote args)
             (Mailboxes.handleDelete fails tag args s w).
Proof.
  intros Hok. unfold Mailboxes.handleDelete.
  destruct (authenticated s) eqn:Ha; cbn [negb];
    [|apply panics_iff_returns;
      [by intros [? _] | by apply returns_ok_same]].
  destruct (authenticated_session s Hok Ha) as [u Hu].
  apply panics_iff_path; [done|]. intros p.
  unfold session_user_ID. rewrite Hu. returns_same.
Qed.

Lemma subscribe_with_panics (v : bool) (completed tag args : string)
    (s : Session) (w : Mailboxes.World) :
  session_ok s ->
  panics_iff (authenticated s = true /\ lone_quote args)
             (Mailboxes.subscribe_with fails v completed tag args s w).
Proof.
  intros Hok. unfold Mailboxes.subscribe_with.
  destruct (authenticated s) eqn:Ha; cbn [negb];
    [|apply panics_iff_returns;
      [by intros [? _] | by apply returns_ok_same]].
  destruct (authenticated_session s Hok Ha) as [u Hu].
  apply panics_iff_path; [done|]. intros p.
  unfold session_user_ID. rewrite Hu. returns_same.
Qed.

Lemma handleRename_returns (tag args : string) (s : Session)
    (w : Mailboxes.World) :
  session_ok s -> returns_ok (Mailboxes.handleRename fails tag args s w).
Proof.
  intros Hok. unfold Mailboxes.handleRename.
  destruct (authenticated s) eqn:Ha; cbn [negb];
    [|by apply returns_ok_same].
  destruct (authenticated_session s Hok Ha) as [u Hu].
  unfold session_user_ID. rewrite Hu. returns_same.
Qed.
End MailboxCommands.

(** X25 (FETCH, UID FETCH, STORE, UID STORE, EXPUNGE, CLOSE, APPEND and
    RENAME).  In a session that is in order (authenticated sessions have
    their user, selected ones their mailbox and their user) these
    commands never panic, whatever their arguments, the database and
    its failures: each returns, and leaves a session that is in order. *)
Theorem commands_never_panic
    (fails : DbCall -> bool) (find_nil : Database -> option (list Message))
    (mailbox_fails : Mailboxes.Call -> bool)
    (tag args : string) (s : Session) (w : World) (mw : Mailboxes.World) :
  session_ok s ->
  returns_ok (handleFetch fails find_nil tag args s w) /\
  returns_ok (handleUIDFetch fails find_nil tag args s w) /\
  returns_ok (handleStore fails tag args s w) /\
  returns_ok (handleUIDStore fails tag args s w) /\
  returns_ok (handleExpunge fails tag s w) /\
  returns_ok (handleClose fails tag s w) /\
  returns_ok (handleAppend fails tag args s w) /\
  returns_ok (Mailboxes.handleRename mailbox_fails tag args s mw).
Proof.
  intros Hok.
  split; [by apply handleFetch_returns|].
  split; [by apply handleUIDFetch_returns|].
  split; [by apply handleStore_returns|].
  split; [by apply handleUIDStore_returns|].
  split; [by apply handleExpunge_returns|].
  split; [by apply handleClose_returns|].
  split; [by apply handleAppend_returns | by apply handleRename_returns].
Qed.

(** X26 (SELECT, EXAMINE, CREATE, DELETE, SUBSCRIBE, UNSUBSCRIBE, MOVE,
    COPY and UID COPY).  In a session that is in order, a command that
    reads a mailbox name through [parseMailboxPath] panics in exactly one
    case: the name is a lone double quote (blanks apart) and the command
    got past its guard, authentication for the first six, the selected
    state and the two arguments for the last three.  In every other case
    it returns and leaves a session that is in order. *)
Theorem lone_quote_panics
    (fails : DbCall -> bool) (copy_fails : ImapCopy.CopyCall -> bool)
    (mailbox_fails : Mailboxes.Call -> bool)
    (fresh : nat -> ObjectID) (id : Mailboxes.ObjectID) (now : Z)
    (tag args : string) (s : Session) (w : World) (mw : Mailboxes.World) :
  session_ok s ->
  (panics_iff (authenticated s = true /\ lone_quote args)
     (Mailboxes.handleSelect mailbox_fails tag args s mw) /\
   panics_iff (authenticated s = true /\ lone_quote args)
     (Mailboxes.handleExamine mailbox_fails tag args s mw) /\
   panics_iff (authenticated s = true /\ lone_quote args)
     (Mailboxes.handleCreate mailbox_fails id now tag args s mw) /\
   panics_iff (authenticated s = true /\ lone_quote args)
     (Mailboxes.handleDelete mailbox_fails tag args s mw) /\
   panics_iff (authenticated s = true /\ lone_quote args)
     (Mailboxes.handleSubscribe mailbox_fails tag args s mw) /\
   panics_iff (authenticated s = true /\ lone_quote args)
     (Mailboxes.handleUnsubscribe mailbox_fails tag args s mw)) /\
  (panics_iff (state s = StateSelected /\ lone_quote_second args)
     (handleMove fails tag args s w) /\
   panics_iff (state s = StateSelected /\ lone_quote_second args)
     (ImapCopy.handleCopy copy_fails fresh tag args s w) /\
   panics_iff (state s = StateSelected /\ lone_quote_second args)
     (ImapCopy.handleUIDCopy copy_fails fresh tag args s w)).
Proof.
  intros Hok. split.
  - split; [by apply handleSelect_panics|].
    split; [by apply handleExamine_panics|].
    split; [by apply handleCreate_panics|].
    split; [by apply handleDelete_panics|].
    split; by apply subscribe_with_panics.
  - split; [by apply handleMove_panics|].
    split; by apply copy_with_panics.
Qed.

End SessionFacts.

Lemma commands_never_panic_witness :
  SessionSpec.session_ok Fixtures.selected /\
  SessionSpec.returns_ok
    (Imap.handleStore (RT := AsciiRuntime) Fixtures.no_faults
       "a1" "3 +FLAGS (\Seen)" Fixtures.selected
       (Fixtures.world Fixtures.two_messages)).
Proof.
  assert (Hok : SessionSpec.session_ok Fixtures.selected) by (by split).
  split; [exact Hok|].
  exact (proj1 (proj2 (proj2
           (@commands_never_panic AsciiRuntime Fixtures.no_faults
              Fixtures.nil_refused MailboxSpec.no_faults
              "a1" "3 +FLAGS (\Seen)" Fixtures.selected
              (Fixtures.world Fixtures.two_messages) MailboxSpec.world
              Hok)))).
Defined.

Lemma lone_quote_panics_witness :
  SessionSpec.session_ok MailboxSpec.logged_in /\
  Mailboxes.handleSelect (RT := AsciiRuntime) MailboxSpec.no_faults
    "a1" (" " +:+ Go.dquote) MailboxSpec.logged_in MailboxSpec.world
  = Panic.
Proof.
  assert (Hok : SessionSpec.session_ok MailboxSpec.logged_in) by (by split).
  split; [exact Hok|].
  apply (proj2 (proj1 (proj1 (proj1
           (@lone_quote_panics AsciiRuntime Fixtures.no_faults
              UidSpec.no_copy_faults MailboxSpec.no_faults
              UidSpec.fresh_ids 0 0 "a1" (" " +:+ Go.dquote)
              MailboxSpec.logged_in
              (Fixtures.world Fixtures.two_messages) MailboxSpec.world
              Hok))))).
  split; [reflexivity | vm_compute; reflexivity].
Defined.

(** ** BODYSTRUCTURE: when the order of the parameters cannot show *)

Section OrderFree.
Context {RT : GoRuntime}.
Import Indexer BodyStructure BodyStructureSpec StructureSpec.

Variables o1 o2 : gmap string string -> list (string * string).
Hypothesis admissible1 : admissible o1.
Hypothesis admissible2 : admissible o2.

Lemma range_order_small (m : gmap string string) :
  (size m <= 1)%nat -> o1 m = o2 m.
Proof.
  intros Hsize.
  assert (Hperm : o1 m ≡ₚ o2 m).
  { etrans; [apply admissible1 | symmetry; apply admissible2]. }
  assert (Hlen : (length (o1 m) <= 1)%nat).
  { rewrite (Permutation_length (admissible1 m)), length_map_to_list. done. }
  destruct (o1 m) as [|a [|b l]]; cbn in Hlen; [| |lia].
  - by apply Permutation_nil in Hperm.
  - by apply Permutation_singleton_l in Hperm.
Qed.

Lemma param_list_small (options : BodyStructureOptions) (vp : ValueParams) :
  (size (Params vp) <= 1)%nat ->
  param_list o1 options vp = param_list o2 options vp.
Proof.
  intros Hsize. unfold param_list. by rewrite (range_order_small _ Hsize).
Qed.

Lemma few_params_content_type (n : MIMENode) :
  few_params (ParsedHeader n !! "content-type") = true ->
  (size (Params (getContentType n)) <= 1)%nat.
Proof.
  unfold few_params, getContentType.
  destruct (ParsedHeader n !! "content-type") as [[| |vp|]|];
    try (intros _; cbn [Params]; rewrite map_size_empty; lia).
  by intros Hle%Nat.leb_le.
Qed.

Lemma getBasicFields_small (n : MIMENode) (options : BodyStructureOptions) :
  few_params (ParsedHeader n !! "content-type") = true ->
  getBasicFields o1 n options = getBasicFields o2 n options.
Proof.
  intros Hct%few_params_content_type. unfold getBasicFields.
  by rewrite (param_list_small _ _ Hct).
Qed.

Lemma getExtensionFields_small (n : MIMENode)
    (options : BodyStructureOptions) :
  few_params (ParsedHeader n !! "content-disposition") = true ->
  getExtensionFields o1 n options = getExtensionFields o2 n options.
Proof.
  unfold few_params, getExtensionFields.
  destruct (ParsedHeader n !! "content-disposition") as [[| |vp|]|];
    try done.
  intros Hle%Nat.leb_le. by rewrite (param_list_small _ _ Hle).
Qed.

Lemma createBodyStructure_node_unfold
    (o : gmap string string -> list (string * string))
    (options : BodyStructureOptions) (node : MIMENode) :
  createBodyStructure_node o options node
  = let contentType := getContentType node in
    if String.eqb (Type_ contentType) "multipart" then
      processMultipartNode o
        (map (createBodyStructure_node o options) (ChildNodes node))
        node options
    else if String.eqb (Type_ contentType) "text" then
      processTextNode o node options
    else if (String.eqb (Type_ contentType) "message" &&
             String.eqb (Subtype contentType) "rfc822" &&
             negb (AttachmentRFC822 options))%bool then
      processRFC822Node o
        (option_map (createBodyStructure_node o options) (Message node))
        node options
    else processAttachmentNode o node options.
Proof. by destruct node. Qed.

Lemma createBodyStructure_node_small (options : BodyStructureOptions) :
  forall n : MIMENode,
    one_param_each n = true ->
    createBodyStructure_node o1 options n
    = createBodyStructure_node o2 options n.
Proof.
  fix IH 1. intros [root kids hdr ph body multi bnd pbnd lc sz msg st].
  cbn [one_param_each ParsedHeader ChildNodes Message].
  intros (((Hct & Hcd)%andb_true_iff & Hkids)%andb_true_iff
          & Hmsg)%andb_true_iff.
  set (n := mkMIMENode root kids hdr ph body multi bnd pbnd lc sz msg st).
  assert (Hbasic := getBasicFields_small n options Hct).
  assert (Hext := getExtensionFields_small n options Hcd).
  assert (Hparams := param_list_small options (getContentType n)
                       (few_params_content_type n Hct)).
  assert (Hmap : map (createBodyStructure_node o1 options) kids
                 = map (createBodyStructure_node o2 options) kids).
  { clear -IH Hkids. induction kids as [|k kids IHk]; [done|].
    cbn [forallb] in Hkids. apply andb_true_iff in Hkids as [Hk Hkids].
    cbn [map]. by rewrite (IH k Hk), (IHk Hkids). }
  assert (Hemb : option_map (createBodyStructure_node o1 options) msg
                 = option_map (createBodyStructure_node o2 options) msg).
  { destruct msg as [m|]; [|done]. cbn [option_map]. by rewrite (IH m Hmsg). }
  rewrite !createBodyStructure_node_unfold.
  change (ChildNodes n) with kids. change (Message n) with msg.
  unfold processMultipartNode, processTextNode, processRFC822Node,
    processAttachmentNode.
  cbv zeta. rewrite Hmap, Hemb, Hbasic, Hext, Hparams. reflexivity.
Qed.

(** X27 (indexer/parser.go, CreateBodyStructure).  Two runs that visit
    the parameters in different orders build the same structure of a
    tree, with the same options, when no content type and no content
    disposition in the tree has more than one parameter. *)
Theorem bodystructure_order_free (tree : option MIMENode)
    (options : option BodyStructureOptions) :
  from_option one_param_each true tree = true ->
  CreateBodyStructure o1 tree options = CreateBodyStructure o2 tree options.
Proof.
  intros Hfew. unfold CreateBodyStructure, createBodyStructure.
  destruct tree as [n|]; [|done].
  by apply createBodyStructure_node_small.
Qed.

End OrderFree.

Lemma bodystructure_order_free_witness :
  exists tree,
    Indexer.ParseMIME (RT := AsciiRuntime)
      (ParseSpec.of_lines
         (ParseSpec.note_header ++ "" :: ParseSpec.note_body))
    = Done (Some tree, None) /\
    BodyStructure.CreateBodyStructure (RT := AsciiRuntime)
      BodyStructureSpec.ascending (Some tree) (Some BodyStructureSpec.wire)
    = BodyStructure.CreateBodyStructure (RT := AsciiRuntime)
        BodyStructureSpec.descending (Some tree)
        (Some BodyStructureSpec.wire).
Proof.
  eexists. split; [vm_compute; reflexivity|].
  apply (@bodystructure_order_free AsciiRuntime
           BodyStructureSpec.ascending BodyStructureSpec.descending
           ascending_admissible descending_admissible).
  vm_compute. reflexivity.
Defined.
